(** * The 5x5 dot grid: entities, factory and interaction hook

    A shallow embedding of the TypeScript sources

      - [entities/types/Vector2D.ts]  (grid <-> world conversion),
      - [entities/Dot.ts]             (the dot entity and its defaults),
      - [entities/DotFactory.ts]      (position colours, dot ids, dots and
                                       grids of dots, artist slugs),
      - [hooks/useDotGrid.ts]         (the interaction state machine),
      - [hooks/useDotProps.ts]        (per-dot derived display state),

    followed by the properties of the grid's specification.

    Conventions of the embedding.
      - A JavaScript [number] that the code only uses as an integer or as
        the result of [parseInt] is an [option Z]: [None] is [NaN].
      - A [number] used in real-valued arithmetic ([cellSize], [gap], the
        colour interpolation factor) is a binary64 [float], with the
        primitive IEEE operations of the kernel.
      - [string | null] is [option string]; [null] is [None].
      - A [Set<string>] is a [gset string].
      - Strings are sequences of ASCII characters. *)

From Stdlib Require Import ZArith QArith Qround String Ascii List Bool Lia.
From Stdlib Require Import DecimalString DecimalPos.
From Stdlib Require Import Floats.PrimFloat Floats.SpecFloat Floats.FloatOps.
From Stdlib Require Floats.FloatAxioms Uint63.
From stdpp Require Import base gmap sets strings.
Import ListNotations.

Local Open Scope Z_scope.
Local Open Scope string_scope.

(* ===================================================================== *)
(** * The JavaScript primitives the sources rely on                       *)
(* ===================================================================== *)

Module JS.

(** ** Numbers that are integers or [NaN] *)

Definition number := option Z.
Definition NaN : number := None.

(** [a === b] on numbers: [NaN] equals nothing. *)
Definition strictEq (a b : number) : bool :=
  match a, b with
  | Some x, Some y => (x =? y)%Z
  | _, _ => false
  end.

Definition plus (a b : number) : number :=
  match a, b with
  | Some x, Some y => Some (x + y)%Z
  | _, _ => None
  end.

Definition isNaN (a : number) : bool :=
  match a with None => true | Some _ => false end.

(** [String(n)] for an integer-valued number (below the 1e21 threshold
    where JavaScript switches to exponent notation) and for [NaN]. *)
Definition numberToString (a : number) : string :=
  match a with
  | None => "NaN"
  | Some z => NilZero.string_of_int (Z.to_int z)
  end.

(** ** Truthiness of [string | null | undefined] *)

Definition truthy (s : option string) : bool :=
  match s with
  | Some (String _ _) => true
  | _ => false
  end.

(** [a || b] on [string | undefined] operands. *)
Definition orElse (a b : option string) : option string :=
  if truthy a then a else b.

(** ** Arrays of strings *)

(** [parts[i]]: [undefined] ([None]) outside [0 .. length-1]. *)
Definition index (parts : list string) (i : Z) : option string :=
  if (i <? 0)%Z then None else nth_error parts (Z.to_nat i).

Definition arrayLength (parts : list string) : Z :=
  Z.of_nat (List.length parts).

(** [xs.length] for an array of any element type. *)
Definition arrayLengthOf {A : Type} (xs : list A) : Z :=
  Z.of_nat (List.length xs).

(** [s.split(sep)] for a one-character separator. *)
Fixpoint split (sep : ascii) (s : string) : list string :=
  match s with
  | EmptyString => [EmptyString]
  | String c rest =>
      if Ascii.eqb c sep then EmptyString :: split sep rest
      else match split sep rest with
           | [] => [String c EmptyString]
           | seg :: segs => String c seg :: segs
           end
  end.

(** ** [parseInt(s)] without a radix argument *)

Definition isWhiteSpace (c : ascii) : bool :=
  let n := nat_of_ascii c in
  (n =? 32)%nat || ((9 <=? n)%nat && (n <=? 13)%nat).

Fixpoint trimStart (s : string) : string :=
  match s with
  | String c rest => if isWhiteSpace c then trimStart rest else s
  | EmptyString => EmptyString
  end.

Definition between (lo hi c : ascii) : bool :=
  (nat_of_ascii lo <=? nat_of_ascii c)%nat
  && (nat_of_ascii c <=? nat_of_ascii hi)%nat.

(** Value of a character as a digit of radix up to 36. *)
Definition digitValue (c : ascii) : option Z :=
  if between "0" "9" c then Some (Z.of_nat (nat_of_ascii c) - 48)%Z
  else if between "a" "z" c then Some (Z.of_nat (nat_of_ascii c) - 87)%Z
  else if between "A" "Z" c then Some (Z.of_nat (nat_of_ascii c) - 55)%Z
  else None.

Definition digitIn (radix : Z) (c : ascii) : option Z :=
  match digitValue c with
  | Some d => if (d <? radix)%Z then Some d else None
  | None => None
  end.

(** Value of the longest prefix of [s] made of radix digits. *)
Fixpoint parseDigits (radix acc : Z) (s : string) : Z :=
  match s with
  | String c rest =>
      match digitIn radix c with
      | Some d => parseDigits radix (radix * acc + d)%Z rest
      | None => acc
      end
  | EmptyString => acc
  end.

(** [parseInt(s, radix)]: leading white space, an optional sign, then
    the longest run of digits of the radix; [NaN] when that run is empty.
    [radix = 0] stands for a missing radix argument: radix 10, or 16
    after a [0x]/[0X] prefix, which an explicit radix 16 also skips.
    The integer is kept exact (JavaScript rounds it to a double). *)
Definition parseIntRadix (s : string) (radix : Z) : number :=
  let s1 := trimStart s in
  let '(sign, s2) :=
    match s1 with
    | String "-" r => ((-1)%Z, r)
    | String "+" r => (1%Z, r)
    | _ => (1%Z, s1)
    end in
  if negb (radix =? 0)%Z && ((radix <? 2)%Z || (36 <? radix)%Z) then NaN
  else
    let stripPrefix := (radix =? 0)%Z || (radix =? 16)%Z in
    let '(R, s3) :=
      match s2 with
      | String "0" (String "x" r) =>
          if stripPrefix then (16%Z, r) else (radix, s2)
      | String "0" (String "X" r) =>
          if stripPrefix then (16%Z, r) else (radix, s2)
      | _ => (if (radix =? 0)%Z then 10%Z else radix, s2)
      end in
    match s3 with
    | String c _ =>
        match digitIn R c with
        | Some _ => Some (sign * parseDigits R 0 s3)%Z
        | None => NaN
        end
    | EmptyString => NaN
    end.

Definition parseInt (s : string) : number := parseIntRadix s 0.

(** [parseInt(x)] where [x] may be [undefined]: the argument is first
    converted to the string ["undefined"], which has no digits. *)
Definition parseIntArg (x : option string) : number :=
  match x with
  | Some s => parseInt s
  | None => parseInt "undefined"
  end.

(** ** [toLowerCase] and the two regular-expression replacements *)

Definition toLowerChar (c : ascii) : ascii :=
  if between "A" "Z" c then ascii_of_nat (nat_of_ascii c + 32) else c.

Fixpoint toLowerCase (s : string) : string :=
  match s with
  | EmptyString => EmptyString
  | String c rest => String (toLowerChar c) (toLowerCase rest)
  end.

(** [s.replace(/[^...]+/g, by)]: every maximal run of characters outside
    the class [keep] becomes one [by]. [inRun] tells that the previous
    character already belonged to the run being replaced. *)
Fixpoint replaceRuns (keep : ascii -> bool) (by_ : ascii) (inRun : bool)
    (s : string) : string :=
  match s with
  | EmptyString => EmptyString
  | String c rest =>
      if keep c then String c (replaceRuns keep by_ false rest)
      else if inRun then replaceRuns keep by_ true rest
      else String by_ (replaceRuns keep by_ true rest)
  end.

(** The [^c+] alternative of a global replace by the empty string. *)
Fixpoint dropLeading (c : ascii) (s : string) : string :=
  match s with
  | String d rest => if Ascii.eqb d c then dropLeading c rest else s
  | EmptyString => EmptyString
  end.

(** The [c+$] alternative of a global replace by the empty string. *)
Fixpoint dropTrailing (c : ascii) (s : string) : string :=
  match s with
  | EmptyString => EmptyString
  | String d rest =>
      match dropTrailing c rest with
      | EmptyString => if Ascii.eqb d c then EmptyString
                       else String d EmptyString
      | rest' => String d rest'
      end
  end.

(** ** Binary64 numbers *)

(** The double of a (small) integer. *)
Definition ofZ (z : Z) : float :=
  if (z <? 0)%Z then (- of_uint63 (Uint63Axioms.of_Z (- z)))%float
  else of_uint63 (Uint63Axioms.of_Z z).

(** The double of a [number]. *)
Definition ofNumber (a : number) : float :=
  match a with
  | Some z => ofZ z
  | None => nan
  end.

(** [Math.floor]: a double [±m·2^e] with [e >= 0] is an integer; the
    others are below [2^53] and their floor is computed exactly. *)
Definition Math_floor (x : float) : float :=
  match Prim2SF x with
  | S754_finite s m e =>
      if (0 <=? e)%Z then x
      else ofZ ((if s then Z.neg m else Z.pos m) / 2 ^ (- e))
  | _ => x
  end.

(** [Math.round]: the nearest integer, a tie going towards +Infinity,
    that is [floor (x + 1/2)] computed exactly; a result 0 keeps the
    sign of [x]. *)
Definition Math_round (x : float) : float :=
  match Prim2SF x with
  | S754_finite s m e =>
      if (0 <=? e)%Z then x
      else
        let z := ((2 * (if s then Z.neg m else Z.pos m) + 2 ^ (- e))
                  / 2 ^ (- e + 1))%Z in
        if (z =? 0)%Z && s then neg_zero else ofZ z
  | _ => x
  end.

Definition hexDigit (d : Z) : ascii :=
  if (d <? 10)%Z then ascii_of_nat (Z.to_nat d + 48)
  else ascii_of_nat (Z.to_nat d + 87).

(** Hexadecimal digits of [z > 0] in front of [acc], most significant
    first; [fuel] bounds their number. *)
Fixpoint hexDigits (fuel : nat) (z : Z) (acc : string) : string :=
  match fuel with
  | O => acc
  | S fuel' =>
      let acc' := String (hexDigit (z mod 16)) acc in
      if (z / 16 =? 0)%Z then acc' else hexDigits fuel' (z / 16) acc'
  end.

(** [x.toString(16)] for the doubles [Math.round] returns: an integer,
    [NaN] or an infinity. *)
Definition toStringHex (x : float) : string :=
  match Prim2SF x with
  | S754_nan => "NaN"
  | S754_infinity s => if s then "-Infinity" else "Infinity"
  | S754_zero _ => "0"
  | S754_finite s m e =>
      let magnitude :=
        if (0 <=? e)%Z then (Z.pos m * 2 ^ e)%Z
        else (Z.pos m / 2 ^ (- e))%Z in
      (if s then "-" else "")
      ++ (if (magnitude =? 0)%Z then "0"
          else hexDigits (S (Z.to_nat (Z.log2 magnitude))) magnitude "")
  end.

(** [s.padStart(n, c)] *)
Definition padStart (s : string) (n : nat) (c : ascii) : string :=
  string_of_list_ascii (repeat c (n - String.length s)) ++ s.

(** [s.slice(i, j)] for [0 <= i <= j]. *)
Definition slice (s : string) (i j : nat) : string :=
  String.substring i (j - i) s.

End JS.

(* ===================================================================== *)
(** * entities/types/Vector2D.ts: grid and world coordinates              *)
(* ===================================================================== *)

Module Vector2D.

(** The arithmetic the two conversions use: the program runs on the
    doubles of [binary64]. *)
Class Arithmetic (N : Type) := {
  add : N -> N -> N;
  mul : N -> N -> N;
  div : N -> N -> N;
  floor : N -> N;
}.

#[export] Instance binary64 : Arithmetic float := {|
  add := PrimFloat.add;
  mul := PrimFloat.mul;
  div := PrimFloat.div;
  floor := JS.Math_floor;
|}.

Record Vector2D (N : Type) := { x : N; y : N }.
Record GridPosition (N : Type) := { row : N; col : N }.
Arguments x {N}.
Arguments y {N}.
Arguments row {N}.
Arguments col {N}.
Arguments Build_Vector2D {N}.
Arguments Build_GridPosition {N}.

Section Conversions.
Context {N : Type} `{Arithmetic N}.

Definition gridToWorld (gridPos : GridPosition N) (cellSize gap : N)
    : Vector2D N :=
  {| x := mul (col gridPos) (add cellSize gap);
     y := mul (row gridPos) (add cellSize gap) |}.

End Conversions.

End Vector2D.

(* ===================================================================== *)
(** * entities/Dot.ts: the dot entity                                     *)
(* ===================================================================== *)

Module Dot.

Inductive DotState :=
| idle | hovered | selected | rippling | highlighted | animating
| collected | hidden.

Record DotColorState := {
  base : string;
  hover : string;
  glow : string;
  current : string;
}.

Record DotVisualProps := {
  scale : float;
  opacity : float;
  rotation : float;
  glowIntensity : float;
}.

Record DotPhysicsProps := {
  velocity : Vector2D.Vector2D float;
  acceleration : Vector2D.Vector2D float;
  mass : float;
  friction : float;
  restitution : float;
  isStatic : bool;
}.

Inductive CollectionSource :=
| content_viewed | interaction | discovery | daily_visit | gifted.

(** A [Date] is the clock reading it was made from, in milliseconds. *)
Definition Date : Type := Z.

(** The optional [metadata], which no function of the factory writes, is
    left out. *)
Record DotCollectionData := {
  collectible : bool;
  collectedBy : option string;
  collectedAt : option Date;
  source : option CollectionSource;
  value : float;
}.

Inductive ContentType := navigation | project | artist | special.

Record DotContent := {
  key : string;
  label : string;
  type : ContentType;
  url : option string;
}.

(** Grid coordinates are integers. The optional [meta] is left out. *)
Record DotEntity := {
  id : string;
  gridPosition : Vector2D.GridPosition Z;
  worldPosition : Vector2D.Vector2D float;
  targetPosition : Vector2D.Vector2D float;
  color : DotColorState;
  visual : DotVisualProps;
  physics : DotPhysicsProps;
  state : DotState;
  previousState : DotState;
  content : option DotContent;
  collection : DotCollectionData;
  createdAt : Date;
  lastInteraction : option Date;
}.

(** [Partial<DotColorState>]: [None] is a missing field. *)
Record PartialColor := {
  baseOpt : option string;
  hoverOpt : option string;
  glowOpt : option string;
  currentOpt : option string;
}.

(** [DotEntityInput]. [inputContent = None] is a [content] that is
    [null] or missing, [inputColor = None] a missing [color] and
    [inputValue = None] a missing [value]. *)
Record DotEntityInput := {
  inputId : string;
  inputGridPosition : Vector2D.GridPosition Z;
  inputContent : option DotContent;
  inputColor : option PartialColor;
  inputValue : option float;
}.

(** [Partial<DotVisualProps>] *)
Record PartialVisual := {
  scaleOpt : option float;
  opacityOpt : option float;
  rotationOpt : option float;
  glowIntensityOpt : option float;
}.

Module DOT_DEFAULTS.
Definition visual : DotVisualProps :=
  {| scale := 1; opacity := 1; rotation := 0; glowIntensity := 0 |}.
(** [friction] is the double nearest to 0.1. *)
Definition physics : DotPhysicsProps :=
  {| velocity := {| Vector2D.x := 0%float; Vector2D.y := 0%float |};
     acceleration := {| Vector2D.x := 0%float; Vector2D.y := 0%float |};
     mass := 1;
     friction := 0x1.999999999999ap-4;
     restitution := 0.5;
     isStatic := true |}.
Definition collection : DotCollectionData :=
  {| collectible := true; collectedBy := None; collectedAt := None;
     source := None; value := 1 |}.
End DOT_DEFAULTS.

End Dot.

(* ===================================================================== *)
(** * entities/DotFactory.ts: position colours and the artist slug        *)
(* ===================================================================== *)

Module DotFactory.

(** Interpolate between two hex colours. *)
Definition interpolateColor (color1 color2 : string) (factor : float)
    : string :=
  let hex := fun c : string => JS.ofNumber (JS.parseIntRadix c 16) in
  let r1 := hex (JS.slice color1 1 3) in
  let g1 := hex (JS.slice color1 3 5) in
  let b1 := hex (JS.slice color1 5 7) in
  let r2 := hex (JS.slice color2 1 3) in
  let g2 := hex (JS.slice color2 3 5) in
  let b2 := hex (JS.slice color2 5 7) in
  let r := JS.Math_round (r1 + (r2 - r1) * factor)%float in
  let g := JS.Math_round (g1 + (g2 - g1) * factor)%float in
  let b := JS.Math_round (b1 + (b2 - b1) * factor)%float in
  "#" ++ JS.padStart (JS.toStringHex r) 2 "0"
      ++ JS.padStart (JS.toStringHex g) 2 "0"
      ++ JS.padStart (JS.toStringHex b) 2 "0".

Module PALETTE.
Definition skyfall := "#A8D5E5".
Definition dawnGlow := "#FFB7A5".
Definition violetHour := "#C9A7EB".
Definition dustyRose := "#D4A5A5".
Definition mustardPress := "#E8B84A".
Definition seaFoam := "#98D4BB".
Definition warmIvory := "#FBF7F0".
End PALETTE.

Record ColorZone := { primary : string; secondary : string }.

Definition ROW_COLOR_ZONES : list ColorZone := [
  {| primary := PALETTE.skyfall; secondary := PALETTE.violetHour |};
  {| primary := PALETTE.violetHour; secondary := PALETTE.dustyRose |};
  {| primary := PALETTE.dustyRose; secondary := PALETTE.dawnGlow |};
  {| primary := PALETTE.dawnGlow; secondary := PALETTE.mustardPress |};
  {| primary := PALETTE.mustardPress; secondary := PALETTE.seaFoam |}
].

(** [ROW_COLOR_ZONES[i]] for an integer [i]. *)
Definition zoneAt (i : Z) : option ColorZone :=
  if (i <? 0)%Z then None else nth_error ROW_COLOR_ZONES (Z.to_nat i).

(** Calculate colour based on grid position. [row] is an integer; [None]
    is the [TypeError] raised by reading [primary] of an [undefined]
    zone. *)
Definition getPositionColor (row : Z) (col totalCols : float)
    : option string :=
  let safeRow := Z.min row (Z.of_nat (List.length ROW_COLOR_ZONES) - 1) in
  match zoneAt safeRow with
  | None => None
  | Some zone =>
      let colFactor := (col / (totalCols - 1))%float in
      Some (interpolateColor (primary zone) (secondary zone) colFactor)
  end.

(** The default argument [totalCols = 5]. *)
Definition defaultTotalCols : float := 5%float.

(** The three channels of a [#rrggbb] colour, read the way
    [interpolateColor] reads them. *)
Definition channels (color : string) : list JS.number :=
  [ JS.parseIntRadix (JS.slice color 1 3) 16;
    JS.parseIntRadix (JS.slice color 3 5) 16;
    JS.parseIntRadix (JS.slice color 5 7) 16 ].

Definition isSlugChar (c : ascii) : bool :=
  JS.between "a" "z" c || JS.between "0" "9" c.

(** [artistName.toLowerCase().replace(/[^a-z0-9]+/g, '-')
               .replace(/^-+|-+$/g, '')] *)
Definition artistSlug (artistName : string) : string :=
  JS.dropTrailing "-"
    (JS.dropLeading "-"
       (JS.replaceRuns isSlugChar "-" false (JS.toLowerCase artistName))).

(** Get glow colour for a position (the next row's primary); [None] is
    the [TypeError] of an [undefined] zone. *)
Definition getGlowColor (row : Z) : option string :=
  let nextRow := Z.min (row + 1) (Z.of_nat (List.length ROW_COLOR_ZONES) - 1) in
  option_map primary (zoneAt nextRow).

(** Create a dot id from grid position; a missing [prefix] is [None] and
    an empty one is as good as missing. *)
Definition createDotId (row col : Z) (prefix : option string) : string :=
  if JS.truthy prefix then
    default "" prefix ++ "-" ++ JS.numberToString (Some row)
      ++ "-" ++ JS.numberToString (Some col)
  else JS.numberToString (Some row) ++ "-" ++ JS.numberToString (Some col).

(** The result of [parseDotId]; [parsedPrefix = None] is a result without
    a [prefix] field. *)
Record ParsedDotId := {
  parsedRow : JS.number;
  parsedCol : JS.number;
  parsedPrefix : option string;
}.

(** Parse a dot id back to grid position. *)
Definition parseDotId (id : string) : ParsedDotId :=
  let parts := JS.split "-" id in
  if (JS.arrayLength parts =? 2)%Z then
    {| parsedRow := JS.parseIntArg (JS.index parts 0);
       parsedCol := JS.parseIntArg (JS.index parts 1);
       parsedPrefix := None |}
  else
    {| parsedRow := JS.parseIntArg (JS.index parts 1);
       parsedCol := JS.parseIntArg (JS.index parts 2);
       parsedPrefix := JS.index parts 0 |}.

(** [a ?? b] *)
Definition orDefault {A : Type} (a : option A) (b : A) : A :=
  match a with
  | Some v => v
  | None => b
  end.

(** Create a dot with minimal input. [now] is the reading of the clock
    by [new Date()]; [None] is the [TypeError] of the colour functions on
    a negative row. *)
Definition createDot (input : Dot.DotEntityInput) (now : Dot.Date)
    : option Dot.DotEntity :=
  let id := Dot.inputId input in
  let gridPosition := Dot.inputGridPosition input in
  let content := Dot.inputContent input in
  let color := Dot.inputColor input in
  let value := orDefault (Dot.inputValue input) 1%float in
  let row := Vector2D.row gridPosition in
  let col := Vector2D.col gridPosition in
  match getPositionColor row (JS.ofZ col) defaultTotalCols with
  | None => None
  | Some baseColor =>
      match getGlowColor row with
      | None => None
      | Some glowColor =>
          let colorState :=
            {| Dot.base :=
                 orDefault (c ← color; Dot.baseOpt c) baseColor;
               Dot.hover :=
                 orDefault (c ← color; Dot.hoverOpt c) PALETTE.warmIvory;
               Dot.glow :=
                 orDefault (c ← color; Dot.glowOpt c) glowColor;
               Dot.current :=
                 orDefault (c ← color; Dot.currentOpt c) baseColor |} in
          let worldPosition :=
            @Vector2D.gridToWorld float Vector2D.binary64
              {| Vector2D.row := JS.ofZ row; Vector2D.col := JS.ofZ col |}
              1%float 0%float in
          Some {| Dot.id := id;
                  Dot.gridPosition := gridPosition;
                  Dot.worldPosition := worldPosition;
                  Dot.targetPosition := worldPosition;
                  Dot.color := colorState;
                  Dot.visual := Dot.DOT_DEFAULTS.visual;
                  Dot.physics := Dot.DOT_DEFAULTS.physics;
                  Dot.state := Dot.idle;
                  Dot.previousState := Dot.idle;
                  Dot.content := content;
                  Dot.collection :=
                    {| Dot.collectible :=
                         match content with Some _ => true | None => false end;
                       Dot.collectedBy :=
                         Dot.collectedBy Dot.DOT_DEFAULTS.collection;
                       Dot.collectedAt :=
                         Dot.collectedAt Dot.DOT_DEFAULTS.collection;
                       Dot.source := Dot.source Dot.DOT_DEFAULTS.collection;
                       Dot.value := value |};
                  Dot.createdAt := now;
                  Dot.lastInteraction := None |}
      end
  end.

(** The [options] of [createGridDot]. *)
Record GridDotOptions := {
  optPrefix : option string;
  optType : option Dot.ContentType;
  optUrl : option string;
}.

(** Create a dot for grid content; [options = None] is a missing
    argument. *)
Definition createGridDot (row col : Z) (contentKey : string)
    (options : option GridDotOptions) (now : Dot.Date)
    : option Dot.DotEntity :=
  let prefix := o ← options; optPrefix o in
  let type := orDefault (o ← options; optType o) Dot.navigation in
  let url := o ← options; optUrl o in
  let id := createDotId row col prefix in
  let content :=
    {| Dot.key := contentKey; Dot.label := contentKey;
       Dot.type := type; Dot.url := url |} in
  createDot
    {| Dot.inputId := id;
       Dot.inputGridPosition := {| Vector2D.row := row; Vector2D.col := col |};
       Dot.inputContent := Some content;
       Dot.inputColor := None;
       Dot.inputValue := None |} now.

(** The artist records the factory reads. *)
Record Artist := {
  artistName : string;
  slug : string;
  isSpecialLink : bool;
  linkType : option string;
  url : option string;
}.

(** Create a dot for an artist. *)
Definition createArtistDot (row col : Z) (artist : Artist) (now : Dot.Date)
    : option Dot.DotEntity :=
  let id := slug artist in
  if isSpecialLink artist then
    let content :=
      {| Dot.key := slug artist; Dot.label := artistName artist;
         Dot.type := Dot.special; Dot.url := url artist |} in
    createDot
      {| Dot.inputId := id;
         Dot.inputGridPosition :=
           {| Vector2D.row := row; Vector2D.col := col |};
         Dot.inputContent := Some content;
         Dot.inputColor := None;
         Dot.inputValue := Some 2%float |} now
  else
    let artistSlug := artistSlug (artistName artist) in
    let content :=
      {| Dot.key := slug artist; Dot.label := artistName artist;
         Dot.type := Dot.artist;
         Dot.url := Some ("/events/ancient-technology/" ++ artistSlug) |} in
    createDot
      {| Dot.inputId := id;
         Dot.inputGridPosition :=
           {| Vector2D.row := row; Vector2D.col := col |};
         Dot.inputContent := Some content;
         Dot.inputColor := None;
         Dot.inputValue := Some 5%float |} now.

(** Create an empty dot (no content, not collectible). *)
Definition createEmptyDot (row col : Z) (prefix : option string)
    (now : Dot.Date) : option Dot.DotEntity :=
  let id := createDotId row col prefix in
  createDot
    {| Dot.inputId := id;
       Dot.inputGridPosition := {| Vector2D.row := row; Vector2D.col := col |};
       Dot.inputContent := None;
       Dot.inputColor := None;
       Dot.inputValue := Some 0%float |} now.

(** [xs.map((x, i) => f(x, i))] for an [f] that may throw: the elements
    are visited in order, from index [i]. *)
Fixpoint mapIndexed {A B : Type} (f : A -> Z -> option B) (i : Z)
    (xs : list A) : option (list B) :=
  match xs with
  | [] => Some []
  | x :: xs' =>
      match f x i with
      | None => None
      | Some y =>
          match mapIndexed f (i + 1) xs' with
          | None => None
          | Some ys => Some (y :: ys)
          end
      end
  end.

(** The [options] of [createDotGrid]. *)
Record DotGridOptions := {
  gridRowOffset : option Z;
  gridPrefix : option string;
  gridContentType : option Dot.ContentType;
}.

(** Create a full grid of dots from content arrays. A cell is a string,
    or [None] for [null]; [now rowIndex colIndex] is the clock read while
    that cell is created. *)
Definition createDotGrid (gridContent : list (list (option string)))
    (options : option DotGridOptions) (now : Z -> Z -> Dot.Date)
    : option (list (list Dot.DotEntity)) :=
  let rowOffset := orDefault (o ← options; gridRowOffset o) 0%Z in
  let prefix := o ← options; gridPrefix o in
  let contentType :=
    orDefault (o ← options; gridContentType o) Dot.navigation in
  mapIndexed (fun row rowIndex =>
    mapIndexed (fun content colIndex =>
      if negb (JS.truthy content) then
        createEmptyDot (rowIndex + rowOffset) colIndex prefix
          (now rowIndex colIndex)
      else
        createGridDot (rowIndex + rowOffset) colIndex (default "" content)
          (Some {| optPrefix := prefix; optType := Some contentType;
                   optUrl := None |})
          (now rowIndex colIndex))
      0%Z row)
    0%Z gridContent.

(** One turn of the [forEach] of [createArtistGrid] on the pair
    [(rows, currentRow)]. With [cols = 0] the row index is [NaN] and the
    colour functions raise; otherwise [Math.floor(index / cols)] is the
    floor quotient and [index % cols] the remainder with the sign of
    [index]. *)
Definition artistGridStep (cols : Z) (now : Z -> Dot.Date)
    (acc : list (list Dot.DotEntity) * list Dot.DotEntity)
    (artist : Artist) (index : Z)
    : option (list (list Dot.DotEntity) * list Dot.DotEntity) :=
  if (cols =? 0)%Z then None
  else
    let row := (index / cols)%Z in
    let col := Z.rem index cols in
    let '(rows, currentRow) :=
      if (col =? 0)%Z && negb (index =? 0)%Z
      then (fst acc ++ [snd acc], [])%list
      else acc in
    match createArtistDot row col artist (now index) with
    | None => None
    | Some dot => Some (rows, currentRow ++ [dot])%list
    end.

Fixpoint artistGridLoop (cols : Z) (now : Z -> Dot.Date)
    (acc : list (list Dot.DotEntity) * list Dot.DotEntity)
    (index : Z) (artists : list Artist)
    : option (list (list Dot.DotEntity) * list Dot.DotEntity) :=
  match artists with
  | [] => Some acc
  | artist :: artists' =>
      match artistGridStep cols now acc artist index with
      | None => None
      | Some acc' => artistGridLoop cols now acc' (index + 1) artists'
      end
  end.

(** Create artist grid from a flat list of artists. *)
Definition createArtistGrid (artists : list Artist) (cols : Z)
    (now : Z -> Dot.Date) : option (list (list Dot.DotEntity)) :=
  match artistGridLoop cols now ([], []) 0 artists with
  | None => None
  | Some (rows, currentRow) =>
      if (0 <? JS.arrayLengthOf currentRow)%Z
      then Some (rows ++ [currentRow])%list
      else Some rows
  end.

(** Update dot state (returns new instance). *)
Definition updateDotState (dot : Dot.DotEntity) (newState : Dot.DotState)
    (now : Dot.Date) : Dot.DotEntity :=
  {| Dot.id := Dot.id dot;
     Dot.gridPosition := Dot.gridPosition dot;
     Dot.worldPosition := Dot.worldPosition dot;
     Dot.targetPosition := Dot.targetPosition dot;
     Dot.color := Dot.color dot;
     Dot.visual := Dot.visual dot;
     Dot.physics := Dot.physics dot;
     Dot.state := newState;
     Dot.previousState := Dot.state dot;
     Dot.content := Dot.content dot;
     Dot.collection := Dot.collection dot;
     Dot.createdAt := Dot.createdAt dot;
     Dot.lastInteraction := Some now |}.

(** Update dot visual properties (returns new instance). *)
Definition updateDotVisual (dot : Dot.DotEntity) (visual : Dot.PartialVisual)
    : Dot.DotEntity :=
  {| Dot.id := Dot.id dot;
     Dot.gridPosition := Dot.gridPosition dot;
     Dot.worldPosition := Dot.worldPosition dot;
     Dot.targetPosition := Dot.targetPosition dot;
     Dot.color := Dot.color dot;
     Dot.visual :=
       {| Dot.scale :=
            orDefault (Dot.scaleOpt visual) (Dot.scale (Dot.visual dot));
          Dot.opacity :=
            orDefault (Dot.opacityOpt visual) (Dot.opacity (Dot.visual dot));
          Dot.rotation :=
            orDefault (Dot.rotationOpt visual)
                      (Dot.rotation (Dot.visual dot));
          Dot.glowIntensity :=
            orDefault (Dot.glowIntensityOpt visual)
                      (Dot.glowIntensity (Dot.visual dot)) |};
     Dot.physics := Dot.physics dot;
     Dot.state := Dot.state dot;
     Dot.previousState := Dot.previousState dot;
     Dot.content := Dot.content dot;
     Dot.collection := Dot.collection dot;
     Dot.createdAt := Dot.createdAt dot;
     Dot.lastInteraction := Dot.lastInteraction dot |}.

(** Mark a dot as collected (returns new instance). *)
Definition collectDot (dot : Dot.DotEntity) (sessionId : string)
    (source : option Dot.CollectionSource) (now : Dot.Date)
    : Dot.DotEntity :=
  {| Dot.id := Dot.id dot;
     Dot.gridPosition := Dot.gridPosition dot;
     Dot.worldPosition := Dot.worldPosition dot;
     Dot.targetPosition := Dot.targetPosition dot;
     Dot.color := Dot.color dot;
     Dot.visual := Dot.visual dot;
     Dot.physics := Dot.physics dot;
     Dot.state := Dot.collected;
     Dot.previousState := Dot.state dot;
     Dot.content := Dot.content dot;
     Dot.collection :=
       {| Dot.collectible := Dot.collectible (Dot.collection dot);
          Dot.collectedBy := Some sessionId;
          Dot.collectedAt := Some now;
          Dot.source := source;
          Dot.value := Dot.value (Dot.collection dot) |};
     Dot.createdAt := Dot.createdAt dot;
     Dot.lastInteraction := Dot.lastInteraction dot |}.

(** Flatten a dot grid to a single array. *)
Definition flattenDotGrid (grid : list (list Dot.DotEntity))
    : list Dot.DotEntity :=
  concat grid.

(** The inner loop of [findDotById]. *)
Fixpoint findDotInRow (row : list Dot.DotEntity) (id : string)
    : option Dot.DotEntity :=
  match row with
  | [] => None
  | dot :: row' =>
      if String.eqb (Dot.id dot) id then Some dot else findDotInRow row' id
  end.

(** Find a dot by id in a grid; [None] is [null]. *)
Fixpoint findDotById (grid : list (list Dot.DotEntity)) (id : string)
    : option Dot.DotEntity :=
  match grid with
  | [] => None
  | row :: grid' =>
      match findDotInRow row id with
      | Some dot => Some dot
      | None => findDotById grid' id
      end
  end.

End DotFactory.

(* ===================================================================== *)
(** * hooks/useDotGrid.ts: the interaction state machine                  *)
(* ===================================================================== *)

Module UseDotGrid.

(** ** Configuration and data *)

Record GridConfig := {
  cols : Z;
  inactivityTimeout : Z;
  rippleInterval : Z;
  randomInterval : Z;
  randomCount : Z;
  enableMouseTracking : bool;
}.

Definition DEFAULT_CONFIG : GridConfig := {|
  cols := 5;
  inactivityTimeout := 5000;
  rippleInterval := 200;
  randomInterval := 200;
  randomCount := 25;
  enableMouseTracking := false;
|}.

(** [isSpecialLink?: boolean] is only tested for truthiness: a missing
    field is [false]. *)
Record ArtistData := {
  artistName : string;
  slug : string;
  isSpecialLink : bool;
  linkType : option string;
  url : option string;
}.

(** [GridPosition] of [entities/types], with integer coordinates. *)
Definition GridPosition : Type := Vector2D.GridPosition Z.

(** ** The hook instance

    [State] holds the [useState] cells: a callback reads them through the
    constants of the render that created it. [Refs] holds the [useRef]
    cells, read and written in place. [Env] is the part of the browser
    the hook acts on: the armed timers of the event loop and the
    navigation requests made so far. *)

Record State := {
  hoveredDot : option string;
  selectedDot : option string;
  selectedContent : option string;
  rippleDot : option string;
  randomDot : option string;
  gridMousePosition : option GridPosition;
  isContentExpanded : bool;
}.

(** What an armed timer will run. [InactivityElapsed sel] is the arrow
    function created by [resetInactivityTimer]: it calls the
    [runRippleAnimation] / [runRandomDotAnimation] of the same render,
    whose [selectedDot] constant is [sel]. [RandomPick] is the anonymous
    100 ms timeout created by every random step. *)
Inductive callback :=
| InactivityElapsed (sel : option string)
| RippleStep
| RandomStep
| RandomPick.

Record timer := {
  handle : positive;
  repeats : bool;          (* [setInterval] rather than [setTimeout] *)
  delay : Z;
  action : callback;
}.

Record Refs := {
  inactivityTimer : option positive;
  rippleIntervalRef : option positive;
  randomIntervalRef : option positive;
  isAnimatingRef : bool;
  usedDotsRef : gset string;
  animationCountRef : Z;
}.

Inductive navigation :=
| RouterPush (path : string)
| WindowOpen (target : string).

Record Env := {
  timers : list timer;
  nextHandle : positive;
  navigations : list navigation;
}.

Record Hook := { state : State; refs : Refs; env : Env }.

(** Sequencing of state transformers, in program order. *)
Notation "f ;; g" := (fun st : Hook => g (f st))
  (at level 100, g at level 200, right associativity).

Definition skip : Hook -> Hook := fun st => st.

(** *** [useState] setters *)

Definition withState (f : State -> State) : Hook -> Hook :=
  fun st => {| state := f (state st); refs := refs st; env := env st |}.
Definition withRefs (f : Refs -> Refs) : Hook -> Hook :=
  fun st => {| state := state st; refs := f (refs st); env := env st |}.
Definition withEnv (f : Env -> Env) : Hook -> Hook :=
  fun st => {| state := state st; refs := refs st; env := f (env st) |}.

Definition setHoveredDot (v : option string) := withState (fun s =>
  {| hoveredDot := v; selectedDot := selectedDot s;
     selectedContent := selectedContent s; rippleDot := rippleDot s;
     randomDot := randomDot s; gridMousePosition := gridMousePosition s;
     isContentExpanded := isContentExpanded s |}).
Definition setSelectedDot (v : option string) := withState (fun s =>
  {| hoveredDot := hoveredDot s; selectedDot := v;
     selectedContent := selectedContent s; rippleDot := rippleDot s;
     randomDot := randomDot s; gridMousePosition := gridMousePosition s;
     isContentExpanded := isContentExpanded s |}).
Definition setSelectedContent (v : option string) := withState (fun s =>
  {| hoveredDot := hoveredDot s; selectedDot := selectedDot s;
     selectedContent := v; rippleDot := rippleDot s;
     randomDot := randomDot s; gridMousePosition := gridMousePosition s;
     isContentExpanded := isContentExpanded s |}).
Definition setRippleDot (v : option string) := withState (fun s =>
  {| hoveredDot := hoveredDot s; selectedDot := selectedDot s;
     selectedContent := selectedContent s; rippleDot := v;
     randomDot := randomDot s; gridMousePosition := gridMousePosition s;
     isContentExpanded := isContentExpanded s |}).
Definition setRandomDot (v : option string) := withState (fun s =>
  {| hoveredDot := hoveredDot s; selectedDot := selectedDot s;
     selectedContent := selectedContent s; rippleDot := rippleDot s;
     randomDot := v; gridMousePosition := gridMousePosition s;
     isContentExpanded := isContentExpanded s |}).
Definition setGridMousePosition (v : option GridPosition) :=
  withState (fun s =>
  {| hoveredDot := hoveredDot s; selectedDot := selectedDot s;
     selectedContent := selectedContent s; rippleDot := rippleDot s;
     randomDot := randomDot s; gridMousePosition := v;
     isContentExpanded := isContentExpanded s |}).
Definition setIsContentExpanded (v : bool) := withState (fun s =>
  {| hoveredDot := hoveredDot s; selectedDot := selectedDot s;
     selectedContent := selectedContent s; rippleDot := rippleDot s;
     randomDot := randomDot s; gridMousePosition := gridMousePosition s;
     isContentExpanded := v |}).

(** *** Assignments to [ref.current] *)

Definition setInactivityTimer (v : option positive) := withRefs (fun r =>
  {| inactivityTimer := v; rippleIntervalRef := rippleIntervalRef r;
     randomIntervalRef := randomIntervalRef r;
     isAnimatingRef := isAnimatingRef r; usedDotsRef := usedDotsRef r;
     animationCountRef := animationCountRef r |}).
Definition setRippleIntervalRef (v : option positive) := withRefs (fun r =>
  {| inactivityTimer := inactivityTimer r; rippleIntervalRef := v;
     randomIntervalRef := randomIntervalRef r;
     isAnimatingRef := isAnimatingRef r; usedDotsRef := usedDotsRef r;
     animationCountRef := animationCountRef r |}).
Definition setRandomIntervalRef (v : option positive) := withRefs (fun r =>
  {| inactivityTimer := inactivityTimer r;
     rippleIntervalRef := rippleIntervalRef r; randomIntervalRef := v;
     isAnimatingRef := isAnimatingRef r; usedDotsRef := usedDotsRef r;
     animationCountRef := animationCountRef r |}).
Definition setIsAnimatingRef (v : bool) := withRefs (fun r =>
  {| inactivityTimer := inactivityTimer r;
     rippleIntervalRef := rippleIntervalRef r;
     randomIntervalRef := randomIntervalRef r;
     isAnimatingRef := v; usedDotsRef := usedDotsRef r;
     animationCountRef := animationCountRef r |}).
Definition setUsedDotsRef (v : gset string) := withRefs (fun r =>
  {| inactivityTimer := inactivityTimer r;
     rippleIntervalRef := rippleIntervalRef r;
     randomIntervalRef := randomIntervalRef r;
     isAnimatingRef := isAnimatingRef r; usedDotsRef := v;
     animationCountRef := animationCountRef r |}).
Definition setAnimationCountRef (v : Z) := withRefs (fun r =>
  {| inactivityTimer := inactivityTimer r;
     rippleIntervalRef := rippleIntervalRef r;
     randomIntervalRef := randomIntervalRef r;
     isAnimatingRef := isAnimatingRef r; usedDotsRef := usedDotsRef r;
     animationCountRef := v |}).

(** *** The browser: timers and navigation *)

Definition setTimers (v : list timer) := withEnv (fun e =>
  {| timers := v; nextHandle := nextHandle e;
     navigations := navigations e |}).

(** Arms a timer and returns its fresh handle. *)
Definition arm (rep : bool) (cb : callback) (ms : Z) (st : Hook)
    : positive * Hook :=
  let h := nextHandle (env st) in
  (h, withEnv (fun e =>
        {| timers := timers e ++
             [{| handle := h; repeats := rep; delay := ms; action := cb |}];
           nextHandle := Pos.succ h;
           navigations := navigations e |}) st).

Definition setTimeout := arm false.
Definition setInterval := arm true.

(** [clearTimeout(h)] / [clearInterval(h)]: the timer never fires again;
    a handle that is not armed is ignored. *)
Definition clearTimer (h : positive) : Hook -> Hook :=
  fun st => setTimers
    (List.filter (fun t => negb (Pos.eqb (handle t) h)) (timers (env st)))
    st.
Definition clearTimeout := clearTimer.
Definition clearInterval := clearTimer.

Definition navigate (n : navigation) := withEnv (fun e =>
  {| timers := timers e; nextHandle := nextHandle e;
     navigations := navigations e ++ [n] |}).

(** Every armed timer has a handle already allocated. *)
Definition handlesFresh (st : Hook) : Prop :=
  Forall (fun t => (handle t < nextHandle (env st))%positive)
         (timers (env st)).

(** ** Animation functions *)

Section WithConfig.

Variable config : GridConfig.

(** One step of the ripple walk. *)
Definition getNextRipplePosition (current : option string)
    : option string :=
  if negb (JS.truthy current) then Some "0-0"
  else
    let parts := JS.split "-" (default "" current) in
    let row := JS.parseIntArg
      (JS.orElse (JS.index parts (JS.arrayLength parts - 2))
                 (JS.index parts 0)) in
    let col := JS.parseIntArg (JS.index parts (JS.arrayLength parts - 1)) in
    if JS.strictEq col (Some (cols config - 1)) then
      if JS.strictEq row (Some 4) then None
      else Some (JS.numberToString (JS.plus row (Some 1)) ++ "-0")
    else
      Some (JS.numberToString row ++ "-"
            ++ JS.numberToString (JS.plus col (Some 1))).

(** The template literal [`${i}-${j}`]. *)
Definition dotId (i j : Z) : string :=
  JS.numberToString (Some i) ++ "-" ++ JS.numberToString (Some j).

(** Values taken by [k] in [for (let k = 0; k < n; k++)]. *)
Definition upto (n : Z) : list Z := map Z.of_nat (seq 0 (Z.to_nat n)).

(** The array [allDotIds] built by the two nested loops. *)
Definition unusedDotIds (used : gset string) : list string :=
  flat_map (fun i =>
    flat_map (fun j =>
      let id := dotId i j in
      if bool_decide (id ∈ used) then [] else [id])
      (upto (cols config)))
    (upto 5).

(** [Math.floor(r * n)] for a draw [r] of [Math.random()]. *)
Definition randomIndex (r : Q) (n : Z) : Z := Qfloor (r * inject_Z n).

(** [usedDotsRef.current.add(selected)]; adding [undefined] leaves the
    strings of the set unchanged. *)
Definition usedDotsAdd (selected : option string) : Hook -> Hook :=
  fun st =>
    match selected with
    | Some id => setUsedDotsRef ({[ id ]} ∪ usedDotsRef (refs st)) st
    | None => st
    end.

(** [getRandomUnusedDot()]. [r] is the value [Math.random()] returns in
    the call that selects; [fuel] bounds the depth of the recursion and
    [None] tells that it was exceeded. The result [None] inside [Some]
    is [undefined], the element read past the end of [allDotIds]. *)
Fixpoint getRandomUnusedDot (fuel : nat) (r : Q) (st : Hook)
    : option (option string * Hook) :=
  match fuel with
  | O => None
  | S fuel' =>
      let allDotIds := unusedDotIds (usedDotsRef (refs st)) in
      if (JS.arrayLength allDotIds =? 0)%Z then
        getRandomUnusedDot fuel' r (setUsedDotsRef ∅ st)
      else
        let selected :=
          JS.index allDotIds (randomIndex r (JS.arrayLength allDotIds)) in
        Some (selected, usedDotsAdd selected st)
  end.

(** The ids of the 5 x [cols] cells, in the order of the two loops. *)
Definition validDotIds : list string :=
  flat_map (fun i => map (fun j => dotId i j) (upto (cols config))) (upto 5).

(** Successive calls of [getRandomUnusedDot], one per draw: the ids
    returned, in order, and the hook after the last call. *)
Fixpoint randomPicks (fuel : nat) (draws : list Q) (st : Hook)
    : option (list (option string) * Hook) :=
  match draws with
  | [] => Some ([], st)
  | r :: draws' =>
      '(pick, st1) ← getRandomUnusedDot fuel r st;
      '(picks, st2) ← randomPicks fuel draws' st1;
      Some (pick :: picks, st2)
  end.

(** [if (ref.current) { clearInterval(ref.current); ref.current = null }] *)
Definition disarm (ref : Refs -> option positive)
    (setRef : option positive -> Hook -> Hook) : Hook -> Hook :=
  fun st =>
    match ref (refs st) with
    | Some h => (clearTimer h ;; setRef None) st
    | None => st
    end.

Definition clearAllAnimations : Hook -> Hook :=
  disarm rippleIntervalRef setRippleIntervalRef ;;
  disarm randomIntervalRef setRandomIntervalRef ;;
  disarm inactivityTimer setInactivityTimer ;;
  setRippleDot None ;;
  setRandomDot None ;;
  setIsAnimatingRef false.

(** The interval callback of [runRippleAnimation]; the updater passed
    to [setRippleDot] receives the current [rippleDot]. *)
Definition rippleStep : Hook -> Hook :=
  fun st =>
    let next := getNextRipplePosition (rippleDot (state st)) in
    ((if negb (JS.truthy next) then
        disarm rippleIntervalRef setRippleIntervalRef ;;
        setRippleDot None ;;
        setIsAnimatingRef false
      else skip) ;;
     setRippleDot next) st.

(** [selectedDot] is the constant of the render in which the callback
    was created. *)
Definition runRippleAnimation (selectedDot : option string)
    : Hook -> Hook :=
  fun st =>
    if isAnimatingRef (refs st) || JS.truthy selectedDot then st
    else
      let st1 := (setIsAnimatingRef true ;; setRippleDot (Some "0-0")) st in
      let '(h, st2) := setInterval RippleStep (rippleInterval config) st1 in
      setRippleIntervalRef (Some h) st2.

(** The id of the [k]-th cell in row-major order. *)
Definition rippleCell (k : Z) : string :=
  dotId (k / cols config) (k mod cols config).

(** The hook once [runRippleAnimation] has armed its interval on [st],
    with [dot] as the dot the ripple is on. *)
Definition rippling (st : Hook) (dot : option string) : Hook :=
  let st1 := (setIsAnimatingRef true ;; setRippleDot dot) st in
  let '(h, st2) := setInterval RippleStep (rippleInterval config) st1 in
  setRippleIntervalRef (Some h) st2.

Definition incrAnimationCount : Hook -> Hook :=
  fun st => setAnimationCountRef (animationCountRef (refs st) + 1) st.

(** The 100 ms timeout armed by every random step. *)
Definition randomPick (fuel : nat) (r : Q) (st : Hook) : option Hook :=
  '(next, st1) ← getRandomUnusedDot fuel r st;
  Some ((setRandomDot next ;; incrAnimationCount) st1).

(** The interval callback of [runRandomDotAnimation]. The handle of the
    inner timeout is not kept. *)
Definition randomStep : Hook -> Hook :=
  fun st =>
    if (animationCountRef (refs st) >=? randomCount config)%Z then
      (disarm randomIntervalRef setRandomIntervalRef ;;
       setRandomDot None ;;
       setIsAnimatingRef false ;;
       setUsedDotsRef ∅) st
    else
      snd (setTimeout RandomPick 100 (setRandomDot None st)).

Definition runRandomDotAnimation (fuel : nat) (r : Q)
    (selectedDot : option string) (st : Hook) : option Hook :=
  if isAnimatingRef (refs st) || JS.truthy selectedDot then Some st
  else
    let st1 := (setIsAnimatingRef true ;; setAnimationCountRef 0) st in
    '(nextDot, st2) ← getRandomUnusedDot fuel r st1;
    let st3 := (setRandomDot nextDot ;; incrAnimationCount) st2 in
    let '(h, st4) := setInterval RandomStep (randomInterval config) st3 in
    Some (setRandomIntervalRef (Some h) st4).

(** The timeout callback of [resetInactivityTimer]: [r] is the draw
    compared with 0.5, [r'] the one a random pick may consume. *)
Definition inactivityElapsed (fuel : nat) (r r' : Q)
    (selectedDot : option string) (st : Hook) : option Hook :=
  if Qlt_le_dec r (1 # 2) then Some (runRippleAnimation selectedDot st)
  else runRandomDotAnimation fuel r' selectedDot st.

(** [selectedDot] is again the constant of the creating render; a
    cleared handle stays in the ref. *)
Definition resetInactivityTimer (selectedDot : option string)
    : Hook -> Hook :=
  fun st =>
    let st1 :=
      match inactivityTimer (refs st) with
      | Some h => clearTimeout h st
      | None => st
      end in
    if negb (isAnimatingRef (refs st1)) && negb (JS.truthy selectedDot)
    then
      let '(h, st2) :=
        setTimeout (InactivityElapsed selectedDot)
                   (inactivityTimeout config) st1 in
      setInactivityTimer (Some h) st2
    else st1.

(** [a === b] for [a : string | null | undefined] and a string [b]. *)
Definition isDot (a : option string) (b : string) : bool :=
  match a with
  | Some s => String.eqb s b
  | None => false
  end.

(** ** Event handlers

    Each handler takes the [State] of the render that created it, for
    the state constants its closure reads. *)

Definition handleDotClick (dotId contentKey : string) : Hook -> Hook :=
  clearAllAnimations ;;
  setSelectedDot (Some dotId) ;;
  setSelectedContent (Some contentKey).

Definition handleArtistDotClick (dotId : string) (artist : ArtistData)
    : Hook -> Hook :=
  clearAllAnimations ;;
  if isSpecialLink artist then
    if isDot (linkType artist) "subscribe" then
      navigate (RouterPush "/subscribe")
    else if isDot (linkType artist) "instagram" && JS.truthy (url artist)
    then navigate (WindowOpen (default "" (url artist)))
    else skip
  else
    let artistSlug := DotFactory.artistSlug (artistName artist) in
    navigate (RouterPush ("/events/ancient-technology/" ++ artistSlug)) ;;
    setSelectedDot (Some dotId) ;;
    setSelectedContent (Some artistSlug).

(** What clicking a special link asks of the browser: the navigation
    action of its [linkType], if it has one. *)
Definition linkAction (artist : ArtistData) : list navigation :=
  if isDot (linkType artist) "subscribe" then [RouterPush "/subscribe"]
  else if isDot (linkType artist) "instagram" && JS.truthy (url artist)
  then [WindowOpen (default "" (url artist))]
  else [].

Definition handleClose (render : State) : Hook -> Hook :=
  setSelectedDot None ;;
  setSelectedContent None ;;
  setIsContentExpanded false ;;
  navigate (RouterPush "/") ;;
  resetInactivityTimer (selectedDot render).

Definition handleBackgroundClick (render : State) : Hook -> Hook :=
  if JS.truthy (selectedContent render) then
    setSelectedDot None ;;
    setSelectedContent None ;;
    setIsContentExpanded false ;;
    navigate (RouterPush "/") ;;
    resetInactivityTimer (selectedDot render)
  else skip.

Definition handleGridMouseLeave : Hook -> Hook :=
  setGridMousePosition None.

(** ** The [open-grid-card] event *)

(** The first cell of [row] that is [key], scanning columns from [col]. *)
Fixpoint findInRow (key : string) (col : Z) (row : list (option string))
    : option Z :=
  match row with
  | [] => None
  | cell :: row' =>
      if isDot cell key then Some col else findInRow key (col + 1) row'
  end.

(** The first cell of the grid that is [key], in the order of the two
    loops, as the pair of its loop indices. *)
Fixpoint findInGrid (key : string) (row : Z)
    (content : list (list (option string))) : option (Z * Z) :=
  match content with
  | [] => None
  | cells :: content' =>
      match findInRow key 0 cells with
      | Some col => Some (row, col)
      | None => findInGrid key (row + 1) content'
      end
  end.

(** The listener of [open-grid-card]; [key] is [e.detail?.key] and
    [mainContent] is [data.mainContent]. *)
Definition handleOpenGridCard (mainContent : list (list (option string)))
    (key : option string) : Hook -> Hook :=
  if negb (JS.truthy key) then skip
  else if isDot key "Subscribe" then
    setSelectedDot (Some "subscribe") ;;
    setSelectedContent (Some "Subscribe")
  else
    match findInGrid (default "" key) 0 mainContent with
    | Some (row, col) =>
        setSelectedDot (Some (dotId row col)) ;;
        setSelectedContent key
    | None => skip
    end.

(** ** The dot entities of the three sub-grids *)

Definition toFactoryArtist (a : ArtistData) : DotFactory.Artist :=
  {| DotFactory.artistName := artistName a;
     DotFactory.slug := slug a;
     DotFactory.isSpecialLink := isSpecialLink a;
     DotFactory.linkType := linkType a;
     DotFactory.url := url a |}.

Definition subscribeDot : ArtistData :=
  {| artistName := "Subscribe";
     slug := "Subscribe";
     isSpecialLink := true;
     linkType := Some "subscribe";
     url := Some "/subscribe" |}.

(** [artistDots]: the first nine artists, then the Subscribe tile. *)
Definition artistDots (artists : list ArtistData) (now : Z -> Dot.Date)
    : option (list (list Dot.DotEntity)) :=
  let allArtists := (firstn 9 artists ++ [subscribeDot])%list in
  DotFactory.createArtistGrid (map toFactoryArtist allArtists)
    (cols config) now.

Definition mainDots (mainContent : list (list (option string)))
    (now : Z -> Z -> Dot.Date) : option (list (list Dot.DotEntity)) :=
  DotFactory.createDotGrid mainContent
    (Some {| DotFactory.gridRowOffset := Some 2%Z;
             DotFactory.gridPrefix := None;
             DotFactory.gridContentType := Some Dot.project |}) now.

Definition overflowDots (overflowContent : list (list (option string)))
    (now : Z -> Z -> Dot.Date) : option (list (list Dot.DotEntity)) :=
  DotFactory.createDotGrid overflowContent
    (Some {| DotFactory.gridRowOffset := Some 5%Z;
             DotFactory.gridPrefix := Some "overflow";
             DotFactory.gridContentType := Some Dot.project |}) now.

(** ** Utility functions *)

Record DotDisplayState := {
  isHovered : bool;
  isRippling : bool;
  isRandomlySelected : bool;
  isSelected : bool;
  isClickedDot : bool;
  shouldHide : bool;
}.

(** [innerWidth] is [window.innerWidth], or [None] where [window] is
    not defined. *)
Definition getDotDisplayState (render : State) (innerWidth : option Z)
    (dotId : string) : DotDisplayState :=
  let isHovered := isDot (hoveredDot render) dotId in
  let isRippling := isDot (rippleDot render) dotId in
  let isRandomlySelected := isDot (randomDot render) dotId in
  let isSelected :=
    match selectedDot render with Some _ => true | None => false end in
  let isClickedDot := isDot (selectedDot render) dotId in
  let isMobile :=
    match innerWidth with
    | Some w => (w <? 1024)%Z
    | None => false
    end in
  let shouldHide := isMobile && isSelected && negb isClickedDot in
  {| isHovered := isHovered;
     isRippling := isRippling;
     isRandomlySelected := isRandomlySelected;
     isSelected := isSelected;
     isClickedDot := isClickedDot;
     shouldHide := shouldHide |}.

(** The segment [parts[parts.length - 2] || parts[0]] of an array
    [pre ++ [a; b]]. *)
Definition rowSegment (pre : list string) (a b : string) : string :=
  match a with
  | EmptyString => hd a (pre ++ [a; b])%list
  | _ => a
  end.

(** [undefined] is [None]. *)
Definition getSelectedPosition (render : State) : option GridPosition :=
  if negb (JS.truthy (selectedDot render)) then None
  else
    let parts := JS.split "-" (default "" (selectedDot render)) in
    if (JS.arrayLength parts >=? 2)%Z then
      let row := JS.parseIntArg
        (JS.orElse (JS.index parts (JS.arrayLength parts - 2))
                   (JS.index parts 0)) in
      let col :=
        JS.parseIntArg (JS.index parts (JS.arrayLength parts - 1)) in
      match row, col with
      | Some r, Some c => Some {| Vector2D.row := r; Vector2D.col := c |}
      | _, _ => None
      end
    else None.

(** ** The mounted component as a transition system *)

(** First render and mount effects for [useDotGrid(data, initialSlug)]. *)
Definition initialState (artists : list ArtistData)
    (initialSlug : option string) : State :=
  {| hoveredDot := None;
     selectedDot := initialSlug;
     selectedContent :=
       if negb (JS.truthy initialSlug) then None
       else
         match find (fun a => String.eqb (slug a)
                  ("events-ancient-technology-" ++ default "" initialSlug))
                 artists with
         | Some _ => initialSlug
         | None => None
         end;
     rippleDot := None;
     randomDot := None;
     gridMousePosition := None;
     isContentExpanded := false |}.

Definition initialRefs : Refs :=
  {| inactivityTimer := None;
     rippleIntervalRef := None;
     randomIntervalRef := None;
     isAnimatingRef := false;
     usedDotsRef := ∅;
     animationCountRef := 0 |}.

Definition idleBrowser : Env :=
  {| timers := []; nextHandle := 1%positive; navigations := [] |}.

Definition mount (artists : list ArtistData) (initialSlug : option string)
    : Hook :=
  let st0 := {| state := initialState artists initialSlug;
                refs := initialRefs;
                env := idleBrowser |} in
  (resetInactivityTimer (selectedDot (state st0)) ;;
   if isDot initialSlug "subscribe" then
     setSelectedDot (Some "subscribe") ;;
     setSelectedContent (Some "subscribe") ;;
     setIsContentExpanded true
   else skip) st0.

(** What can happen to a mounted grid. A user event runs the handler
    of the latest render. [TimerFires h r r'] is the event loop running
    the callback of timer [h], with the draws [Math.random()] returns
    during the callback. *)
Inductive event :=
| DotClick (dotId contentKey : string)
| ArtistDotClick (dotId : string) (artist : ArtistData)
| BackgroundClick
| Close
| Hover (dotId : option string)
| MouseLeave
| Unmount
| TimerFires (h : positive) (r r' : Q).

Definition runCallback (fuel : nat) (r r' : Q) (cb : callback)
    (st : Hook) : option Hook :=
  match cb with
  | InactivityElapsed sel => inactivityElapsed fuel r r' sel st
  | RippleStep => Some (rippleStep st)
  | RandomStep => Some (randomStep st)
  | RandomPick => randomPick fuel r st
  end.

(** A timer that is not armed does not fire; a timeout is disarmed by
    firing. *)
Definition fire (fuel : nat) (h : positive) (r r' : Q) (st : Hook)
    : option Hook :=
  match find (fun t => Pos.eqb (handle t) h) (timers (env st)) with
  | None => Some st
  | Some t =>
      runCallback fuel r r' (action t)
        (if repeats t then st else clearTimer h st)
  end.

Definition step (fuel : nat) (e : event) (st : Hook) : option Hook :=
  match e with
  | DotClick dotId contentKey => Some (handleDotClick dotId contentKey st)
  | ArtistDotClick dotId artist =>
      Some (handleArtistDotClick dotId artist st)
  | BackgroundClick => Some (handleBackgroundClick (state st) st)
  | Close => Some (handleClose (state st) st)
  | Hover dotId => Some (setHoveredDot dotId st)
  | MouseLeave => Some (handleGridMouseLeave st)
  | Unmount => Some (clearAllAnimations st)
  | TimerFires h r r' => fire fuel h r r' st
  end.

Fixpoint run (fuel : nat) (es : list event) (st : Hook) : option Hook :=
  match es with
  | [] => Some st
  | e :: es' => st' ← step fuel e st; run fuel es' st'
  end.

End WithConfig.

End UseDotGrid.

(* ===================================================================== *)
(** * hooks/useDotProps.ts: the same derived state, from a grid context   *)
(* ===================================================================== *)

Module UseDotProps.

(** The fields of [DotGridContext] the two functions read; a missing
    [isMobile] is [false] under [!!]. *)
Record DotGridContext := {
  hoveredDot : option string;
  selectedDot : option string;
  rippleDot : option string;
  randomDot : option string;
  isMobile : bool;
}.

(** [id] is the [id] of the entity. *)
Definition getDotDisplayState (id : string) (context : DotGridContext)
    : UseDotGrid.DotDisplayState :=
  let isHovered := UseDotGrid.isDot (hoveredDot context) id in
  let isRippling := UseDotGrid.isDot (rippleDot context) id in
  let isRandomlySelected := UseDotGrid.isDot (randomDot context) id in
  let isSelected :=
    match selectedDot context with Some _ => true | None => false end in
  let isClickedDot := UseDotGrid.isDot (selectedDot context) id in
  let shouldHide := isMobile context && isSelected && negb isClickedDot in
  {| UseDotGrid.isHovered := isHovered;
     UseDotGrid.isRippling := isRippling;
     UseDotGrid.isRandomlySelected := isRandomlySelected;
     UseDotGrid.isSelected := isSelected;
     UseDotGrid.isClickedDot := isClickedDot;
     UseDotGrid.shouldHide := shouldHide |}.

(** The [selectedPosition] memo of [useDotProps]. *)
Definition selectedPosition (context : DotGridContext)
    : option UseDotGrid.GridPosition :=
  if negb (JS.truthy (selectedDot context)) then None
  else
    let parts := JS.split "-" (default "" (selectedDot context)) in
    if (JS.arrayLength parts >=? 2)%Z then
      let row := JS.parseIntArg (JS.index parts (JS.arrayLength parts - 2)) in
      let col := JS.parseIntArg (JS.index parts (JS.arrayLength parts - 1)) in
      match row, col with
      | Some r, Some c => Some {| Vector2D.row := r; Vector2D.col := c |}
      | _, _ => None
      end
    else None.

End UseDotProps.

(* ===================================================================== *)
(** * Vocabulary of the properties                                        *)
(* ===================================================================== *)

Import UseDotGrid.

(** Decimal digit strings, as [String(n)] writes a natural number. *)
Definition isDecimalDigit (c : ascii) : Prop :=
  In c ["0"; "1"; "2"; "3"; "4"; "5"; "6"; "7"; "8"; "9"]%char.

Fixpoint allDecimal (s : string) : Prop :=
  match s with
  | EmptyString => True
  | String c rest => isDecimalDigit c /\ allDecimal rest
  end.

(** A value [Math.random()] can return. *)
Definition unitDraw (r : Q) : Prop := (0 <= r)%Q /\ (r < 1)%Q.

(** The double nearest to 0.7, as JavaScript reads the literal [0.7]. *)
Definition cellSize07 : float := 0x1.6666666666666p-1%float.

(** [runsOk prev s]: every character of [s] is a lowercase letter, a
    digit or a hyphen, and no hyphen follows a hyphen; [prev] tells that
    the character before [s] is a hyphen (or that [s] starts the
    string). *)
Fixpoint runsOk (prev : bool) (s : string) : Prop :=
  match s with
  | EmptyString => True
  | String c rest =>
      if Ascii.eqb c "-" then prev = false /\ runsOk true rest
      else DotFactory.isSlugChar c = true /\ runsOk false rest
  end.

(** [slugShape prev s]: [runsOk prev s], and [s] does not end with a
    hyphen (nor is empty right after one). *)
Fixpoint slugShape (prev : bool) (s : string) : Prop :=
  match s with
  | EmptyString => prev = false
  | String c rest =>
      if Ascii.eqb c "-" then prev = false /\ slugShape true rest
      else DotFactory.isSlugChar c = true /\ slugShape false rest
  end.

(** A slug is empty, or made of runs of lowercase letters and digits
    separated by single hyphens. *)
Definition wellFormedSlug (s : string) : Prop :=
  s = "" \/ slugShape true s.

(** The context [useDotProps] is given by a component that renders the
    hook's state. *)
Definition contextOf (render : State) (isMobile : bool)
    : UseDotProps.DotGridContext :=
  {| UseDotProps.hoveredDot := hoveredDot render;
     UseDotProps.selectedDot := selectedDot render;
     UseDotProps.rippleDot := rippleDot render;
     UseDotProps.randomDot := randomDot render;
     UseDotProps.isMobile := isMobile |}.

(** [key] is at row [r], column [c] of [content], and at no cell the two
    loops visit before. *)
Definition firstOccurrence (content : list (list (option string)))
    (key : string) (r c : nat) : Prop :=
  (exists cells, nth_error content r = Some cells
                 /\ nth_error cells c = Some (Some key)
                 /\ forall c', (c' < c)%nat ->
                      nth_error cells c' <> Some (Some key))
  /\ forall r' cells', (r' < r)%nat -> nth_error content r' = Some cells' ->
       ~ In (Some key) cells'.

(** What [createDotGrid] puts in the cell at loop indices [r], [c] that
    holds [cell]. *)
Definition gridCell (rowOffset : Z) (prefix : option string) (r c : nat)
    (cell : option string) (dot : Dot.DotEntity) : Prop :=
  Dot.id dot = DotFactory.createDotId (Z.of_nat r + rowOffset) (Z.of_nat c) prefix
  /\ Dot.gridPosition dot
     = {| Vector2D.row := (Z.of_nat r + rowOffset)%Z;
          Vector2D.col := Z.of_nat c |}
  /\ option_map Dot.key (Dot.content dot)
     = (if JS.truthy cell then cell else None)
  /\ Dot.collectible (Dot.collection dot) = JS.truthy cell
  /\ Dot.state dot = Dot.idle.

(** The dots of the grid under construction, in the order of creation. *)
Definition dotsOf (acc : list (list Dot.DotEntity) * list Dot.DotEntity)
    : list Dot.DotEntity :=
  (concat (fst acc) ++ snd acc)%list.

(** The [k] dots created so far lie in full rows of [cols] dots and a
    current row that is empty only before the first dot. *)
Definition chunked (cols : Z) (k : nat)
    (acc : list (list Dot.DotEntity) * list Dot.DotEntity) : Prop :=
  List.length (dotsOf acc) = k
  /\ Forall (fun row => Z.of_nat (List.length row) = cols) (fst acc)
  /\ (Z.of_nat (List.length (snd acc)) <= cols)%Z
  /\ (k = 0%nat -> fst acc = [])
  /\ ((0 < k)%nat -> (0 < List.length (snd acc))%nat).

(** ** The slugging rule, in the words of the specification

    Lowercase; every run of non-alphanumeric characters becomes one
    hyphen; no hyphen at either end. That is: the maximal runs of
    alphanumeric characters of the lowercased name, joined by single
    hyphens. *)

Definition lowercase (c : ascii) : ascii :=
  let n := nat_of_ascii c in
  if ((65 <=? n) && (n <=? 90))%nat then ascii_of_nat (n + 32) else c.

Definition alphanumeric (c : ascii) : bool :=
  let n := nat_of_ascii c in
  ((97 <=? n) && (n <=? 122) || (48 <=? n) && (n <=? 57))%nat.

(** The pieces of [s] between characters that are not alphanumeric;
    a piece is empty where two such characters meet or at an end. *)
Fixpoint pieces (s : string) : list string :=
  match s with
  | EmptyString => [EmptyString]
  | String c rest =>
      if alphanumeric c then
        match pieces rest with
        | w :: ws => String c w :: ws
        | [] => [String c EmptyString]
        end
      else EmptyString :: pieces rest
  end.

Definition nonEmpty (w : string) : bool :=
  match w with
  | EmptyString => false
  | String _ _ => true
  end.

(** The maximal runs of alphanumeric characters of [s], in order. *)
Definition alphanumericRuns (s : string) : list string :=
  List.filter nonEmpty (pieces s).

Fixpoint joinHyphen (ws : list string) : string :=
  match ws with
  | [] => EmptyString
  | [w] => w
  | w :: ws' => String.append w (String "-" (joinHyphen ws'))
  end.

Fixpoint mapString (f : ascii -> ascii) (s : string) : string :=
  match s with
  | EmptyString => EmptyString
  | String c rest => String (f c) (mapString f rest)
  end.

Definition slugRule (name : string) : string :=
  joinHyphen (alphanumericRuns (mapString lowercase name)).

(** The word being read, then the runs that follow it. *)
Definition continued (s : string) : string :=
  match pieces s with
  | w :: ws =>
      match List.filter nonEmpty ws with
      | [] => w
      | ws' => String.append w (String "-" (joinHyphen ws'))
      end
  | [] => EmptyString
  end.

(** [x * y] is computed without rounding, [x] being finite and [y]
    finite and not zero: bringing the exact product of the two
    mantissas to the format shifts out zero bits only and the result
    does not overflow. *)
Definition exactProduct (x y : float) : bool :=
  match Prim2SF x, Prim2SF y with
  | S754_finite _ mx ex, S754_finite _ my ey =>
      let '(mrs, e) :=
        shr_fexp prec emax (Z.pos (mx * my)) (ex + ey) loc_Exact in
      match loc_of_shr_record mrs with
      | loc_Exact => (e <=? emax - prec)%Z
      | loc_Inexact _ => false
      end
  | S754_zero _, S754_finite _ _ _ => true
  | _, _ => false
  end.

(** What the refs and the selection say about an armed timer [t]: the
    inactivity timeout and the two intervals are the ones the refs hold;
    the 100 ms timeout of a random step is in no ref. *)
Definition timerOk (inactivity ripple random : option positive)
    (animating selected : bool) (t : timer) : Prop :=
  match action t with
  | InactivityElapsed sel =>
      inactivity = Some (handle t) /\ repeats t = false
      /\ JS.truthy sel = false /\ animating = false /\ selected = false
  | RippleStep =>
      ripple = Some (handle t) /\ repeats t = true /\ animating = true
  | RandomStep =>
      random = Some (handle t) /\ repeats t = true /\ animating = true
  | RandomPick =>
      repeats t = false /\ inactivity <> Some (handle t)
      /\ ripple <> Some (handle t) /\ random <> Some (handle t)
  end.

(** The invariant of the timers and refs of a mounted grid. *)
Definition consistent (st : Hook) : Prop :=
  List.NoDup (map handle (timers (env st)))
  /\ handlesFresh st
  /\ (forall h, In (Some h) [inactivityTimer (refs st);
                             rippleIntervalRef (refs st);
                             randomIntervalRef (refs st)] ->
                (h < nextHandle (env st))%positive)
  /\ Forall (timerOk (inactivityTimer (refs st)) (rippleIntervalRef (refs st))
               (randomIntervalRef (refs st)) (isAnimatingRef (refs st))
               (JS.truthy (selectedDot (state st))))
            (timers (env st))
  /\ (isAnimatingRef (refs st) = false ->
      rippleIntervalRef (refs st) = None
      /\ randomIntervalRef (refs st) = None)
  /\ (rippleIntervalRef (refs st) = None
      \/ randomIntervalRef (refs st) = None)
  /\ (rippleIntervalRef (refs st) = None -> rippleDot (state st) = None)
  /\ (JS.truthy (selectedDot (state st)) = true ->
      isAnimatingRef (refs st) = false).

(** The states of a grid mounted with [config], under the events of
    [event]: clicks, close, hover, unmount and timers that fire. *)
Definition reachable (config : GridConfig) (st : Hook) : Prop :=
  exists (artists : list ArtistData) (initialSlug : option string)
         (fuel : nat) (es : list event),
    run config fuel es (mount config artists initialSlug) = Some st.

(** The 100 ms timeout of a random step. *)
Definition isRandomPick (t : timer) : bool :=
  match action t with
  | RandomPick => negb (repeats t)
  | _ => false
  end.


Definition isInactivity (t : timer) : bool :=
  match action t with
  | InactivityElapsed _ => true
  | _ => false
  end.

(* ===================================================================== *)
(** * Properties                                                          *)
(* ===================================================================== *)

(** ** The derived display state *)

Lemma isDot_decide (a : option string) (dotId : string) :
  isDot a dotId = bool_decide (a = Some dotId).
Proof.
  destruct a as [s|]; unfold isDot.
  - destruct (String.eqb_spec s dotId) as [->|Hne]; symmetry.
    + now apply bool_decide_eq_true_2.
    + apply bool_decide_eq_false_2. congruence.
  - symmetry. now apply bool_decide_eq_false_2.
Qed.

(** C6. [getDotDisplayState] depends on the hook only through [hoveredDot],
    [selectedDot], [rippleDot], [randomDot] and the viewport width: two
    snapshots that agree on these give equal results for every dot id, and
    the six flags are the comparisons the specification lists. *)
Theorem getDotDisplayState_pure
    (render render' : State) (innerWidth innerWidth' : option Z)
    (dotId : string)
    (Hhovered : hoveredDot render = hoveredDot render')
    (Hselected : selectedDot render = selectedDot render')
    (Hripple : rippleDot render = rippleDot render')
    (Hrandom : randomDot render = randomDot render')
    (Hwidth : innerWidth = innerWidth') :
  getDotDisplayState render innerWidth dotId
  = getDotDisplayState render' innerWidth' dotId
  /\ let d := getDotDisplayState render innerWidth dotId in
     isHovered d = bool_decide (hoveredDot render = Some dotId)
     /\ isRippling d = bool_decide (rippleDot render = Some dotId)
     /\ isRandomlySelected d = bool_decide (randomDot render = Some dotId)
     /\ isSelected d = bool_decide (selectedDot render <> None)
     /\ isClickedDot d = bool_decide (selectedDot render = Some dotId)
     /\ shouldHide d
        = match innerWidth with
          | Some w => bool_decide (w < 1024)%Z
          | None => false
          end && isSelected d && negb (isClickedDot d).
Proof.
  split.
  - unfold getDotDisplayState.
    now rewrite Hhovered, Hselected, Hripple, Hrandom, Hwidth.
  - cbn -[bool_decide]. rewrite !isDot_decide.
    repeat split; try reflexivity.
    + destruct (selectedDot render); symmetry;
        [apply bool_decide_eq_true_2 | apply bool_decide_eq_false_2];
        congruence.
    + f_equal. f_equal. destruct innerWidth as [w|]; [|reflexivity].
      destruct (Z.ltb_spec w 1024); symmetry;
        [apply bool_decide_eq_true_2 | apply bool_decide_eq_false_2]; lia.
Qed.

Lemma getDotDisplayState_pure_witness :
  let render :=
    {| hoveredDot := Some "1-2"; selectedDot := Some "0-0";
       selectedContent := Some "About"; rippleDot := None;
       randomDot := None; gridMousePosition := None;
       isContentExpanded := false |} in
  let render' :=
    {| hoveredDot := Some "1-2"; selectedDot := Some "0-0";
       selectedContent := None; rippleDot := None;
       randomDot := None;
       gridMousePosition := Some {| Vector2D.row := 3; Vector2D.col := 1 |};
       isContentExpanded := true |} in
  getDotDisplayState render (Some 800) "1-2"
  = getDotDisplayState render' (Some 800) "1-2"
  /\ shouldHide (getDotDisplayState render (Some 800) "1-2") = true.
Proof.
  intros render render'.
  destruct (getDotDisplayState_pure render render' (Some 800) (Some 800)
              "1-2" eq_refl eq_refl eq_refl eq_refl eq_refl) as [Heq _].
  split; [exact Heq | reflexivity].
Defined.

(** The function of [useDotProps.ts] computes the same flags from a grid
    context whose [isMobile] is the narrow-viewport test. *)
Lemma useDotProps_getDotDisplayState_agrees
    (render : State) (innerWidth : Z) (id : string) :
  UseDotProps.getDotDisplayState id
    {| UseDotProps.hoveredDot := hoveredDot render;
       UseDotProps.selectedDot := selectedDot render;
       UseDotProps.rippleDot := rippleDot render;
       UseDotProps.randomDot := randomDot render;
       UseDotProps.isMobile := (innerWidth <? 1024)%Z |}
  = getDotDisplayState render (Some innerWidth) id.
Proof. reflexivity. Qed.

(** ** The position of the selected dot *)

Lemma arrayLength_app (l l' : list string) :
  JS.arrayLength (l ++ l')%list = (JS.arrayLength l + JS.arrayLength l')%Z.
Proof. unfold JS.arrayLength. rewrite List.length_app. lia. Qed.

Lemma index_last_two (pre : list string) (a b : string) :
  let parts := (pre ++ [a; b])%list in
  JS.index parts (JS.arrayLength parts - 2) = Some a
  /\ JS.index parts (JS.arrayLength parts - 1) = Some b
  /\ (2 <= JS.arrayLength parts)%Z.
Proof.
  intros parts. unfold parts, JS.index, JS.arrayLength.
  rewrite List.length_app. cbn [List.length].
  set (n := List.length pre).
  replace (Z.of_nat (n + 2) - 2)%Z with (Z.of_nat n) by lia.
  replace (Z.of_nat (n + 2) - 1)%Z with (Z.of_nat (S n)) by lia.
  rewrite !Nat2Z.id.
  destruct (Z.ltb_spec (Z.of_nat n) 0); [lia|].
  destruct (Z.ltb_spec (Z.of_nat (S n)) 0); [lia|].
  repeat split; try lia.
  - rewrite nth_error_app2 by (unfold n; lia). now rewrite Nat.sub_diag.
  - rewrite nth_error_app2 by (unfold n; lia).
    replace (S n - List.length pre)%nat with 1%nat by (unfold n; lia).
    reflexivity.
Qed.

Lemma split_nonempty (sep : ascii) (s : string) : JS.split sep s <> [].
Proof.
  destruct s as [|c s]; simpl; [discriminate|].
  destruct (Ascii.eqb c sep); [discriminate|].
  destruct (JS.split sep s); discriminate.
Qed.

Lemma parseInt_empty : JS.parseInt "" = None.
Proof. reflexivity. Qed.

Lemma getSelectedPosition_split (render : State) (id : string)
    (pre : list string) (a b : string) :
  selectedDot render = Some id ->
  JS.split "-" id = (pre ++ [a; b])%list ->
  getSelectedPosition render
  = match JS.parseInt (rowSegment pre a b), JS.parseInt b with
    | Some r, Some c => Some {| Vector2D.row := r; Vector2D.col := c |}
    | _, _ => None
    end.
Proof.
  intros Hsel Hsplit. unfold getSelectedPosition. rewrite Hsel.
  assert (Htruthy : JS.truthy (Some id) = true).
  { destruct id; [|reflexivity].
    destruct pre as [|? [|? ?]]; discriminate Hsplit. }
  rewrite Htruthy. change (default "" (Some id)) with id. rewrite Hsplit.
  destruct (index_last_two pre a b) as (Ha & Hb & Hlen).
  cbv zeta in Ha, Hb, Hlen. rewrite Ha, Hb. cbv [negb].
  destruct (Z.geb_spec (JS.arrayLength (pre ++ [a; b])%list) 2); [|lia].
  replace (JS.index (pre ++ [a; b])%list 0)
    with (Some (hd a (pre ++ [a; b])%list)) by (now destruct pre).
  unfold rowSegment, JS.orElse. destruct a; reflexivity.
Qed.

Lemma last_two_cases (l : list string) :
  l = [] \/ (exists s, l = [s]) \/ exists pre a b, l = (pre ++ [a; b])%list.
Proof.
  destruct l as [|b l'] using rev_ind; [now left|]. right.
  destruct l' as [|a pre _] using rev_ind.
  - left. now exists b.
  - right. exists pre, a, b. now rewrite <- List.app_assoc.
Qed.

Lemma getSelectedPosition_single (render : State) (id : string) :
  selectedDot render = Some id ->
  JS.split "-" id = [id] ->
  getSelectedPosition render = None.
Proof.
  intros Hsel Hsplit. unfold getSelectedPosition. rewrite Hsel.
  destruct (JS.truthy (Some id)); [|reflexivity].
  change (default "" (Some id)) with id. now rewrite Hsplit.
Qed.

Lemma split_single (id s : string) : JS.split "-" id = [s] -> s = id.
Proof.
  revert s. induction id as [|c id IH]; intros s; simpl.
  - now intros [= <-].
  - destruct (Ascii.eqb c "-").
    + intros [= _ H]. now apply split_nonempty in H.
    + destruct (JS.split "-" id) as [|seg segs] eqn:E;
        [now apply split_nonempty in E|].
      intros [= <- ->]. f_equal. now apply IH.
Qed.

(** C9. [getSelectedPosition] is a total function of the selected id: it
    has no raising path for any string. When the two trailing hyphen
    separated segments of the id parse as integers it returns that
    row and column; it returns a position only for an id whose row and
    column segments parse, so an id that cannot be parsed (no selection,
    no hyphen, a last segment or a row segment that is not a number)
    yields no position. *)
Theorem getSelectedPosition_no_position_when_malformed (render : State) :
  (forall id pre a b r c,
      selectedDot render = Some id ->
      JS.split "-" id = (pre ++ [a; b])%list ->
      JS.parseInt a = Some r -> JS.parseInt b = Some c ->
      getSelectedPosition render
      = Some {| Vector2D.row := r; Vector2D.col := c |})
  /\ (forall p, getSelectedPosition render = Some p ->
      exists id pre a b,
        selectedDot render = Some id
        /\ JS.split "-" id = (pre ++ [a; b])%list
        /\ JS.parseInt (rowSegment pre a b) = Some (Vector2D.row p)
        /\ JS.parseInt b = Some (Vector2D.col p))
  /\ (selectedDot render = None -> getSelectedPosition render = None)
  /\ (forall id, selectedDot render = Some id ->
      JS.split "-" id = [id] -> getSelectedPosition render = None)
  /\ (forall id pre a b,
      selectedDot render = Some id ->
      JS.split "-" id = (pre ++ [a; b])%list ->
      JS.parseInt b = None \/ JS.parseInt (rowSegment pre a b) = None ->
      getSelectedPosition render = None).
Proof.
  repeat split.
  - intros id pre a b r c Hsel Hsplit Ha Hb.
    rewrite (getSelectedPosition_split render id pre a b Hsel Hsplit).
    assert (rowSegment pre a b = a) as ->
      by (destruct a; [discriminate Ha | reflexivity]).
    now rewrite Ha, Hb.
  - intros p Hp. destruct (selectedDot render) as [id|] eqn:Hsel.
    + destruct (last_two_cases (JS.split "-" id))
        as [Hnil | [(s & Hs) | (pre & a & b & Hsplit)]].
      * now apply split_nonempty in Hnil.
      * pose proof (split_single _ _ Hs) as ->.
        rewrite (getSelectedPosition_single render id Hsel Hs) in Hp.
        discriminate.
      * exists id, pre, a, b.
        rewrite (getSelectedPosition_split render id pre a b Hsel Hsplit)
          in Hp.
        destruct (JS.parseInt (rowSegment pre a b)) as [r|];
          [|discriminate].
        destruct (JS.parseInt b) as [c|]; [|discriminate].
        now injection Hp as <-.
    + unfold getSelectedPosition in Hp. rewrite Hsel in Hp. discriminate.
  - intros Hsel. unfold getSelectedPosition. now rewrite Hsel.
  - intros id Hsel Hsplit. now apply getSelectedPosition_single with id.
  - intros id pre a b Hsel Hsplit Hbad.
    rewrite (getSelectedPosition_split render id pre a b Hsel Hsplit).
    destruct Hbad as [-> | ->]; [|reflexivity].
    now destruct (JS.parseInt (rowSegment pre a b)).
Qed.

Example getSelectedPosition_examples :
  let selecting id :=
    {| hoveredDot := None; selectedDot := Some id; selectedContent := None;
       rippleDot := None; randomDot := None; gridMousePosition := None;
       isContentExpanded := false |} in
  getSelectedPosition (selecting "2-3")
    = Some {| Vector2D.row := 2; Vector2D.col := 3 |}
  /\ getSelectedPosition (selecting "overflow-5-1")
    = Some {| Vector2D.row := 5; Vector2D.col := 1 |}
  /\ getSelectedPosition (selecting "jane-d-oh") = None
  /\ getSelectedPosition (selecting "subscribe") = None
  /\ getSelectedPosition (selecting "") = None.
Proof. repeat split; reflexivity. Qed.


(** ** Frame lemmas for the handlers *)

(** Evaluates the handlers and setters of the hook, and nothing else:
    fields are read through the updates made before them. *)
Ltac hook_eval :=
  lazy beta iota zeta delta
    [handleDotClick handleArtistDotClick handleClose handleBackgroundClick
     handleGridMouseLeave clearAllAnimations resetInactivityTimer
     runRippleAnimation rippleStep randomStep rippling
     incrAnimationCount usedDotsAdd
     disarm clearTimeout clearInterval clearTimer setTimeout setInterval
     arm navigate skip
     setHoveredDot setSelectedDot setSelectedContent setRippleDot
     setRandomDot setGridMousePosition setIsContentExpanded
     setInactivityTimer setRippleIntervalRef setRandomIntervalRef
     setIsAnimatingRef setUsedDotsRef setAnimationCountRef setTimers
     withState withRefs withEnv
     state refs env
     hoveredDot selectedDot selectedContent rippleDot randomDot
     gridMousePosition isContentExpanded
     inactivityTimer rippleIntervalRef randomIntervalRef isAnimatingRef
     usedDotsRef animationCountRef
     timers nextHandle navigations fst snd].

Lemma clearAllAnimations_state (st : Hook) :
  let st' := clearAllAnimations st in
  hoveredDot (state st') = hoveredDot (state st)
  /\ selectedDot (state st') = selectedDot (state st)
  /\ selectedContent (state st') = selectedContent (state st)
  /\ isContentExpanded (state st') = isContentExpanded (state st)
  /\ rippleDot (state st') = None
  /\ randomDot (state st') = None.
Proof.
  destruct st as [s [it rr rd an used cnt] e].
  destruct it, rr, rd; hook_eval; repeat split; reflexivity.
Qed.

Lemma clearAllAnimations_refs (st : Hook) :
  let st' := clearAllAnimations st in
  inactivityTimer (refs st') = None
  /\ rippleIntervalRef (refs st') = None
  /\ randomIntervalRef (refs st') = None
  /\ isAnimatingRef (refs st') = false
  /\ usedDotsRef (refs st') = usedDotsRef (refs st)
  /\ animationCountRef (refs st') = animationCountRef (refs st).
Proof.
  destruct st as [s [it rr rd an used cnt] e].
  destruct it, rr, rd; hook_eval; repeat split; reflexivity.
Qed.

Lemma clearAllAnimations_navigations (st : Hook) :
  navigations (env (clearAllAnimations st)) = navigations (env st)
  /\ nextHandle (env (clearAllAnimations st)) = nextHandle (env st).
Proof.
  destruct st as [s [it rr rd an used cnt] e].
  destruct it, rr, rd; hook_eval; split; reflexivity.
Qed.

(** ** The slug of an artist name follows the slugging rule *)

Lemma toLowerCase_lowercase (s : string) :
  JS.toLowerCase s = mapString lowercase s.
Proof.
  induction s as [|c s IH]; [reflexivity|].
  cbn [JS.toLowerCase mapString]. rewrite IH. reflexivity.
Qed.

Lemma isSlugChar_alphanumeric (c : ascii) :
  DotFactory.isSlugChar c = alphanumeric c.
Proof. destruct c as [[] [] [] [] [] [] [] []]; reflexivity. Qed.

Lemma alphanumeric_not_hyphen (c : ascii) :
  alphanumeric c = true -> Ascii.eqb c "-" = false.
Proof.
  destruct c as [[] [] [] [] [] [] [] []]; vm_compute; intros H;
    (reflexivity || discriminate H).
Qed.

Lemma joinHyphen_empty (ws : list string) :
  Forall (fun w => nonEmpty w = true) ws ->
  joinHyphen ws = "" -> ws = [].
Proof.
  intros Hne. destruct ws as [|w [|w' ws]]; [reflexivity|..];
    inversion Hne as [|? ? Hw _]; subst; destruct w; discriminate.
Qed.

Lemma joinHyphen_cons (w : string) (ws : list string) :
  joinHyphen (w :: ws)
  = match ws with
    | [] => w
    | _ => String.append w (String "-" (joinHyphen ws))
    end.
Proof. destruct ws; reflexivity. Qed.

Lemma alphanumericRuns_nonEmpty (s : string) :
  Forall (fun w => nonEmpty w = true) (alphanumericRuns s).
Proof.
  apply List.Forall_forall. intros w Hin.
  now apply List.filter_In in Hin.
Qed.

Lemma dropTrailing_keep (c : ascii) (x : string) :
  Ascii.eqb c "-" = false ->
  JS.dropTrailing "-" (String c x) = String c (JS.dropTrailing "-" x).
Proof.
  intros Hc. cbn [JS.dropTrailing]. rewrite Hc.
  now destruct (JS.dropTrailing "-" x).
Qed.

Lemma dropTrailing_hyphen (x : string) :
  JS.dropTrailing "-" (String "-" x)
  = match JS.dropTrailing "-" x with
    | EmptyString => EmptyString
    | rest => String "-" rest
    end.
Proof. cbn [JS.dropTrailing]. now destruct (JS.dropTrailing "-" x). Qed.

Lemma pieces_nonempty (s : string) : pieces s <> [].
Proof.
  destruct s as [|c s]; cbn [pieces]; [discriminate|].
  destruct (alphanumeric c); [|discriminate].
  destruct (pieces s); discriminate.
Qed.

Lemma replaceRuns_slugRule (s : string) :
  JS.dropTrailing "-" (JS.replaceRuns DotFactory.isSlugChar "-" false s)
  = continued s
  /\ JS.dropTrailing "-" (JS.replaceRuns DotFactory.isSlugChar "-" true s)
     = joinHyphen (alphanumericRuns s).
Proof.
  induction s as [|c s [IHfalse IHtrue]]; [split; reflexivity|].
  cbn [JS.replaceRuns]. rewrite isSlugChar_alphanumeric.
  unfold continued, alphanumericRuns in *. cbn [pieces].
  pose proof (pieces_nonempty s) as Hne.
  destruct (alphanumeric c) eqn:Hc.
  - rewrite !dropTrailing_keep by now apply alphanumeric_not_hyphen.
    rewrite IHfalse.
    destruct (pieces s) as [|w ws]; [contradiction|].
    cbn [List.filter nonEmpty].
    split.
    + destruct (List.filter nonEmpty ws); reflexivity.
    + rewrite joinHyphen_cons.
      destruct (List.filter nonEmpty ws); reflexivity.
  - cbn [List.filter nonEmpty]. rewrite dropTrailing_hyphen, IHtrue.
    split; [|reflexivity].
    pose proof (alphanumericRuns_nonEmpty s) as Hall.
    unfold alphanumericRuns in Hall.
    destruct (List.filter nonEmpty (pieces s)) as [|w ws] eqn:E;
      [reflexivity|].
    destruct (joinHyphen (w :: ws)) eqn:Ej; [|reflexivity].
    now apply joinHyphen_empty in Ej.
Qed.

Lemma dropLeading_replaceRuns (s : string) :
  JS.dropLeading "-" (JS.replaceRuns DotFactory.isSlugChar "-" false s)
  = JS.replaceRuns DotFactory.isSlugChar "-" true s.
Proof.
  assert (Hhead : forall t,
    JS.dropLeading "-" (JS.replaceRuns DotFactory.isSlugChar "-" true t)
    = JS.replaceRuns DotFactory.isSlugChar "-" true t).
  { induction t as [|c t IH]; [reflexivity|].
    cbn [JS.replaceRuns]. destruct (DotFactory.isSlugChar c) eqn:Hc;
      [|exact IH].
    cbn [JS.dropLeading].
    rewrite isSlugChar_alphanumeric in Hc.
    now rewrite (alphanumeric_not_hyphen c Hc). }
  destruct s as [|c s]; [reflexivity|].
  cbn [JS.replaceRuns]. destruct (DotFactory.isSlugChar c) eqn:Hc.
  - cbn [JS.dropLeading]. rewrite isSlugChar_alphanumeric in Hc.
    now rewrite (alphanumeric_not_hyphen c Hc).
  - cbn [JS.dropLeading]. rewrite Ascii.eqb_refl. apply Hhead.
Qed.

Lemma artistSlug_slugRule (name : string) :
  DotFactory.artistSlug name = slugRule name.
Proof.
  unfold DotFactory.artistSlug, slugRule.
  rewrite dropLeading_replaceRuns, toLowerCase_lowercase.
  apply replaceRuns_slugRule.
Qed.

Example slugRule_examples :
  alphanumericRuns "jane d'oh!!" = ["jane"; "d"; "oh"]
  /\ slugRule "Jane D'Oh!!" = "jane-d-oh"
  /\ slugRule "  DJ   K-9 & Co. " = "dj-k-9-co"
  /\ slugRule "--- !!! ---" = ""
  /\ slugRule "" = "".
Proof. repeat split; reflexivity. Qed.

(** C5. Clicking a special-link artist dot performs the navigation action
    of the link and leaves [selectedDot] and [selectedContent] as they
    were; clicking an ordinary artist dot pushes the artist route, selects
    the dot and sets the selected content to the slug of [artistName].
    For every name that slug is the one the slugging rule gives: the
    maximal runs of letters and digits of the lowercased name, joined by
    single hyphens, so that every run of other characters becomes one
    hyphen and none is left at either end, as for ["Jane D'Oh!!"]. *)
Theorem handleArtistDotClick_selection (dotId : string)
    (artist : ArtistData) (st : Hook) :
  let st' := handleArtistDotClick dotId artist st in
  let artistSlug := DotFactory.artistSlug (artistName artist) in
  (isSpecialLink artist = true ->
     selectedDot (state st') = selectedDot (state st)
     /\ selectedContent (state st') = selectedContent (state st)
     /\ navigations (env st')
        = (navigations (env st) ++ linkAction artist)%list)
  /\ (isSpecialLink artist = false ->
     selectedDot (state st') = Some dotId
     /\ selectedContent (state st') = Some artistSlug
     /\ navigations (env st')
        = (navigations (env st)
           ++ [RouterPush ("/events/ancient-technology/" ++ artistSlug)])%list)
  /\ artistSlug = slugRule (artistName artist)
  /\ (isSpecialLink artist = false ->
      selectedContent (state st') = Some (slugRule (artistName artist)))
  /\ (forall name : string, DotFactory.artistSlug name = slugRule name)
  /\ DotFactory.artistSlug "Jane D'Oh!!" = "jane-d-oh".
Proof.
  cbv zeta.
  destruct (clearAllAnimations_state st) as (_ & Hsel & Hcontent & _).
  destruct (clearAllAnimations_navigations st) as (Hnav & _).
  cbv zeta in Hsel, Hcontent.
  assert (Hordinary : isSpecialLink artist = false ->
    selectedDot (state (handleArtistDotClick dotId artist st)) = Some dotId
    /\ selectedContent (state (handleArtistDotClick dotId artist st))
       = Some (DotFactory.artistSlug (artistName artist))
    /\ navigations (env (handleArtistDotClick dotId artist st))
       = (navigations (env st)
          ++ [RouterPush ("/events/ancient-technology/"
                          ++ DotFactory.artistSlug (artistName artist))])%list).
  { unfold handleArtistDotClick. intros ->.
    unfold navigate, setSelectedDot, setSelectedContent, withEnv, withState.
    cbn [state env navigations selectedDot selectedContent].
    now rewrite Hnav. }
  split; [|split; [exact Hordinary|]].
  - unfold handleArtistDotClick, linkAction. intros ->.
    destruct (isDot (linkType artist) "subscribe");
      [|destruct (isDot (linkType artist) "instagram"
                  && JS.truthy (url artist))];
      unfold navigate, skip, withEnv;
      cbn [state env navigations];
      rewrite Hsel, Hcontent, Hnav, ?List.app_nil_r; auto.
  - split; [apply artistSlug_slugRule|].
    split.
    { intros Hord. destruct (Hordinary Hord) as (_ & -> & _).
      now rewrite artistSlug_slugRule. }
    split; [exact artistSlug_slugRule|reflexivity].
Qed.

(** ** Selecting a dot *)

Lemma filter_ext_bool {A : Type} (f g : A -> bool) (l : list A) :
  (forall a, f a = g a) -> List.filter f l = List.filter g l.
Proof.
  intros Hfg. induction l as [|a l IH]; simpl; [reflexivity|].
  now rewrite Hfg, IH.
Qed.

Lemma filter_filter_bool {A : Type} (f g : A -> bool) (l : list A) :
  List.filter f (List.filter g l) = List.filter (fun a => g a && f a) l.
Proof.
  induction l as [|a l IH]; simpl; [reflexivity|].
  destruct (g a); simpl; [destruct (f a)|]; now rewrite IH.
Qed.

Lemma handle_neq_decide (h h' : positive) :
  negb (Pos.eqb h h') = negb (bool_decide (Some h = Some h')).
Proof.
  f_equal. destruct (Pos.eqb_spec h h') as [->|Hne]; symmetry;
    [now apply bool_decide_eq_true_2 | apply bool_decide_eq_false_2];
    congruence.
Qed.

(** What [handleDotClick] establishes at once, in any state: the
    selection is set, both idle animations are off, the three timer refs
    are null and the timers they held are disarmed. Timers whose handle
    was in no ref stay armed. *)
Lemma handleDotClick_post (dotId contentKey : string) (st : Hook) :
  let st' := handleDotClick dotId contentKey st in
  selectedDot (state st') = Some dotId
  /\ selectedContent (state st') = Some contentKey
  /\ rippleDot (state st') = None
  /\ randomDot (state st') = None
  /\ inactivityTimer (refs st') = None
  /\ rippleIntervalRef (refs st') = None
  /\ randomIntervalRef (refs st') = None
  /\ isAnimatingRef (refs st') = false
  /\ timers (env st')
     = List.filter (fun t =>
         negb (bool_decide (Some (handle t) = inactivityTimer (refs st)))
         && negb (bool_decide (Some (handle t) = rippleIntervalRef (refs st)))
         && negb (bool_decide (Some (handle t) = randomIntervalRef (refs st))))
         (timers (env st)).
Proof.
  destruct st as [s [it rr rd an used cnt] [ts nh nav]].
  assert (Hnone : forall h : positive,
             negb (bool_decide (Some h = @None positive)) = true).
  { intros h. now rewrite bool_decide_eq_false_2. }
  destruct it as [hi|], rr as [hr|], rd as [hd|]; hook_eval;
    repeat split; try reflexivity;
    rewrite ?filter_filter_bool; try apply filter_ext_bool; try intros t;
    rewrite ?handle_neq_decide, ?Hnone, ?andb_true_r, ?andb_true_l;
    try reflexivity.
  all: try (now destruct (bool_decide _), (bool_decide _), (bool_decide _)).
  all: try (now destruct (bool_decide _), (bool_decide _)).
  symmetry. apply forallb_filter_id, forallb_forall. intros t _.
  cbv beta. rewrite !andb_true_iff.
  repeat split; apply negb_true_iff, bool_decide_eq_false_2; discriminate.
Qed.

(** C1 (the code departs from the claim). A grid is mounted and left
    idle; the inactivity timeout starts the random animation, whose first
    interval step arms the anonymous 100 ms timeout. A click on dot "1-1"
    then sets the selection, nulls [rippleDot] and [randomDot] and clears
    the three timer refs, but that timeout is in no ref and stays armed:
    when it fires, [randomDot] becomes a dot id again while the card is
    open. *)
Theorem handleDotClick_leaves_random_pick_armed :
  exists st st' : Hook,
    run DEFAULT_CONFIG 2
      [TimerFires 1 (3 # 4) 0; TimerFires 2 0 0; DotClick "1-1" "About"]
      (mount DEFAULT_CONFIG [] None) = Some st
    /\ selectedDot (state st) = Some "1-1"
    /\ selectedContent (state st) = Some "About"
    /\ rippleDot (state st) = None
    /\ randomDot (state st) = None
    /\ inactivityTimer (refs st) = None
    /\ rippleIntervalRef (refs st) = None
    /\ randomIntervalRef (refs st) = None
    /\ map action (timers (env st)) = [RandomPick]
    /\ map handle (timers (env st)) = [3%positive]
    /\ step DEFAULT_CONFIG 2 (TimerFires 3 0 0) st = Some st'
    /\ selectedDot (state st') = Some "1-1"
    /\ randomDot (state st') = Some "0-1".
Proof.
  eexists. eexists.
  split; [vm_compute; reflexivity|].
  do 9 (split; [vm_compute; reflexivity|]).
  split; [vm_compute; reflexivity|].
  split; vm_compute; reflexivity.
Qed.

(** ** Closing the card *)

Lemma resetInactivityTimer_selected (config : GridConfig)
    (sel : option string) (st : Hook) :
  JS.truthy sel = true ->
  resetInactivityTimer config sel st
  = match inactivityTimer (refs st) with
    | Some h => clearTimeout h st
    | None => st
    end.
Proof.
  intros Hsel. unfold resetInactivityTimer. rewrite Hsel.
  now rewrite andb_false_r.
Qed.

(** C2 (the code departs from the claim). In every state in which a dot
    is selected, [handleClose] resets [selectedDot], [selectedContent] and
    [isContentExpanded], but it arms no timer: [resetInactivityTimer]
    tests the [selectedDot] of the render that created the callback, which
    is still the selected dot. The handle left in [inactivityTimer] is
    disarmed, no handle is allocated and every timer still armed was armed
    before. *)
Theorem handleClose_arms_no_timer (config : GridConfig) (st : Hook)
    (Hselected : JS.truthy (selectedDot (state st)) = true) :
  let st' := handleClose config (state st) st in
  selectedDot (state st') = None
  /\ selectedContent (state st') = None
  /\ isContentExpanded (state st') = false
  /\ nextHandle (env st') = nextHandle (env st)
  /\ inactivityTimer (refs st') = inactivityTimer (refs st)
  /\ (forall t, In t (timers (env st')) ->
        In t (timers (env st))
        /\ Some (handle t) <> inactivityTimer (refs st')).
Proof.
  unfold handleClose. cbv zeta.
  rewrite resetInactivityTimer_selected by exact Hselected.
  destruct st as [s [it rr rd an used cnt] [ts nh nav]].
  destruct it as [h|]; hook_eval; repeat split; try reflexivity;
    try discriminate; try assumption.
  - match goal with H : In _ (List.filter _ _) |- _ =>
      apply List.filter_In in H; tauto end.
  - match goal with H : In _ (List.filter _ _) |- _ =>
      apply List.filter_In in H; destruct H as [_ H] end.
    intros [= Heq]. rewrite Heq, Pos.eqb_refl in H. discriminate.
Qed.

Lemma handleClose_arms_no_timer_witness :
  exists st : Hook,
    run DEFAULT_CONFIG 2 [DotClick "2-1" "About"]
      (mount DEFAULT_CONFIG [] None) = Some st
    /\ selectedDot (state (handleClose DEFAULT_CONFIG (state st) st)) = None
    /\ timers (env (handleClose DEFAULT_CONFIG (state st) st)) = [].
Proof.
  eexists. split; [vm_compute; reflexivity|].
  match goal with |- selectedDot (state (handleClose _ _ ?s)) = _ /\ _ =>
    pose proof (handleClose_arms_no_timer DEFAULT_CONFIG s eq_refl) as H
  end.
  split; [exact (proj1 H) | vm_compute; reflexivity].
Defined.

(** ** Decimal strings: [parseInt] inverts [String] on naturals *)

Ltac digit_cases H :=
  unfold isDecimalDigit in H; cbn [In] in H;
  repeat (destruct H as [<- | H]); [..| contradiction H].

Lemma allDecimal_string_of_uint (d : Decimal.uint) :
  allDecimal (NilEmpty.string_of_uint d).
Proof.
  induction d; cbn [NilEmpty.string_of_uint allDecimal];
    (exact I || (split; [unfold isDecimalDigit; cbn; tauto | assumption])).
Qed.

Lemma parseDigits_of_uint_acc (d : Decimal.uint) (acc : positive) :
  JS.parseDigits 10 (Z.pos acc) (NilEmpty.string_of_uint d)
  = Z.pos (Pos.of_uint_acc d acc).
Proof.
  revert acc. induction d; intros acc; [reflexivity|..];
    cbn [NilEmpty.string_of_uint JS.parseDigits Pos.of_uint_acc];
    change (JS.digitIn 10 _) with (Some 0%Z) || change (JS.digitIn 10 _) with (Some 1%Z)
    || change (JS.digitIn 10 _) with (Some 2%Z) || change (JS.digitIn 10 _) with (Some 3%Z)
    || change (JS.digitIn 10 _) with (Some 4%Z) || change (JS.digitIn 10 _) with (Some 5%Z)
    || change (JS.digitIn 10 _) with (Some 6%Z) || change (JS.digitIn 10 _) with (Some 7%Z)
    || change (JS.digitIn 10 _) with (Some 8%Z) || change (JS.digitIn 10 _) with (Some 9%Z);
    rewrite <- IHd; f_equal; lia.
Qed.

Lemma parseDigits_of_uint (d : Decimal.uint) :
  JS.parseDigits 10 0 (NilEmpty.string_of_uint d) = Z.of_N (Pos.of_uint d).
Proof.
  induction d; [reflexivity|..];
    cbn [NilEmpty.string_of_uint JS.parseDigits Pos.of_uint];
    change (JS.digitIn 10 _) with (Some 0%Z) || change (JS.digitIn 10 _) with (Some 1%Z)
    || change (JS.digitIn 10 _) with (Some 2%Z) || change (JS.digitIn 10 _) with (Some 3%Z)
    || change (JS.digitIn 10 _) with (Some 4%Z) || change (JS.digitIn 10 _) with (Some 5%Z)
    || change (JS.digitIn 10 _) with (Some 6%Z) || change (JS.digitIn 10 _) with (Some 7%Z)
    || change (JS.digitIn 10 _) with (Some 8%Z) || change (JS.digitIn 10 _) with (Some 9%Z);
    cbn [Z.mul Z.add Z.of_N]; try exact IHd; apply parseDigits_of_uint_acc.
Qed.

Lemma parseInt_allDecimal (s : string) :
  allDecimal s -> s <> "" ->
  JS.parseInt s = Some (JS.parseDigits 10 0 s).
Proof.
  destruct s as [|c s']; [congruence|]. intros [Hc Hs'] _.
  rewrite <- (Z.mul_1_l (JS.parseDigits 10 0 (String c s'))).
  destruct s' as [|c' s''].
  - digit_cases Hc; reflexivity.
  - destruct Hs' as [Hc' _].
    digit_cases Hc; digit_cases Hc'; reflexivity.
Qed.

(** The decimal digits of a natural number. *)
Lemma numberToString_decimal (z : Z) :
  (0 <= z)%Z ->
  exists d, JS.numberToString (Some z) = NilEmpty.string_of_uint d
            /\ d <> Decimal.Nil /\ Z.of_N (Pos.of_uint d) = z.
Proof.
  intros Hz. destruct z as [|p|p]; [| |lia].
  - exists (Decimal.D0 Decimal.Nil). repeat split; discriminate.
  - exists (Pos.to_uint p). cbn [JS.numberToString Z.to_int].
    pose proof (DecimalPos.Unsigned.to_uint_nonnil p) as Hnil.
    repeat split; [|assumption|].
    + cbn [NilZero.string_of_int]. unfold NilZero.string_of_uint.
      destruct (Pos.to_uint p); [contradiction|reflexivity..].
    + now rewrite DecimalPos.Unsigned.of_to.
Qed.

Lemma string_of_uint_nonempty (d : Decimal.uint) :
  d <> Decimal.Nil -> NilEmpty.string_of_uint d <> "".
Proof. destruct d; [contradiction|discriminate..]. Qed.

Lemma parseInt_numberToString (z : Z) :
  (0 <= z)%Z -> JS.parseInt (JS.numberToString (Some z)) = Some z.
Proof.
  intros Hz. destruct (numberToString_decimal z Hz) as (d & -> & Hnil & <-).
  rewrite parseInt_allDecimal.
  - now rewrite parseDigits_of_uint.
  - apply allDecimal_string_of_uint.
  - now apply string_of_uint_nonempty.
Qed.

Lemma numberToString_allDecimal (z : Z) :
  (0 <= z)%Z ->
  allDecimal (JS.numberToString (Some z))
  /\ JS.numberToString (Some z) <> "".
Proof.
  intros Hz. destruct (numberToString_decimal z Hz) as (d & -> & Hnil & _).
  split; [apply allDecimal_string_of_uint|now apply string_of_uint_nonempty].
Qed.

(** ** Splitting a dot id *)

Lemma split_cons (sep c : ascii) (rest : string) :
  JS.split sep (String c rest)
  = if Ascii.eqb c sep then EmptyString :: JS.split sep rest
    else match JS.split sep rest with
         | [] => [String c EmptyString]
         | seg :: segs => String c seg :: segs
         end.
Proof. reflexivity. Qed.

Lemma split_allDecimal (s : string) : allDecimal s -> JS.split "-" s = [s].
Proof.
  induction s as [|c s IH]; [reflexivity|]. intros [Hc Hs].
  rewrite split_cons, (IH Hs).
  digit_cases Hc; reflexivity.
Qed.

Lemma split_decimal_prefix (a b : string) :
  allDecimal a ->
  JS.split "-" (String.append a (String "-" b)) = a :: JS.split "-" b.
Proof.
  induction a as [|c a IH]; [reflexivity|]. intros [Hc Ha].
  change (String.append (String c a) ?x) with (String c (String.append a x)).
  rewrite split_cons, (IH Ha).
  digit_cases Hc; reflexivity.
Qed.

Lemma split_dotId (i j : Z) :
  (0 <= i)%Z -> (0 <= j)%Z ->
  JS.split "-" (dotId i j)
  = [JS.numberToString (Some i); JS.numberToString (Some j)].
Proof.
  intros Hi Hj. unfold dotId.
  destruct (numberToString_allDecimal i Hi) as [Hdi _].
  destruct (numberToString_allDecimal j Hj) as [Hdj _].
  change (String.append "-" (JS.numberToString (Some j)))
    with (String "-" (JS.numberToString (Some j))).
  now rewrite split_decimal_prefix, split_allDecimal.
Qed.

Lemma dotId_truthy (i j : Z) :
  (0 <= i)%Z -> JS.truthy (Some (dotId i j)) = true.
Proof.
  intros Hi. destruct (numberToString_allDecimal i Hi) as [_ Hne].
  unfold dotId. destruct (JS.numberToString (Some i)); [congruence|reflexivity].
Qed.

(** ** The ripple walk *)

Lemma getNextRipplePosition_null (config : GridConfig) :
  getNextRipplePosition config None = Some "0-0".
Proof. reflexivity. Qed.

(** One step from the cell in row [i] and column [j]. *)
Lemma getNextRipplePosition_dotId (config : GridConfig) (i j : Z) :
  (0 <= i)%Z -> (0 <= j)%Z ->
  getNextRipplePosition config (Some (dotId i j))
  = if (j =? cols config - 1)%Z then
      if (i =? 4)%Z then None else Some (dotId (i + 1) 0)
    else Some (dotId i (j + 1)).
Proof.
  intros Hi Hj. unfold getNextRipplePosition.
  rewrite dotId_truthy by assumption. cbv [negb].
  change (default "" (Some ?x)) with x. rewrite split_dotId by assumption.
  destruct (numberToString_allDecimal i Hi) as [_ Hne].
  change (JS.arrayLength [_; _]) with 2%Z.
  change (JS.index [?a; ?b] (2 - 2)) with (Some a).
  change (JS.index [?a; ?b] (2 - 1)) with (Some b).
  change (JS.index [?a; ?b] 0) with (Some a).
  assert (JS.orElse (Some (JS.numberToString (Some i)))
            (Some (JS.numberToString (Some i)))
          = Some (JS.numberToString (Some i))) as ->
    by (unfold JS.orElse; now destruct (JS.truthy _)).
  cbn [JS.parseIntArg]. rewrite !parseInt_numberToString by assumption.
  reflexivity.
Qed.

Lemma rippleCell_next (config : GridConfig) (k : Z) :
  (1 <= cols config)%Z -> (0 <= k < 5 * cols config)%Z ->
  getNextRipplePosition config (Some (rippleCell config k))
  = if (k + 1 <? 5 * cols config)%Z
    then Some (rippleCell config (k + 1)) else None.
Proof.
  intros Hcols Hk. unfold rippleCell.
  pose proof (Z.div_mod k (cols config) ltac:(lia)) as Hdm.
  pose proof (Z.mod_pos_bound k (cols config) ltac:(lia)) as Hmod.
  assert (0 <= k / cols config <= 4)%Z as Hdiv.
  { split; [apply Z.div_pos; lia|].
    apply Z.lt_succ_r, Z.div_lt_upper_bound; lia. }
  rewrite getNextRipplePosition_dotId by lia.
  destruct (Z.eqb_spec (k mod cols config) (cols config - 1)) as [Hj|Hj].
  - destruct (Z.eqb_spec (k / cols config) 4) as [Hi|Hi].
    + destruct (Z.ltb_spec (k + 1) (5 * cols config)); [nia|reflexivity].
    + destruct (Z.ltb_spec (k + 1) (5 * cols config)); [|nia].
      f_equal. f_equal.
      * apply Z.div_unique with 0%Z; lia.
      * apply Z.mod_unique with (k / cols config + 1)%Z; lia.
  - destruct (Z.ltb_spec (k + 1) (5 * cols config)); [|nia].
    f_equal. f_equal.
    + apply Z.div_unique with (k mod cols config + 1)%Z; lia.
    + apply Z.mod_unique with (k / cols config)%Z; lia.
Qed.

(** ** The ripple animation as a run of the transition system *)

Lemma find_app_none {A : Type} (f : A -> bool) (l l' : list A) :
  find f l = None -> find f (l ++ l')%list = find f l'.
Proof.
  induction l as [|a l IH]; simpl; [reflexivity|].
  destruct (f a); [discriminate|exact IH].
Qed.

Lemma find_fresh (st : Hook) :
  handlesFresh st ->
  find (fun t => Pos.eqb (handle t) (nextHandle (env st))) (timers (env st))
  = None.
Proof.
  unfold handlesFresh. induction 1 as [|t ts Ht _ IH]; simpl; [reflexivity|].
  destruct (Pos.eqb_spec (handle t) (nextHandle (env st))); [lia|exact IH].
Qed.

Lemma filter_fresh (st : Hook) :
  handlesFresh st ->
  List.filter (fun t => negb (Pos.eqb (handle t) (nextHandle (env st))))
    (timers (env st)) = timers (env st).
Proof.
  unfold handlesFresh. induction 1 as [|t ts Ht _ IH]; simpl; [reflexivity|].
  destruct (Pos.eqb_spec (handle t) (nextHandle (env st))); [lia|].
  simpl. now rewrite IH.
Qed.

Lemma runRippleAnimation_rippling (config : GridConfig) (st : Hook) :
  isAnimatingRef (refs st) = false ->
  runRippleAnimation config None st = rippling config st (Some "0-0").
Proof.
  intros Hidle. unfold runRippleAnimation. now rewrite Hidle.
Qed.

Lemma rippling_fields (config : GridConfig) (st : Hook)
    (dot : option string) :
  let st' := rippling config st dot in
  rippleDot (state st') = dot
  /\ rippleIntervalRef (refs st') = Some (nextHandle (env st))
  /\ isAnimatingRef (refs st') = true
  /\ timers (env st')
     = (timers (env st)
        ++ [{| handle := nextHandle (env st); repeats := true;
               delay := rippleInterval config; action := RippleStep |}])%list.
Proof. destruct st as [s r e]. repeat split. Qed.

Lemma fire_rippling (config : GridConfig) (st : Hook) (fuel : nat)
    (r r' : Q) (dot : option string) :
  handlesFresh st ->
  fire config fuel (nextHandle (env st)) r r' (rippling config st dot)
  = Some (rippleStep config (rippling config st dot)).
Proof.
  intros Hfresh. unfold fire.
  destruct (rippling_fields config st dot) as (_ & _ & _ & ->).
  rewrite find_app_none by exact (find_fresh st Hfresh).
  cbn [find handle]. now rewrite Pos.eqb_refl.
Qed.

Lemma rippleStep_rippling_next (config : GridConfig) (st : Hook)
    (dot : option string) (next : string) :
  getNextRipplePosition config dot = Some next ->
  JS.truthy (Some next) = true ->
  rippleStep config (rippling config st dot)
  = rippling config st (Some next).
Proof.
  intros Hnext Htruthy. unfold rippleStep.
  destruct (rippling_fields config st dot) as (-> & _).
  rewrite Hnext, Htruthy. destruct st as [s r e]. reflexivity.
Qed.

(** The hook once the ripple has left the last cell: the interval is
    disarmed, and its handle firing again changes nothing. *)
Lemma rippleStep_rippling_last (config : GridConfig) (st : Hook)
    (dot : option string) :
  handlesFresh st ->
  getNextRipplePosition config dot = None ->
  let st' := rippleStep config (rippling config st dot) in
  rippleDot (state st') = None
  /\ rippleIntervalRef (refs st') = None
  /\ isAnimatingRef (refs st') = false
  /\ timers (env st') = timers (env st)
  /\ forall fuel r r',
       fire config fuel (nextHandle (env st)) r r' st' = Some st'.
Proof.
  intros Hfresh Hnext. cbv zeta. unfold rippleStep.
  destruct (rippling_fields config st dot) as (-> & _).
  rewrite Hnext. pose proof (filter_fresh st Hfresh) as Hfilter.
  pose proof (find_fresh st Hfresh) as Hfind.
  destruct st as [s r [ts nh nav]].
  cbn [timers env nextHandle] in Hfilter, Hfind.
  change (negb (JS.truthy None)) with true. hook_eval.
  rewrite List.filter_app, Hfilter. cbn [List.filter handle].
  rewrite Pos.eqb_refl. cbn [negb].
  rewrite List.app_nil_r. repeat split.
  intros fuel q q'. unfold fire. hook_eval. now rewrite Hfind.
Qed.

Lemma run_app (config : GridConfig) (fuel : nat) (es es' : list event)
    (st : Hook) :
  run config fuel (es ++ es')%list st
  = match run config fuel es st with
    | Some st' => run config fuel es' st'
    | None => None
    end.
Proof.
  revert st. induction es as [|e es IH]; intros st; [reflexivity|].
  cbn [run List.app]. destruct (step config fuel e st) as [st'|];
    [apply IH | reflexivity].
Qed.

Lemma run_repeat_fixed (config : GridConfig) (fuel : nat) (e : event)
    (st : Hook) (n : nat) :
  step config fuel e st = Some st ->
  run config fuel (repeat e n) st = Some st.
Proof.
  intros Hstep. induction n as [|n IH]; [reflexivity|].
  cbn [repeat run]. rewrite Hstep. exact IH.
Qed.

Lemma rippleCell_truthy (config : GridConfig) (k : Z) :
  (1 <= cols config)%Z -> (0 <= k)%Z ->
  JS.truthy (Some (rippleCell config k)) = true.
Proof.
  intros Hcols Hk. apply dotId_truthy. apply Z.div_pos; lia.
Qed.

Lemma run_rippling (config : GridConfig) (st : Hook) (fuel : nat)
    (r r' : Q) (n : nat) :
  (1 <= cols config)%Z -> handlesFresh st ->
  forall k : Z,
    (0 <= k)%Z -> (k + Z.of_nat n < 5 * cols config)%Z ->
    run config fuel (repeat (TimerFires (nextHandle (env st)) r r') n)
      (rippling config st (Some (rippleCell config k)))
    = Some (rippling config st (Some (rippleCell config (k + Z.of_nat n)))).
Proof.
  intros Hcols Hfresh. induction n as [|n IH]; intros k Hk Hbound.
  - cbn [repeat run]. now rewrite Z.add_0_r.
  - cbn [repeat run step]. rewrite fire_rippling by assumption.
    cbn [mbind option_bind].
    rewrite (rippleStep_rippling_next config st _
               (rippleCell config (k + 1))).
    + replace (k + Z.of_nat (S n))%Z with (k + 1 + Z.of_nat n)%Z by lia.
      apply IH; lia.
    + rewrite rippleCell_next by lia.
      destruct (Z.ltb_spec (k + 1) (5 * cols config)); [reflexivity|lia].
    + apply rippleCell_truthy; lia.
Qed.

(** C3. Started on an idle hook, the ripple shows cell 0, which is
    ["0-0"], and after [k] firings of its interval it shows the [k]-th
    cell in row-major order, column [cols - 1] being followed by column 0
    of the next row, for every [k] below [5 * cols]; the firing that
    leaves the last cell sets [rippleDot] to null and disarms the
    interval, so that [rippleDot] stays null whatever the number of later
    firings of that handle. *)
Theorem ripple_walk_row_major (config : GridConfig) (st : Hook)
    (fuel : nat) (r r' : Q) (k : nat)
    (Hcols : (1 <= cols config)%Z)
    (Hidle : isAnimatingRef (refs st) = false)
    (Hfresh : handlesFresh st) :
  exists st_k : Hook,
    run config fuel (repeat (TimerFires (nextHandle (env st)) r r') k)
      (runRippleAnimation config None st) = Some st_k
    /\ rippleDot (state st_k)
       = (if (Z.of_nat k <? 5 * cols config)%Z
          then Some (rippleCell config (Z.of_nat k)) else None)
    /\ ((5 * cols config <= Z.of_nat k)%Z ->
        rippleIntervalRef (refs st_k) = None
        /\ isAnimatingRef (refs st_k) = false
        /\ timers (env st_k) = timers (env st)).
Proof.
  rewrite runRippleAnimation_rippling by exact Hidle.
  change (Some "0-0") with (Some (rippleCell config 0)).
  destruct (Z.ltb_spec (Z.of_nat k) (5 * cols config)) as [Hlt|Hge].
  - eexists. split; [apply run_rippling; (assumption || lia)|].
    split; [|lia].
    now destruct (rippling_fields config st
                    (Some (rippleCell config (0 + Z.of_nat k)))) as (-> & _).
  - set (n := Z.to_nat (5 * cols config - 1)).
    replace k with (n + (1 + (k - n - 1)))%nat by lia.
    rewrite repeat_app, run_app, run_rippling by (assumption || lia).
    rewrite repeat_app, run_app. cbn [repeat run step].
    rewrite fire_rippling by assumption. cbn [mbind option_bind].
    assert (Hlast : getNextRipplePosition config
                      (Some (rippleCell config (0 + Z.of_nat n))) = None).
    { rewrite rippleCell_next by lia.
      destruct (Z.ltb_spec (0 + Z.of_nat n + 1) (5 * cols config));
        [lia|reflexivity]. }
    destruct (rippleStep_rippling_last config st _ Hfresh Hlast)
      as (Hdot & Href & Hanim & Htimers & Hfire).
    eexists. split; [apply run_repeat_fixed, Hfire|]. tauto.
Qed.

Lemma ripple_walk_row_major_witness :
  exists st_k : Hook,
    run DEFAULT_CONFIG 0 (repeat (TimerFires 2 0 0) 25)
      (runRippleAnimation DEFAULT_CONFIG None
         (mount DEFAULT_CONFIG [] None)) = Some st_k
    /\ rippleDot (state st_k) = None
    /\ rippleIntervalRef (refs st_k) = None.
Proof.
  assert (Hfresh : handlesFresh (mount DEFAULT_CONFIG [] None)).
  { repeat constructor. }
  destruct (ripple_walk_row_major DEFAULT_CONFIG (mount DEFAULT_CONFIG [] None)
              0 0 0 25 ltac:(vm_compute; discriminate) eq_refl Hfresh)
    as (st_k & Hrun & Hdot & Hdone).
  exists st_k. split; [exact Hrun|]. split; [exact Hdot|].
  apply Hdone. vm_compute. discriminate.
Defined.

(** The 25 cells of the default grid, in the order of the walk. *)
Example rippleCell_default :
  map (rippleCell DEFAULT_CONFIG) (upto 25)
  = [ "0-0"; "0-1"; "0-2"; "0-3"; "0-4";
      "1-0"; "1-1"; "1-2"; "1-3"; "1-4";
      "2-0"; "2-1"; "2-2"; "2-3"; "2-4";
      "3-0"; "3-1"; "3-2"; "3-3"; "3-4";
      "4-0"; "4-1"; "4-2"; "4-3"; "4-4" ].
Proof. vm_compute. reflexivity. Qed.

(** ** Picking an unused dot *)

Lemma in_upto (n z : Z) : In z (upto n) <-> (0 <= z < n)%Z.
Proof.
  unfold upto. rewrite in_map_iff. split.
  - intros (k & <- & Hk). apply in_seq in Hk. lia.
  - intros Hz. exists (Z.to_nat z). split; [lia|]. apply in_seq. lia.
Qed.

Lemma in_validDotIds (config : GridConfig) (id : string) :
  In id (validDotIds config)
  <-> exists i j, (0 <= i < 5)%Z /\ (0 <= j < cols config)%Z
                  /\ id = dotId i j.
Proof.
  unfold validDotIds. rewrite in_flat_map. split.
  - intros (i & Hi & Hin). apply in_map_iff in Hin as (j & <- & Hj).
    exists i, j. now rewrite <- !in_upto.
  - intros (i & j & Hi & Hj & ->). exists i. rewrite in_upto.
    split; [assumption|]. apply in_map_iff. exists j. now rewrite in_upto.
Qed.

Lemma flat_map_filter {A B : Type} (p : B -> bool) (g : A -> list B)
    (l : list A) :
  flat_map (fun a => List.filter p (g a)) l = List.filter p (flat_map g l).
Proof.
  induction l as [|a l IH]; [reflexivity|].
  cbn [flat_map]. now rewrite List.filter_app, IH.
Qed.

Lemma flat_map_singleton_filter {A B : Type} (p : B -> bool) (f : A -> B)
    (l : list A) :
  flat_map (fun a => if p (f a) then [] else [f a]) l
  = List.filter (fun b => negb (p b)) (map f l).
Proof.
  induction l as [|a l IH]; [reflexivity|].
  cbn [flat_map map List.filter]. rewrite IH. now destruct (p (f a)).
Qed.

(** [allDotIds] is the list of valid ids without the used ones. *)
Lemma unusedDotIds_filter (config : GridConfig) (used : gset string) :
  unusedDotIds config used
  = List.filter (fun id => negb (bool_decide (id ∈ used)))
      (validDotIds config).
Proof.
  unfold unusedDotIds, validDotIds. rewrite <- flat_map_filter.
  apply flat_map_ext. intros i.
  exact (flat_map_singleton_filter
           (fun id : string => bool_decide (id ∈ used))
           (fun j => dotId i j) (upto (cols config))).
Qed.

Lemma in_unusedDotIds (config : GridConfig) (used : gset string)
    (id : string) :
  In id (unusedDotIds config used)
  <-> In id (validDotIds config) /\ id ∉ used.
Proof.
  rewrite unusedDotIds_filter, List.filter_In, negb_true_iff,
    bool_decide_eq_false. reflexivity.
Qed.

Lemma unusedDotIds_empty (config : GridConfig) :
  unusedDotIds config ∅ = validDotIds config.
Proof.
  rewrite unusedDotIds_filter. apply forallb_filter_id, forallb_forall.
  intros id _. apply negb_true_iff, bool_decide_eq_false. set_solver.
Qed.

Lemma validDotIds_nonempty (config : GridConfig) :
  (1 <= cols config)%Z -> validDotIds config <> [].
Proof.
  intros Hcols Hnil.
  assert (In (dotId 0 0) (validDotIds config)) as Hin
    by (apply in_validDotIds; exists 0%Z, 0%Z; repeat split; lia).
  now rewrite Hnil in Hin.
Qed.

(** A draw of [Math.random()] selects a position of the array. *)
Lemma randomIndex_range (r : Q) (n : Z) :
  (0 <= r)%Q -> (r < 1)%Q -> (0 < n)%Z ->
  (0 <= randomIndex r n < n)%Z.
Proof.
  intros Hr0 Hr1 Hn. unfold randomIndex.
  assert (Hn' : (0 < inject_Z n)%Q)
    by (change 0%Q with (inject_Z 0); now rewrite <- Zlt_Qlt).
  split.
  - change 0%Z with (Qfloor 0). apply Qfloor_resp_le.
    apply Qmult_le_0_compat; [assumption|now apply Qlt_le_weak].
  - rewrite Zlt_Qlt. apply Qle_lt_trans with (r * inject_Z n)%Q;
      [apply Qfloor_le|].
    rewrite <- (Qmult_1_l (inject_Z n)) at 2.
    now apply Qmult_lt_compat_r.
Qed.

Lemma index_in_range (l : list string) (i : Z) :
  (0 <= i < JS.arrayLength l)%Z ->
  exists s, JS.index l i = Some s /\ In s l.
Proof.
  intros Hi. unfold JS.index, JS.arrayLength in *.
  destruct (Z.ltb_spec i 0); [lia|].
  destruct (nth_error l (Z.to_nat i)) as [s|] eqn:E.
  - exists s. split; [reflexivity|]. eapply nth_error_In, E.
  - apply nth_error_None in E. lia.
Qed.

Lemma setUsedDotsRef_twice (v w : gset string) (st : Hook) :
  setUsedDotsRef v (setUsedDotsRef w st) = setUsedDotsRef v st.
Proof. destruct st as [s r e]. reflexivity. Qed.

Lemma arrayLength_zero (l : list string) :
  (JS.arrayLength l =? 0)%Z = true <-> l = [].
Proof.
  unfold JS.arrayLength. rewrite Z.eqb_eq. destruct l; cbn; split;
    (reflexivity || discriminate || lia).
Qed.

(** One call that finds [allDotIds] non-empty returns one of its
    elements and adds it to the used set. *)
Lemma getRandomUnusedDot_select (config : GridConfig) (fuel : nat) (r : Q)
    (st : Hook) :
  (0 <= r)%Q -> (r < 1)%Q ->
  unusedDotIds config (usedDotsRef (refs st)) <> [] ->
  exists id,
    getRandomUnusedDot config (S fuel) r st
    = Some (Some id, setUsedDotsRef ({[ id ]} ∪ usedDotsRef (refs st)) st)
    /\ In id (unusedDotIds config (usedDotsRef (refs st))).
Proof.
  intros Hr0 Hr1 Hne. cbn [getRandomUnusedDot].
  destruct (JS.arrayLength _ =? 0)%Z eqn:Hlen;
    [now apply arrayLength_zero in Hlen|].
  destruct (index_in_range (unusedDotIds config (usedDotsRef (refs st)))
              (randomIndex r (JS.arrayLength
                 (unusedDotIds config (usedDotsRef (refs st))))))
    as (id & Hid & Hin).
  { apply randomIndex_range; try assumption.
    apply Z.eqb_neq in Hlen. unfold JS.arrayLength in *. lia. }
  exists id. rewrite Hid. split; [reflexivity|assumption].
Qed.

(** The call as a whole: at most one reset of the used set. [used0] is
    the used set at the moment of selection. *)
Lemma getRandomUnusedDot_pick (config : GridConfig) (fuel : nat) (r : Q)
    (st : Hook) :
  (1 <= cols config)%Z -> (0 <= r)%Q -> (r < 1)%Q -> (2 <= fuel)%nat ->
  exists (id : string) (used0 : gset string),
    getRandomUnusedDot config fuel r st
    = Some (Some id, setUsedDotsRef ({[ id ]} ∪ used0) st)
    /\ (unusedDotIds config (usedDotsRef (refs st)) <> []
        /\ used0 = usedDotsRef (refs st)
        \/ unusedDotIds config (usedDotsRef (refs st)) = []
           /\ used0 = ∅)
    /\ In id (validDotIds config)
    /\ (id ∉ used0).
Proof.
  intros Hcols Hr0 Hr1 Hfuel.
  destruct fuel as [|[|fuel]]; [lia..|].
  destruct (unusedDotIds config (usedDotsRef (refs st))) as [|x l] eqn:Hun.
  - destruct (getRandomUnusedDot_select config fuel r (setUsedDotsRef ∅ st)
                Hr0 Hr1) as (id & Hcall & Hin).
    { replace (usedDotsRef (refs (setUsedDotsRef ∅ st))) with (∅ : gset string)
        by (now destruct st as [s [] e]).
      rewrite unusedDotIds_empty. now apply validDotIds_nonempty. }
    replace (usedDotsRef (refs (setUsedDotsRef ∅ st))) with (∅ : gset string)
      in Hcall, Hin by (now destruct st as [s [] e]).
    exists id, ∅. rewrite setUsedDotsRef_twice in Hcall.
    split; [|split; [now right|]].
    + change (getRandomUnusedDot config (S (S fuel)) r st)
        with (if (JS.arrayLength (unusedDotIds config (usedDotsRef (refs st)))
                  =? 0)%Z
              then getRandomUnusedDot config (S fuel) r (setUsedDotsRef ∅ st)
              else Some (JS.index (unusedDotIds config (usedDotsRef (refs st)))
                           (randomIndex r (JS.arrayLength
                              (unusedDotIds config (usedDotsRef (refs st))))),
                         usedDotsAdd
                           (JS.index (unusedDotIds config (usedDotsRef (refs st)))
                              (randomIndex r (JS.arrayLength
                                 (unusedDotIds config (usedDotsRef (refs st))))))
                           st)).
      rewrite Hun. exact Hcall.
    + apply in_unusedDotIds in Hin. exact Hin.
  - destruct (getRandomUnusedDot_select config (S fuel) r st Hr0 Hr1)
      as (id & Hcall & Hin); [now rewrite Hun|].
    exists id, (usedDotsRef (refs st)).
    split; [exact Hcall|]. split; [left; split; [discriminate|reflexivity]|].
    apply in_unusedDotIds in Hin. exact Hin.
Qed.

(** The id selected is the one the draw designates among the unused ids,
    in the order of the two loops. *)
Lemma getRandomUnusedDot_pick_index (config : GridConfig) (fuel : nat)
    (r : Q) (st : Hook) :
  (1 <= cols config)%Z -> (0 <= r)%Q -> (r < 1)%Q -> (2 <= fuel)%nat ->
  exists (id : string) (used0 : gset string),
    getRandomUnusedDot config fuel r st
    = Some (Some id, setUsedDotsRef ({[ id ]} ∪ used0) st)
    /\ (unusedDotIds config (usedDotsRef (refs st)) <> []
        /\ used0 = usedDotsRef (refs st)
        \/ unusedDotIds config (usedDotsRef (refs st)) = []
           /\ used0 = ∅)
    /\ JS.index (unusedDotIds config used0)
         (randomIndex r (JS.arrayLength (unusedDotIds config used0)))
       = Some id.
Proof.
  intros Hcols Hr0 Hr1 Hfuel.
  destruct (getRandomUnusedDot_pick config fuel r st Hcols Hr0 Hr1 Hfuel)
    as (id & used0 & Hcall & Hused0 & _ & _).
  exists id, used0. split; [exact Hcall|]. split; [exact Hused0|].
  destruct fuel as [|[|fuel]]; [lia..|].
  assert (Hset : usedDotsRef (refs (setUsedDotsRef ∅ st)) = (∅ : gset string))
    by (now destruct st as [s [] e]).
  destruct Hused0 as [[Hne ->] | [Hnil ->]].
  - cbn [getRandomUnusedDot] in Hcall.
    destruct (JS.arrayLength _ =? 0)%Z eqn:Hlen;
      [now apply arrayLength_zero in Hlen|].
    destruct (JS.index _ _) as [id'|] eqn:Hid; [|discriminate Hcall].
    congruence.
  - change (getRandomUnusedDot config (S (S fuel)) r st)
      with (if (JS.arrayLength (unusedDotIds config (usedDotsRef (refs st)))
                =? 0)%Z
            then getRandomUnusedDot config (S fuel) r (setUsedDotsRef ∅ st)
            else Some (JS.index (unusedDotIds config (usedDotsRef (refs st)))
                         (randomIndex r (JS.arrayLength
                            (unusedDotIds config (usedDotsRef (refs st))))),
                       usedDotsAdd
                         (JS.index (unusedDotIds config (usedDotsRef (refs st)))
                            (randomIndex r (JS.arrayLength
                               (unusedDotIds config (usedDotsRef (refs st))))))
                         st)) in Hcall.
    rewrite Hnil in Hcall.
    change (JS.arrayLength (@nil string) =? 0)%Z with true in Hcall.
    cbn [getRandomUnusedDot] in Hcall. rewrite Hset in Hcall.
    destruct (JS.arrayLength _ =? 0)%Z eqn:Hlen.
    { apply arrayLength_zero in Hlen. rewrite ?Hset in Hlen.
      rewrite unusedDotIds_empty in Hlen.
      now apply validDotIds_nonempty in Hlen. }
    destruct (JS.index _ _) as [id'|] eqn:Hid; [|discriminate Hcall].
    congruence.
Qed.

(** C10. For every used set and every [cols >= 1], [getRandomUnusedDot]
    returns within a recursion depth of two, that is after at most one
    reset of the used set, and the reset happens exactly when every valid
    id is used: the id it returns belongs to the 5 x [cols] valid ids, was
    not in the used set at the moment of selection (the set of the call
    while a valid id is unused, the empty set after the reset otherwise)
    and is added to it. It is the id of rank [floor (r * n)] among the [n]
    valid ids that were not used, in the order of the two loops. Nothing
    but the used set is written. *)
Theorem getRandomUnusedDot_terminates (config : GridConfig) (fuel : nat)
    (r : Q) (st : Hook)
    (Hcols : (1 <= cols config)%Z)
    (Hr0 : (0 <= r)%Q) (Hr1 : (r < 1)%Q) (Hfuel : (2 <= fuel)%nat) :
  exists (id : string) (used0 : gset string) (st' : Hook),
    getRandomUnusedDot config fuel r st = Some (Some id, st')
    /\ (used0 = usedDotsRef (refs st) \/ used0 = ∅)
    /\ ((exists id', In id' (validDotIds config)
                    /\ id' ∉ usedDotsRef (refs st))
        /\ used0 = usedDotsRef (refs st)
        \/ (forall id', In id' (validDotIds config) ->
                        id' ∈ usedDotsRef (refs st))
           /\ used0 = ∅)
    /\ In id (validDotIds config)
    /\ (id ∉ used0)
    /\ (let unused :=
          List.filter (fun id' => negb (bool_decide (id' ∈ used0)))
            (validDotIds config) in
        nth_error unused
          (Z.to_nat (Qfloor (r * inject_Z (Z.of_nat (List.length unused)))))
        = Some id)
    /\ usedDotsRef (refs st') = {[ id ]} ∪ used0
    /\ inactivityTimer (refs st') = inactivityTimer (refs st)
    /\ rippleIntervalRef (refs st') = rippleIntervalRef (refs st)
    /\ randomIntervalRef (refs st') = randomIntervalRef (refs st)
    /\ isAnimatingRef (refs st') = isAnimatingRef (refs st)
    /\ animationCountRef (refs st') = animationCountRef (refs st)
    /\ state st' = state st
    /\ env st' = env st.
Proof.
  destruct (getRandomUnusedDot_pick config fuel r st Hcols Hr0 Hr1 Hfuel)
    as (id & used0 & Hcall & Hused0 & Hvalid & Hfresh).
  destruct (getRandomUnusedDot_pick_index config fuel r st Hcols Hr0 Hr1
              Hfuel) as (id' & used0' & Hcall' & Hused0' & Hindex).
  assert (Hused : used0' = used0).
  { destruct Hused0 as [[Hne ->] | [Hnil ->]],
             Hused0' as [[Hne' ->] | [Hnil' ->]];
      try reflexivity; contradiction. }
  assert (Hid : id' = id) by congruence.
  subst used0' id'.
  exists id, used0, (setUsedDotsRef ({[ id ]} ∪ used0) st).
  split; [exact Hcall|]. split; [tauto|].
  split.
  { destruct Hused0 as [[Hne ->] | [Hnil ->]].
    - left. split; [|reflexivity].
      destruct (unusedDotIds config (usedDotsRef (refs st))) as [|x l] eqn:E;
        [contradiction|].
      exists x. apply in_unusedDotIds. rewrite E. now left.
    - right. split; [|reflexivity]. intros id' Hin.
      destruct (decide (id' ∈ usedDotsRef (refs st))) as [|Hnot];
        [assumption|].
      exfalso.
      assert (Hun : In id' (unusedDotIds config (usedDotsRef (refs st))))
        by (apply in_unusedDotIds; now split).
      now rewrite Hnil in Hun. }
  split; [exact Hvalid|]. split; [exact Hfresh|].
  split.
  { cbv zeta. rewrite <- unusedDotIds_filter.
    unfold JS.index, randomIndex, JS.arrayLength in Hindex.
    destruct (_ <? 0)%Z; [discriminate Hindex|exact Hindex]. }
  now destruct st as [s [] e].
Qed.

Lemma getRandomUnusedDot_terminates_witness :
  exists (id : string) (used0 : gset string) (st' : Hook),
    getRandomUnusedDot DEFAULT_CONFIG 2 (1 # 3)
      (mount DEFAULT_CONFIG [] None) = Some (Some id, st')
    /\ (used0 = usedDotsRef (refs (mount DEFAULT_CONFIG [] None))
        \/ used0 = ∅)
    /\ ((exists id', In id' (validDotIds DEFAULT_CONFIG)
                    /\ id' ∉ usedDotsRef (refs (mount DEFAULT_CONFIG [] None)))
        /\ used0 = usedDotsRef (refs (mount DEFAULT_CONFIG [] None))
        \/ (forall id', In id' (validDotIds DEFAULT_CONFIG) ->
                        id' ∈ usedDotsRef (refs (mount DEFAULT_CONFIG [] None)))
           /\ used0 = ∅)
    /\ In id (validDotIds DEFAULT_CONFIG)
    /\ (id ∉ used0)
    /\ (let unused :=
          List.filter (fun id' => negb (bool_decide (id' ∈ used0)))
            (validDotIds DEFAULT_CONFIG) in
        nth_error unused
          (Z.to_nat (Qfloor ((1 # 3)
                             * inject_Z (Z.of_nat (List.length unused)))))
        = Some id)
    /\ usedDotsRef (refs st') = {[ id ]} ∪ used0
    /\ inactivityTimer (refs st')
       = inactivityTimer (refs (mount DEFAULT_CONFIG [] None))
    /\ rippleIntervalRef (refs st')
       = rippleIntervalRef (refs (mount DEFAULT_CONFIG [] None))
    /\ randomIntervalRef (refs st')
       = randomIntervalRef (refs (mount DEFAULT_CONFIG [] None))
    /\ isAnimatingRef (refs st')
       = isAnimatingRef (refs (mount DEFAULT_CONFIG [] None))
    /\ animationCountRef (refs st')
       = animationCountRef (refs (mount DEFAULT_CONFIG [] None))
    /\ state st' = state (mount DEFAULT_CONFIG [] None)
    /\ env st' = env (mount DEFAULT_CONFIG [] None).
Proof.
  apply (getRandomUnusedDot_terminates DEFAULT_CONFIG 2 (1 # 3)
           (mount DEFAULT_CONFIG [] None)).
  - vm_compute. discriminate.
  - vm_compute. discriminate.
  - reflexivity.
  - apply le_n.
Defined.

(** X16. With no column there is no valid id and the recursion never ends:
    whatever the depth allowed, the call does not return. *)
Lemma getRandomUnusedDot_no_columns (config : GridConfig) (fuel : nat)
    (r : Q) (st : Hook) :
  (cols config <= 0)%Z -> getRandomUnusedDot config fuel r st = None.
Proof.
  intros Hcols. revert st. induction fuel as [|fuel IH]; intros st;
    [reflexivity|].
  cbn [getRandomUnusedDot].
  assert (Hnil : forall used, unusedDotIds config used = []).
  { intros used. unfold unusedDotIds, upto.
    replace (Z.to_nat (cols config)) with 0%nat by lia. reflexivity. }
  rewrite Hnil. apply IH.
Qed.

Lemma getRandomUnusedDot_no_columns_witness :
  let config :=
    {| cols := 0; inactivityTimeout := inactivityTimeout DEFAULT_CONFIG;
       rippleInterval := rippleInterval DEFAULT_CONFIG;
       randomInterval := randomInterval DEFAULT_CONFIG;
       randomCount := randomCount DEFAULT_CONFIG;
       enableMouseTracking := enableMouseTracking DEFAULT_CONFIG |} in
  getRandomUnusedDot config 1000 (1 # 3) (mount config [] None) = None.
Proof.
  intros config. apply getRandomUnusedDot_no_columns. cbn. lia.
Defined.

Example getRandomUnusedDot_default :
  option_map fst (getRandomUnusedDot DEFAULT_CONFIG 2 (1 # 3)
                    (mount DEFAULT_CONFIG [] None))
  = Some (Some "1-3").
Proof. vm_compute. reflexivity. Qed.

(** ** A sequence of random picks *)

Lemma dotId_inj (i j i' j' : Z) :
  (0 <= i)%Z -> (0 <= j)%Z -> (0 <= i')%Z -> (0 <= j')%Z ->
  dotId i j = dotId i' j' -> i = i' /\ j = j'.
Proof.
  intros Hi Hj Hi' Hj' Heq.
  pose proof (split_dotId i j Hi Hj) as Hs.
  rewrite Heq, split_dotId in Hs by assumption.
  assert (Hrow : JS.numberToString (Some i') = JS.numberToString (Some i))
    by congruence.
  assert (Hcol : JS.numberToString (Some j') = JS.numberToString (Some j))
    by congruence.
  pose proof (parseInt_numberToString i Hi) as Pi.
  pose proof (parseInt_numberToString j Hj) as Pj.
  rewrite <- Hrow, parseInt_numberToString in Pi by assumption.
  rewrite <- Hcol, parseInt_numberToString in Pj by assumption.
  split; congruence.
Qed.

Lemma NoDup_upto (n : Z) : List.NoDup (upto n).
Proof.
  unfold upto. apply Finite.Injective_map_NoDup; [|apply List.seq_NoDup].
  intros a b. apply Nat2Z.inj.
Qed.

Lemma NoDup_flat_map_disjoint {A B : Type} (g : A -> list B) (l : list A) :
  List.NoDup l ->
  (forall a, In a l -> List.NoDup (g a)) ->
  (forall a b x, In a l -> In b l -> In x (g a) -> In x (g b) -> a = b) ->
  List.NoDup (flat_map g l).
Proof.
  induction 1 as [|a l Ha Hl IH]; intros Hg Hdisj; [constructor|].
  cbn [flat_map]. apply List.NoDup_app.
  - apply Hg. now left.
  - apply IH.
    + intros b Hb. apply Hg. now right.
    + intros b c x Hb Hc. apply Hdisj; now right.
  - intros x Hxa Hxl. apply in_flat_map in Hxl as (b & Hb & Hxb).
    assert (a = b) by (apply (Hdisj a b x); (now left) || (now right) || assumption).
    congruence.
Qed.

Lemma NoDup_validDotIds (config : GridConfig) : List.NoDup (validDotIds config).
Proof.
  unfold validDotIds. apply NoDup_flat_map_disjoint.
  - apply NoDup_upto.
  - intros i Hi. apply in_upto in Hi.
    apply Finite.Injective_map_NoDup_in; [|apply NoDup_upto].
    intros j j' Hj Hj' Heq. apply in_upto in Hj, Hj'.
    apply dotId_inj in Heq; lia.
  - intros i i' x Hi Hi' Hx Hx'. apply in_upto in Hi, Hi'.
    apply in_map_iff in Hx as (j & <- & Hj).
    apply in_map_iff in Hx' as (j' & Heq & Hj').
    apply in_upto in Hj, Hj'. apply dotId_inj in Heq; lia.
Qed.

Lemma length_validDotIds (config : GridConfig) :
  List.length (validDotIds config) = (5 * Z.to_nat (cols config))%nat.
Proof.
  unfold validDotIds. change (upto 5) with [0; 1; 2; 3; 4]%Z.
  cbn [flat_map]. rewrite !List.length_app, !List.length_map.
  unfold upto. rewrite List.length_map, List.length_seq. cbn [List.length].
  lia.
Qed.

Lemma length_filter_drop {A : Type} (p q : A -> bool) (a : A) (l : list A) :
  List.NoDup l -> In a l -> p a = true -> q a = false ->
  (forall x, x <> a -> q x = p x) ->
  S (List.length (List.filter q l)) = List.length (List.filter p l).
Proof.
  intros Hnd Hin Hpa Hqa Hother.
  induction Hnd as [|x l Hx Hnd IH]; [contradiction|].
  cbn [List.filter]. destruct Hin as [->|Hin].
  - rewrite Hpa, Hqa. cbn [List.length]. f_equal. f_equal.
    apply List.filter_ext_in. intros y Hy. apply Hother. congruence.
  - assert (x <> a) as Hne by congruence.
    rewrite (Hother x Hne). destruct (p x); cbn [List.length];
      now rewrite <- (IH Hin).
Qed.

Lemma usedDotsRef_set (v : gset string) (st : Hook) :
  usedDotsRef (refs (setUsedDotsRef v st)) = v.
Proof. now destruct st as [s [] e]. Qed.

(** Using one more id shortens [allDotIds] by one. *)
Lemma length_unusedDotIds_add (config : GridConfig) (used : gset string)
    (id : string) :
  In id (validDotIds config) -> id ∉ used ->
  S (List.length (unusedDotIds config ({[ id ]} ∪ used)))
  = List.length (unusedDotIds config used).
Proof.
  intros Hvalid Hunused. rewrite !unusedDotIds_filter.
  apply length_filter_drop with id.
  - apply NoDup_validDotIds.
  - exact Hvalid.
  - now apply negb_true_iff, bool_decide_eq_false.
  - apply negb_false_iff, bool_decide_eq_true.
    rewrite elem_of_union, elem_of_singleton. now left.
  - intros x Hx. f_equal. apply bool_decide_ext.
    rewrite elem_of_union, elem_of_singleton. tauto.
Qed.

(** Any number of picks can be made, and every pick is a valid id. *)
Lemma randomPicks_valid (config : GridConfig) (fuel : nat)
    (draws : list Q) :
  (1 <= cols config)%Z -> (2 <= fuel)%nat -> Forall unitDraw draws ->
  forall st : Hook,
  exists (ids : list string) (st' : Hook),
    randomPicks config fuel draws st = Some (map Some ids, st')
    /\ List.length ids = List.length draws
    /\ Forall (fun id => In id (validDotIds config)) ids.
Proof.
  intros Hcols Hfuel. induction 1 as [|r draws [Hr0 Hr1] Hdraws IH]; intros st.
  - exists [], st. repeat split. constructor.
  - destruct (getRandomUnusedDot_pick config fuel r st Hcols Hr0 Hr1 Hfuel)
      as (id & used0 & Hcall & _ & Hvalid & _).
    destruct (IH (setUsedDotsRef ({[ id ]} ∪ used0) st))
      as (ids & st' & Hrest & Hlen & Hall).
    exists (id :: ids), st'. cbn [randomPicks]. rewrite Hcall.
    cbn [mbind option_bind]. rewrite Hrest. cbn [mbind option_bind map].
    repeat split; [cbn [List.length]; now rewrite Hlen|now constructor].
Qed.

(** As long as unused ids remain, the picks are new and pairwise
    distinct. *)
Lemma randomPicks_distinct (config : GridConfig) (fuel : nat)
    (draws : list Q) :
  (1 <= cols config)%Z -> (2 <= fuel)%nat -> Forall unitDraw draws ->
  forall st : Hook,
    (List.length draws
     <= List.length (unusedDotIds config (usedDotsRef (refs st))))%nat ->
  exists (ids : list string) (st' : Hook),
    randomPicks config fuel draws st = Some (map Some ids, st')
    /\ List.NoDup ids
    /\ Forall (fun id => id ∉ usedDotsRef (refs st)) ids.
Proof.
  intros Hcols Hfuel. induction 1 as [|r draws [Hr0 Hr1] Hdraws IH];
    intros st Hlen.
  - exists [], st. repeat split; constructor.
  - destruct (getRandomUnusedDot_pick config fuel r st Hcols Hr0 Hr1 Hfuel)
      as (id & used0 & Hcall & Hused0 & Hvalid & Hnew).
    destruct Hused0 as [[_ ->] | [Hnil _]];
      [|rewrite Hnil in Hlen; cbn [List.length] in Hlen; lia].
    pose proof (length_unusedDotIds_add config _ id Hvalid Hnew) as Hshort.
    destruct (IH (setUsedDotsRef ({[ id ]} ∪ usedDotsRef (refs st)) st))
      as (ids & st' & Hrest & Hnd & Hall).
    { rewrite usedDotsRef_set. cbn [List.length] in Hlen. lia. }
    rewrite usedDotsRef_set in Hall.
    exists (id :: ids), st'. cbn [randomPicks]. rewrite Hcall.
    cbn [mbind option_bind]. rewrite Hrest. cbn [mbind option_bind map].
    split; [reflexivity|]. rewrite List.Forall_forall in Hall. split.
    + constructor; [|exact Hnd]. intros Hin. apply (Hall id Hin). set_solver.
    + constructor; [exact Hnew|]. apply List.Forall_forall. intros x Hx.
      specialize (Hall x Hx). set_solver.
Qed.

(** Two successive picks coincide only across a reset of the used set. *)
Lemma getRandomUnusedDot_consecutive (config : GridConfig) (fuel : nat)
    (r r' : Q) (st st1 st2 : Hook) (a b : string) :
  (1 <= cols config)%Z -> (2 <= fuel)%nat -> unitDraw r -> unitDraw r' ->
  getRandomUnusedDot config fuel r st = Some (Some a, st1) ->
  getRandomUnusedDot config fuel r' st1 = Some (Some b, st2) ->
  a = b ->
  unusedDotIds config (usedDotsRef (refs st1)) = [].
Proof.
  intros Hcols Hfuel [Hr0 Hr1] [Hr0' Hr1'] Hfirst Hsecond Heq.
  destruct (getRandomUnusedDot_pick config fuel r st Hcols Hr0 Hr1 Hfuel)
    as (a' & used0 & Hcall & _ & _ & _).
  rewrite Hfirst in Hcall. injection Hcall as Ha Hst1.
  destruct (getRandomUnusedDot_pick config fuel r' st1 Hcols Hr0' Hr1' Hfuel)
    as (b' & used1 & Hcall' & Hused1 & _ & Hnew).
  rewrite Hsecond in Hcall'. injection Hcall' as Hb _.
  destruct Hused1 as [[_ ->] | [Hnil _]]; [|exact Hnil].
  rewrite Hst1, usedDotsRef_set in Hnew. subst. set_solver.
Qed.

Lemma map_Some_inj {A : Type} (l l' : list A) :
  map Some l = map Some l' -> l = l'.
Proof.
  revert l'. induction l as [|a l IH]; intros [|a' l']; try discriminate;
    [reflexivity|].
  cbn [map]. intros [= -> Htl]. f_equal. now apply IH.
Qed.

(** C4, as the code has it. Whatever the number of picks, each call
    returns a valid id, so the sequence can always be continued: when no
    unused id is left the used set is cleared and sampling goes on. The
    picks are pairwise distinct, hence never the same twice in a row, as
    long as unused ids remain: in particular the first [5 * cols] picks
    that follow an empty used set. Two successive picks can coincide only
    when the used set was exhausted and cleared between them. *)
Theorem randomPicks_distinct_until_exhausted (config : GridConfig)
    (fuel : nat) (draws : list Q) (st : Hook)
    (Hcols : (1 <= cols config)%Z) (Hfuel : (2 <= fuel)%nat)
    (Hdraws : Forall unitDraw draws) :
  exists (ids : list string) (st' : Hook),
    randomPicks config fuel draws st = Some (map Some ids, st')
    /\ List.length ids = List.length draws
    /\ Forall (fun id => In id (validDotIds config)) ids
    /\ ((List.length draws
         <= List.length (unusedDotIds config (usedDotsRef (refs st))))%nat ->
        List.NoDup ids)
    /\ (usedDotsRef (refs st) = ∅ ->
        (List.length draws <= 5 * Z.to_nat (cols config))%nat ->
        List.NoDup ids)
    /\ (forall (s s1 s2 : Hook) (r r' : Q) (a b : string),
        unitDraw r -> unitDraw r' ->
        getRandomUnusedDot config fuel r s = Some (Some a, s1) ->
        getRandomUnusedDot config fuel r' s1 = Some (Some b, s2) ->
        a = b ->
        unusedDotIds config (usedDotsRef (refs s1)) = []).
Proof.
  destruct (randomPicks_valid config fuel draws Hcols Hfuel Hdraws st)
    as (ids & st' & Hrun & Hlen & Hvalid).
  assert (Hnodup : (List.length draws
                    <= List.length (unusedDotIds config
                                      (usedDotsRef (refs st))))%nat ->
                   List.NoDup ids).
  { intros Hroom.
    destruct (randomPicks_distinct config fuel draws Hcols Hfuel Hdraws
                st Hroom) as (ids' & st'' & Hrun' & Hnd & _).
    rewrite Hrun in Hrun'. injection Hrun' as Hids _.
    now rewrite (map_Some_inj _ _ Hids). }
  exists ids, st'. repeat split; try assumption.
  - intros Hempty Hcount. apply Hnodup.
    now rewrite Hempty, unusedDotIds_empty, length_validDotIds.
  - intros s s1 s2 r r' a b Hr Hr'.
    now apply getRandomUnusedDot_consecutive.
Qed.

Ltac unit_draws :=
  repeat (constructor; [split; [discriminate | reflexivity]|]);
  try constructor.

Lemma randomPicks_distinct_until_exhausted_witness :
  exists (ids : list string) (st' : Hook),
    randomPicks DEFAULT_CONFIG 2 [0; 1 # 2; 24 # 25]%Q
      (mount DEFAULT_CONFIG [] None) = Some (map Some ids, st')
    /\ List.NoDup ids.
Proof.
  assert (Hdraws : Forall unitDraw [0; 1 # 2; 24 # 25]%Q) by unit_draws.
  destruct (randomPicks_distinct_until_exhausted DEFAULT_CONFIG 2
              [0; 1 # 2; 24 # 25]%Q (mount DEFAULT_CONFIG [] None)
              ltac:(discriminate) (le_n 2) Hdraws)
    as (ids & st' & Hrun & _ & _ & _ & Hnd & _).
  exists ids, st'. split; [exact Hrun|].
  apply Hnd; [reflexivity | vm_compute; lia].
Defined.

(** The claim of C4 fails for 26 picks on the default grid: the 25th pick
    uses up the last unused id, ["4-4"]; the 26th call clears the used
    set and, with a draw of 24/25, returns ["4-4"] again. *)
Lemma randomPicks_repeats_after_reset :
  Forall unitDraw (repeat 0%Q 25 ++ [24 # 25]%Q)%list
  /\ exists (picks : list (option string)) (st' : Hook),
       randomPicks DEFAULT_CONFIG 2 (repeat 0%Q 25 ++ [24 # 25]%Q)%list
         (mount DEFAULT_CONFIG [] None) = Some (picks, st')
       /\ nth_error picks 24 = Some (Some "4-4")
       /\ nth_error picks 25 = Some (Some "4-4").
Proof.
  split; [cbn [repeat List.app]; unit_draws|].
  eexists. eexists. split; [vm_compute; reflexivity|].
  split; reflexivity.
Qed.

(** The same repeat on screen, for a grid configured with 26 picks: the
    inactivity timeout starts the random animation (handle 2 is its
    interval), each interval step arms the timeout of the next pick
    (handles 3, 4, ...), and [randomDot] is ["4-4"] after the 25th pick
    and again after the 26th. *)
Example randomDot_repeats_on_screen :
  let config :=
    {| cols := 5; inactivityTimeout := 5000; rippleInterval := 200;
       randomInterval := 200; randomCount := 26;
       enableMouseTracking := false |} in
  let pick (i : nat) (r : Q) :=
    [TimerFires 2 0 0; TimerFires (Pos.of_nat (i + 3)) r 0] in
  let first25 :=
    (TimerFires 1 (3 # 4) 0 :: flat_map (fun i => pick i 0%Q) (seq 0 24)) in
  option_map (fun st => randomDot (state st))
    (run config 2 first25 (mount config [] None)) = Some (Some "4-4")
  /\ option_map (fun st => randomDot (state st))
       (run config 2 (first25 ++ pick 24%nat (24 # 25))%list
          (mount config [] None)) = Some (Some "4-4").
Proof. split; vm_compute; reflexivity. Qed.

(** ** Grid and world coordinates *)

Import Vector2D.


(** ** Binary64 products and quotients that do not round *)

















(** ** The doubles of the integers *)



(** ** Grid to world and back *)




(** Products that do not round: by 2, by 0.75 and by 120 on the
    coordinates from -100 to 100; and one that does, 3 by 0.7. *)
Example exactProduct_examples :
  forallb (fun z =>
      exactProduct (JS.ofZ z) (2 + 0)%float
      && exactProduct (JS.ofZ z) (0.5 + 0.25)%float
      && exactProduct (JS.ofZ z) (100 + 20)%float)
    (map (fun n => Z.of_nat n - 100)%Z (seq 0 201)) = true
  /\ exactProduct (JS.ofZ 3) (cellSize07 + 0)%float = false.
Proof. split; vm_compute; reflexivity. Qed.

(** ** Position colours *)

Import DotFactory.

Lemma getPositionColor_clamped (row : Z) (col totalCols : float) :
  (4 <= row)%Z ->
  getPositionColor row col totalCols = getPositionColor 4 col totalCols.
Proof.
  intros Hrow. unfold getPositionColor.
  change (Z.of_nat (List.length ROW_COLOR_ZONES) - 1)%Z with 4%Z.
  now rewrite Z.min_r, Z.min_id by lia.
Qed.

(** C8. For rows and columns 0 to 4 and the default [totalCols = 5],
    [getPositionColor] returns one colour, a function of its arguments
    alone, and each of its three channels lies between the same channel of
    the two colours of the row's zone, bounds included; a row index beyond
    the last zone gives the colour of the last zone. *)
Theorem getPositionColor_within_zone (row col : Z)
    (Hrow : (0 <= row <= 4)%Z) (Hcol : (0 <= col <= 4)%Z) :
  (exists (zone : ColorZone) (color : string),
      zoneAt row = Some zone
      /\ getPositionColor row (JS.ofZ col) defaultTotalCols = Some color
      /\ (forall color',
            getPositionColor row (JS.ofZ col) defaultTotalCols = Some color' ->
            color' = color)
      /\ forall k : nat, (k < 3)%nat ->
           exists lo hi c : Z,
             nth k (channels (primary zone)) None = Some lo
             /\ nth k (channels (secondary zone)) None = Some hi
             /\ nth k (channels color) None = Some c
             /\ (Z.min lo hi <= c <= Z.max lo hi)%Z)
  /\ forall (row' : Z) (col' totalCols : float),
       (4 <= row')%Z ->
       getPositionColor row' col' totalCols
       = getPositionColor 4 col' totalCols.
Proof.
  split; [|intros; now apply getPositionColor_clamped].
  assert (row = 0 \/ row = 1 \/ row = 2 \/ row = 3 \/ row = 4)%Z
    as Hrows by lia.
  assert (col = 0 \/ col = 1 \/ col = 2 \/ col = 3 \/ col = 4)%Z
    as Hcols by lia.
  clear Hrow Hcol.
  repeat (destruct Hrows as [-> | Hrows]);
    repeat (destruct Hcols as [-> | Hcols]); subst;
    (eexists; eexists;
     split; [reflexivity|];
     split; [vm_compute; reflexivity|];
     split; [intros color' Hc; vm_compute in Hc; congruence|];
     intros k Hk; destruct k as [|[|[|k]]]; [| | |lia];
     (do 3 eexists;
      split; [vm_compute; reflexivity|];
      split; [vm_compute; reflexivity|];
      split; [vm_compute; reflexivity|]; lia)).
Qed.

Lemma getPositionColor_within_zone_witness :
  exists color : string,
    getPositionColor 2 (JS.ofZ 3) defaultTotalCols = Some color
    /\ color = "#f4b3a5".
Proof.
  destruct (getPositionColor_within_zone 2 3 ltac:(lia) ltac:(lia))
    as [(zone & color & _ & Hcolor & Huniq & _) _].
  exists color. split; [exact Hcolor|].
  symmetry. apply Huniq. vm_compute. reflexivity.
Defined.

Example getPositionColor_corners :
  getPositionColor 0 0 defaultTotalCols = Some "#a8d5e5"
  /\ getPositionColor 0 4 defaultTotalCols = Some "#c9a7eb"
  /\ getPositionColor 4 4 defaultTotalCols = Some "#98d4bb"
  /\ getPositionColor 9 2 defaultTotalCols = Some "#c0c683".
Proof. repeat split; vm_compute; reflexivity. Qed.

(** ** The shape of an artist slug *)

Lemma isSlugChar_not_hyphen (c : ascii) :
  DotFactory.isSlugChar c = true -> Ascii.eqb c "-" = false.
Proof.
  intros Hc. destruct (Ascii.eqb_spec c "-") as [->|]; [|reflexivity].
  discriminate Hc.
Qed.

Lemma replaceRuns_runsOk (inRun : bool) (s : string) :
  runsOk inRun (JS.replaceRuns DotFactory.isSlugChar "-" inRun s).
Proof.
  revert inRun. induction s as [|c s IH]; intros inRun; [exact I|].
  cbn [JS.replaceRuns].
  destruct (DotFactory.isSlugChar c) eqn:Hc.
  - cbn [runsOk]. rewrite (isSlugChar_not_hyphen c Hc). split; [exact Hc|apply IH].
  - destruct inRun; [apply IH|].
    cbn [runsOk]. change (Ascii.eqb "-" "-") with true. split; [reflexivity|apply IH].
Qed.

Lemma dropLeading_runsOk (prev : bool) (s : string) :
  runsOk prev s -> runsOk true (JS.dropLeading "-" s).
Proof.
  revert prev. induction s as [|c s IH]; intros prev; [exact (fun _ => I)|].
  cbn [runsOk JS.dropLeading]. destruct (Ascii.eqb c "-") eqn:Hc.
  - intros [_ Hrest]. now apply IH with true.
  - intros [Hslug Hrest]. cbn [runsOk]. now rewrite Hc.
Qed.

Lemma dropTrailing_slugShape (prev : bool) (s : string) :
  runsOk prev s ->
  JS.dropTrailing "-" s = "" \/ slugShape prev (JS.dropTrailing "-" s).
Proof.
  revert prev. induction s as [|c s IH]; intros prev; [now left|].
  cbn [runsOk JS.dropTrailing]. destruct (Ascii.eqb c "-") eqn:Hc.
  - intros [-> Hrest]. destruct (IH true Hrest) as [-> | Hshape];
      [now left|].
    right. destruct (JS.dropTrailing "-" s) as [|d t] eqn:Ht.
    + discriminate Hshape.
    + cbn [slugShape]. rewrite Hc. now split.
  - intros [Hslug Hrest]. right.
    destruct (IH false Hrest) as [-> | Hshape].
    + cbn [slugShape]. rewrite Hc. now split.
    + destruct (JS.dropTrailing "-" s) as [|d t] eqn:Ht;
        cbn [slugShape]; rewrite Hc; now split.
Qed.

(** X1. Whatever the artist name, its slug is well formed. *)
Lemma artistSlug_wellFormed (artistName : string) :
  wellFormedSlug (DotFactory.artistSlug artistName).
Proof.
  unfold wellFormedSlug, DotFactory.artistSlug.
  apply dropTrailing_slugShape.
  apply dropLeading_runsOk with false, replaceRuns_runsOk.
Qed.

(** ** Dot ids: writing and reading back *)

Lemma split_app_sep (sep : ascii) (a b : string) :
  JS.split sep (String.append a (String sep b))
  = (JS.split sep a ++ JS.split sep b)%list.
Proof.
  induction a as [|c a IH].
  - change (String.append "" (String sep b)) with (String sep b).
    rewrite split_cons, Ascii.eqb_refl. reflexivity.
  - change (String.append (String c a) ?x) with (String c (String.append a x)).
    rewrite !split_cons, IH. destruct (Ascii.eqb c sep); [reflexivity|].
    pose proof (split_nonempty sep a) as Hne.
    destruct (JS.split sep a) as [|seg segs]; [contradiction|reflexivity].
Qed.

Lemma split_dotId_prefixed (p : string) (r c : Z) :
  (0 <= r)%Z -> (0 <= c)%Z ->
  JS.split "-" (String.append p (String "-" (dotId r c)))
  = (JS.split "-" p
     ++ [JS.numberToString (Some r); JS.numberToString (Some c)])%list.
Proof.
  intros Hr Hc. now rewrite split_app_sep, split_dotId.
Qed.

Lemma createDotId_unprefixed (r c : Z) (prefix : option string) :
  JS.truthy prefix = false -> DotFactory.createDotId r c prefix = dotId r c.
Proof. intros H. unfold DotFactory.createDotId. now rewrite H. Qed.

Lemma createDotId_prefixed (r c : Z) (p : string) :
  p <> "" ->
  DotFactory.createDotId r c (Some p)
  = String.append p (String "-" (dotId r c)).
Proof.
  intros Hp. unfold DotFactory.createDotId.
  destruct p as [|ch p]; [contradiction|]. reflexivity.
Qed.

(** The segments of a dot id: those of the prefix, if any, then the row
    and the column in decimal. *)
Lemma split_createDotId (r c : Z) (prefix : option string) :
  (0 <= r)%Z -> (0 <= c)%Z ->
  exists pre : list string,
    JS.split "-" (DotFactory.createDotId r c prefix)
    = (pre ++ [JS.numberToString (Some r); JS.numberToString (Some c)])%list
    /\ (JS.truthy prefix = false -> pre = [])
    /\ (forall p, prefix = Some p -> p <> "" -> pre = JS.split "-" p).
Proof.
  intros Hr Hc. destruct (JS.truthy prefix) eqn:Ht.
  - destruct prefix as [[|ch p]|]; try discriminate Ht.
    exists (JS.split "-" (String ch p)).
    rewrite createDotId_prefixed by discriminate.
    rewrite split_dotId_prefixed by assumption.
    repeat split; [discriminate|]. now intros p' [= <-] _.
  - exists []. rewrite createDotId_unprefixed, split_dotId by assumption.
    repeat split. intros p -> Hp. destruct p; [contradiction|discriminate].
Qed.

(** X3. [getSelectedPosition] reads back the row and the column of every
    id [createDotId] writes for natural coordinates, whatever the prefix,
    hyphens included. *)
Theorem getSelectedPosition_createDotId (render : State) (r c : Z)
    (prefix : option string)
    (Hr : (0 <= r)%Z) (Hc : (0 <= c)%Z)
    (Hsel : selectedDot render = Some (DotFactory.createDotId r c prefix)) :
  getSelectedPosition render
  = Some {| Vector2D.row := r; Vector2D.col := c |}.
Proof.
  destruct (split_createDotId r c prefix Hr Hc) as (pre & Hsplit & _).
  rewrite (getSelectedPosition_split render _ pre _ _ Hsel Hsplit).
  destruct (numberToString_allDecimal r Hr) as [_ Hne].
  assert (rowSegment pre (JS.numberToString (Some r))
            (JS.numberToString (Some c)) = JS.numberToString (Some r)) as ->
    by (unfold rowSegment; destruct (JS.numberToString (Some r));
        [contradiction|reflexivity]).
  now rewrite !parseInt_numberToString.
Qed.

Lemma getSelectedPosition_createDotId_witness :
  getSelectedPosition
    {| hoveredDot := None;
       selectedDot := Some (DotFactory.createDotId 6 3 (Some "over-flow"));
       selectedContent := None; rippleDot := None; randomDot := None;
       gridMousePosition := None; isContentExpanded := false |}
  = Some {| Vector2D.row := 6; Vector2D.col := 3 |}.
Proof.
  apply (getSelectedPosition_createDotId _ 6 3 (Some "over-flow"));
    [lia | lia | reflexivity].
Defined.

Lemma index_two (a b : string) :
  JS.index [a; b] 0 = Some a /\ JS.index [a; b] 1 = Some b.
Proof. split; reflexivity. Qed.

(** X2. [parseDotId] inverts [createDotId] on natural coordinates when
    there is no prefix, or a non-empty prefix without hyphen. *)
Theorem parseDotId_createDotId (r c : Z) (prefix : option string)
    (Hr : (0 <= r)%Z) (Hc : (0 <= c)%Z)
    (Hprefix : forall p, prefix = Some p -> p <> "" -> JS.split "-" p = [p]) :
  DotFactory.parseDotId (DotFactory.createDotId r c prefix)
  = {| DotFactory.parsedRow := Some r;
       DotFactory.parsedCol := Some c;
       DotFactory.parsedPrefix :=
         if JS.truthy prefix then prefix else None |}.
Proof.
  unfold DotFactory.parseDotId. destruct (JS.truthy prefix) eqn:Ht.
  - destruct prefix as [[|ch p]|]; try discriminate Ht.
    rewrite createDotId_prefixed by discriminate.
    rewrite split_dotId_prefixed by assumption.
    rewrite (Hprefix _ eq_refl) by discriminate.
    cbn [List.app]. change (JS.arrayLength [_; _; _] =? 2)%Z with false.
    change (JS.index [?a; ?b; ?d] 0) with (Some a).
    change (JS.index [?a; ?b; ?d] 1) with (Some b).
    change (JS.index [?a; ?b; ?d] 2) with (Some d).
    cbn [JS.parseIntArg]. now rewrite !parseInt_numberToString.
  - rewrite createDotId_unprefixed, split_dotId by assumption.
    change (JS.arrayLength [_; _] =? 2)%Z with true.
    change (JS.index [?a; ?b] 0) with (Some a).
    change (JS.index [?a; ?b] 1) with (Some b).
    cbn [JS.parseIntArg]. now rewrite !parseInt_numberToString.
Qed.

Lemma parseDotId_createDotId_witness :
  DotFactory.parseDotId (DotFactory.createDotId 5 1 (Some "overflow"))
  = {| DotFactory.parsedRow := Some 5%Z;
       DotFactory.parsedCol := Some 1%Z;
       DotFactory.parsedPrefix := Some "overflow" |}.
Proof.
  apply (parseDotId_createDotId 5 1 (Some "overflow")); [lia | lia |].
  intros p [= <-] _. reflexivity.
Defined.

(** A prefix with a hyphen, or a negative coordinate, is not read back. *)
Example parseDotId_not_inverse :
  DotFactory.parseDotId (DotFactory.createDotId 3 2 (Some "a-b"))
  = {| DotFactory.parsedRow := None;
       DotFactory.parsedCol := Some 3%Z;
       DotFactory.parsedPrefix := Some "a" |}
  /\ DotFactory.parseDotId (DotFactory.createDotId (-1) 2 None)
     = {| DotFactory.parsedRow := Some 1%Z;
          DotFactory.parsedCol := Some 2%Z;
          DotFactory.parsedPrefix := Some "" |}.
Proof. split; reflexivity. Qed.

(** ** The two parsers of the selected id *)





Example selectedPosition_differs :
  let render :=
    {| hoveredDot := None; selectedDot := Some "5--3";
       selectedContent := None; rippleDot := None; randomDot := None;
       gridMousePosition := None; isContentExpanded := false |} in
  getSelectedPosition render
  = Some {| Vector2D.row := 5; Vector2D.col := 3 |}
  /\ UseDotProps.selectedPosition (contextOf render false) = None.
Proof. split; reflexivity. Qed.
(** ** The [open-grid-card] listener *)

Lemma isDot_true (a : option string) (b : string) :
  isDot a b = true <-> a = Some b.
Proof.
  rewrite isDot_decide. split.
  - apply bool_decide_eq_true_1.
  - apply bool_decide_eq_true_2.
Qed.

Lemma findInRow_Some (key : string) (row : list (option string))
    (col0 col : Z) :
  findInRow key col0 row = Some col ->
  exists k : nat,
    col = (col0 + Z.of_nat k)%Z
    /\ nth_error row k = Some (Some key)
    /\ forall k' : nat, (k' < k)%nat -> nth_error row k' <> Some (Some key).
Proof.
  revert col0. induction row as [|cell row IH]; intros col0; [discriminate|].
  cbn [findInRow]. destruct (isDot cell key) eqn:Hcell.
  - intros [= <-]. exists 0%nat. apply isDot_true in Hcell as ->.
    repeat split; [lia|]. intros k' Hk'. lia.
  - intros Hfind. destruct (IH _ Hfind) as (k & -> & Hk & Hfirst).
    exists (S k). repeat split; [lia|exact Hk|].
    intros [|k'] Hk'; cbn [nth_error].
    + intros [= Heq]. apply isDot_true in Heq. congruence.
    + apply Hfirst. lia.
Qed.

Lemma findInRow_None (key : string) (row : list (option string)) (col0 : Z) :
  findInRow key col0 row = None <-> ~ In (Some key) row.
Proof.
  revert col0. induction row as [|cell row IH]; intros col0; cbn [findInRow In].
  - tauto.
  - destruct (isDot cell key) eqn:Hcell.
    + apply isDot_true in Hcell. split; [discriminate|tauto].
    + rewrite IH. split; [|tauto]. intros Hn [Heq|Hin]; [|tauto].
      apply isDot_true in Heq. congruence.
Qed.

Lemma findInGrid_Some (key : string) (content : list (list (option string)))
    (row0 row col : Z) :
  findInGrid key row0 content = Some (row, col) ->
  exists r c : nat,
    row = (row0 + Z.of_nat r)%Z /\ col = Z.of_nat c
    /\ firstOccurrence content key r c.
Proof.
  revert row0. induction content as [|cells content IH]; intros row0;
    [discriminate|].
  cbn [findInGrid]. destruct (findInRow key 0 cells) as [col'|] eqn:Hrow.
  - intros [= <- <-]. destruct (findInRow_Some _ _ _ _ Hrow) as (k & -> & Hk & Hf).
    exists 0%nat, k. split; [lia|]. split; [lia|]. split.
    + exists cells. split; [reflexivity|]. now split.
    + intros r' cells' Hr'. lia.
  - intros Hfind. destruct (IH _ Hfind) as (r & c & -> & -> & (Hocc & Hbefore)).
    exists (S r), c. split; [lia|]. split; [reflexivity|].
    split; [exact Hocc|].
    intros [|r'] cells' Hr'; cbn [nth_error].
    + intros [= <-]. now apply findInRow_None in Hrow.
    + apply Hbefore. lia.
Qed.

Lemma findInGrid_None (key : string) (content : list (list (option string)))
    (row0 : Z) :
  findInGrid key row0 content = None <->
  forall cells, In cells content -> ~ In (Some key) cells.
Proof.
  revert row0. induction content as [|cells content IH]; intros row0;
    cbn [findInGrid].
  - split; [intros _ cells []|reflexivity].
  - destruct (findInRow key 0 cells) as [col'|] eqn:Hrow.
    + split; [discriminate|]. intros Hall. exfalso.
      assert (Hnone : findInRow key 0 cells = None)
        by (apply findInRow_None, Hall; now left).
      congruence.
    + rewrite IH. apply findInRow_None in Hrow. split.
      * intros Hall cells' [<-|Hin]; auto.
      * intros Hall cells' Hin. apply Hall. now right.
Qed.

(** X5. The listener of [open-grid-card], for a key other than
    ['Subscribe']: if the key is in no cell of [data.mainContent] the hook
    is left as it was; otherwise the listener selects the id made of the
    loop indices of the first cell holding the key, in the order of the
    two loops, and sets the key as selected content. *)
Theorem handleOpenGridCard_first_occurrence
    (mainContent : list (list (option string))) (key : string) (st : Hook)
    (Hkey : key <> "") (Hsubscribe : key <> "Subscribe") :
  ((forall cells, In cells mainContent -> ~ In (Some key) cells)
   /\ handleOpenGridCard mainContent (Some key) st = st)
  \/ exists r c : nat,
       firstOccurrence mainContent key r c
       /\ handleOpenGridCard mainContent (Some key) st
          = (setSelectedDot (Some (dotId (Z.of_nat r) (Z.of_nat c))) ;;
             setSelectedContent (Some key)) st.
Proof.
  unfold handleOpenGridCard.
  assert (Htruthy : JS.truthy (Some key) = true)
    by (destruct key; [contradiction|reflexivity]).
  rewrite Htruthy. cbn [negb].
  assert (Hsub : isDot (Some key) "Subscribe" = false).
  { destruct (isDot (Some key) "Subscribe") eqn:E; [|reflexivity].
    apply isDot_true in E. congruence. }
  rewrite Hsub. change (default "" (Some key)) with key.
  destruct (findInGrid key 0 mainContent) as [[row col]|] eqn:Hfind.
  - right. destruct (findInGrid_Some _ _ _ _ _ Hfind) as (r & c & -> & -> & Hocc).
    exists r, c. split; [exact Hocc|]. now rewrite Z.add_0_l.
  - left. split; [|reflexivity].
    exact (proj1 (findInGrid_None _ _ _) Hfind).
Qed.

Lemma handleOpenGridCard_first_occurrence_witness :
  let mainContent := [[Some "About"; None]; [Some "Team"; Some "About"]] in
  let st := mount DEFAULT_CONFIG [] None in
  ((forall cells, In cells mainContent -> ~ In (Some "Team") cells)
   /\ handleOpenGridCard mainContent (Some "Team") st = st)
  \/ exists r c : nat,
       firstOccurrence mainContent "Team" r c
       /\ handleOpenGridCard mainContent (Some "Team") st
          = (setSelectedDot (Some (dotId (Z.of_nat r) (Z.of_nat c))) ;;
             setSelectedContent (Some "Team")) st.
Proof.
  apply handleOpenGridCard_first_occurrence; discriminate.
Defined.

(** X6. The listener of [open-grid-card] only ever writes [selectedDot] and
    [selectedContent]: whatever the key and the grid content, the refs,
    the armed timers, the navigation log and the other state variables
    are as before. Unlike [handleDotClick] it stops no animation: an
    interval that is armed stays armed and [rippleDot] and [randomDot]
    keep their value behind the card it opens. *)
Theorem handleOpenGridCard_keeps_animation
    (mainContent : list (list (option string))) (key : option string)
    (st : Hook) :
  let st' := handleOpenGridCard mainContent key st in
  refs st' = refs st
  /\ env st' = env st
  /\ hoveredDot (state st') = hoveredDot (state st)
  /\ rippleDot (state st') = rippleDot (state st)
  /\ randomDot (state st') = randomDot (state st)
  /\ gridMousePosition (state st') = gridMousePosition (state st)
  /\ isContentExpanded (state st') = isContentExpanded (state st).
Proof.
  unfold handleOpenGridCard.
  destruct (negb (JS.truthy key)); [now repeat split|].
  destruct (isDot key "Subscribe"); [now repeat split|].
  destruct (findInGrid (default "" key) 0 mainContent) as [[row col]|];
    now repeat split.
Qed.

(** The ripple started by the inactivity timeout goes on behind a card
    opened by the event: the next tick of the interval moves [rippleDot]
    while [selectedDot] is set. *)
Example handleOpenGridCard_ripple_goes_on :
  exists st st' : Hook,
    run DEFAULT_CONFIG 2 [TimerFires 1 (1 # 4) 0]
      (mount DEFAULT_CONFIG [] None) = Some st
    /\ step DEFAULT_CONFIG 2 (TimerFires 2 0 0)
         (handleOpenGridCard [[Some "About"]] (Some "About") st) = Some st'
    /\ selectedDot (state st') = Some "0-0"
    /\ rippleDot (state st') = Some "0-1".
Proof.
  eexists. eexists. split; [vm_compute; reflexivity|].
  split; [vm_compute; reflexivity|]. split; reflexivity.
Qed.

(** ** Grids of dot entities *)

Lemma mapIndexed_Some {A B : Type} (f : A -> Z -> option B) (xs : list A)
    (i : Z) (ys : list B) :
  mapIndexed f i xs = Some ys ->
  List.length ys = List.length xs
  /\ forall (k : nat) (x : A), nth_error xs k = Some x ->
       exists y, nth_error ys k = Some y /\ f x (i + Z.of_nat k)%Z = Some y.
Proof.
  revert i ys. induction xs as [|x xs IH]; intros i ys; cbn [mapIndexed].
  - intros [= <-]. split; [reflexivity|]. intros [|k] x'; discriminate.
  - destruct (f x i) as [y|] eqn:Hy; [|discriminate].
    destruct (mapIndexed f (i + 1) xs) as [ys'|] eqn:Hys; [|discriminate].
    intros [= <-]. destruct (IH _ _ Hys) as [Hlen Hnth].
    split; [cbn [List.length]; now rewrite Hlen|].
    intros [|k] x'; cbn [nth_error].
    + intros [= <-]. exists y. now rewrite Z.add_0_r.
    + intros Hk. destruct (Hnth k x' Hk) as (y' & Hy' & Hf).
      exists y'. split; [exact Hy'|]. rewrite <- Hf. f_equal. lia.
Qed.

Lemma mapIndexed_total {A B : Type} (f : A -> Z -> option B) (xs : list A)
    (i : Z) :
  (forall (k : nat) (x : A), nth_error xs k = Some x ->
     f x (i + Z.of_nat k)%Z <> None) ->
  exists ys, mapIndexed f i xs = Some ys.
Proof.
  revert i. induction xs as [|x xs IH]; intros i Hf; cbn [mapIndexed].
  - now exists [].
  - destruct (f x i) as [y|] eqn:Hy.
    + destruct (IH (i + 1)%Z) as [ys Hys].
      { intros k x' Hk. replace (i + 1 + Z.of_nat k)%Z
          with (i + Z.of_nat (S k))%Z by lia. now apply Hf. }
      rewrite Hys. now exists (y :: ys).
    + exfalso. apply (Hf 0%nat x); [reflexivity|]. now rewrite Z.add_0_r.
Qed.

Lemma zoneAt_in_range (i : Z) :
  (0 <= i <= 4)%Z -> exists zone, zoneAt i = Some zone.
Proof.
  intros Hi. unfold zoneAt. destruct (Z.ltb_spec i 0); [lia|].
  assert (Hcases : (i = 0 \/ i = 1 \/ i = 2 \/ i = 3 \/ i = 4)%Z) by lia.
  destruct Hcases as [-> | [-> | [-> | [-> | ->]]]]; eexists; reflexivity.
Qed.

Lemma zoneAt_negative (i : Z) : (i < 0)%Z -> zoneAt i = None.
Proof.
  intros Hi. unfold zoneAt. now destruct (Z.ltb_spec i 0); [|lia].
Qed.

(** [createDot] returns for a row that is not negative, and raises for a
    negative one. *)
Lemma createDot_Some (input : Dot.DotEntityInput) (now : Dot.Date) :
  (0 <= Vector2D.row (Dot.inputGridPosition input))%Z ->
  exists dot, createDot input now = Some dot
    /\ Dot.id dot = Dot.inputId input
    /\ Dot.gridPosition dot = Dot.inputGridPosition input
    /\ Dot.content dot = Dot.inputContent input
    /\ Dot.collectible (Dot.collection dot)
       = match Dot.inputContent input with Some _ => true | None => false end
    /\ Dot.state dot = Dot.idle
    /\ Dot.createdAt dot = now.
Proof.
  intros Hrow. unfold createDot, getPositionColor, getGlowColor.
  change (Z.of_nat (List.length ROW_COLOR_ZONES) - 1)%Z with 4%Z.
  destruct (zoneAt_in_range
              (Z.min (Vector2D.row (Dot.inputGridPosition input)) 4))
    as [zone ->]; [lia|].
  destruct (zoneAt_in_range
              (Z.min (Vector2D.row (Dot.inputGridPosition input) + 1) 4))
    as [zone' ->]; [lia|].
  cbn [option_map]. eexists. split; [reflexivity|]. now repeat split.
Qed.

Lemma createDot_negative_row (input : Dot.DotEntityInput) (now : Dot.Date) :
  (Vector2D.row (Dot.inputGridPosition input) < 0)%Z ->
  createDot input now = None.
Proof.
  intros Hrow. unfold createDot, getPositionColor.
  change (Z.of_nat (List.length ROW_COLOR_ZONES) - 1)%Z with 4%Z.
  rewrite zoneAt_negative by lia. reflexivity.
Qed.

Lemma createDotGrid_cell (rowOffset : Z) (prefix : option string)
    (contentType : Dot.ContentType) (r c : nat) (cell : option string)
    (now : Dot.Date) :
  (0 <= rowOffset)%Z ->
  exists dot,
    (if negb (JS.truthy cell) then
       createEmptyDot (Z.of_nat r + rowOffset) (Z.of_nat c) prefix now
     else
       createGridDot (Z.of_nat r + rowOffset) (Z.of_nat c) (default "" cell)
         (Some {| optPrefix := prefix; optType := Some contentType;
                  optUrl := None |}) now) = Some dot
    /\ gridCell rowOffset prefix r c cell dot.
Proof.
  intros Hoff. unfold gridCell.
  destruct (JS.truthy cell) eqn:Hcell; cbn [negb].
  - unfold createGridDot.
    match goal with |- context [createDot ?input now] =>
      destruct (createDot_Some input now)
        as (dot & -> & Hid & Hpos & Hcontent & Hcoll & Hstate & _)
    end; [cbn; lia|].
    exists dot. split; [reflexivity|].
    rewrite Hid, Hpos, Hcontent, Hcoll, Hstate.
    destruct cell as [s|]; [|discriminate]. now repeat split.
  - unfold createEmptyDot.
    match goal with |- context [createDot ?input now] =>
      destruct (createDot_Some input now)
        as (dot & -> & Hid & Hpos & Hcontent & Hcoll & Hstate & _)
    end; [cbn; lia|].
    exists dot. split; [reflexivity|].
    rewrite Hid, Hpos, Hcontent, Hcoll, Hstate. now repeat split.
Qed.

Lemma createDotGrid_spec (gridContent : list (list (option string)))
    (options : option DotGridOptions) (now : Z -> Z -> Dot.Date)
    (Hoffset : (0 <= orDefault (o ← options; gridRowOffset o) 0)%Z) :
  let rowOffset := orDefault (o ← options; gridRowOffset o) 0%Z in
  let prefix := o ← options; gridPrefix o in
  exists grid,
    createDotGrid gridContent options now = Some grid
    /\ List.length grid = List.length gridContent
    /\ forall (r : nat) cells, nth_error gridContent r = Some cells ->
       exists dots,
         nth_error grid r = Some dots
         /\ List.length dots = List.length cells
         /\ forall (c : nat) cell, nth_error cells c = Some cell ->
            exists dot, nth_error dots c = Some dot
                        /\ gridCell rowOffset prefix r c cell dot.
Proof.
  cbv zeta. unfold createDotGrid.
  set (rowOffset := orDefault (o ← options; gridRowOffset o) 0%Z) in *.
  set (prefix := o ← options; gridPrefix o).
  set (contentType := orDefault (o ← options; gridContentType o) Dot.navigation).
  cbv zeta.
  match goal with |- context [mapIndexed ?f 0%Z gridContent] =>
    set (rowOf := f) end.
  assert (Hrow : forall (r : nat) cells,
    exists dots, rowOf cells (0 + Z.of_nat r)%Z = Some dots
      /\ List.length dots = List.length cells
      /\ forall (c : nat) cell, nth_error cells c = Some cell ->
           exists dot, nth_error dots c = Some dot
                       /\ gridCell rowOffset prefix r c cell dot).
  { intros r cells. unfold rowOf.
    match goal with |- context [mapIndexed ?f 0%Z cells] =>
      set (cellOf := f) end.
    assert (Hcell : forall (c : nat) cell,
      exists dot, cellOf cell (0 + Z.of_nat c)%Z = Some dot
                  /\ gridCell rowOffset prefix r c cell dot).
    { intros c cell. unfold cellOf. rewrite !Z.add_0_l.
      apply createDotGrid_cell. exact Hoffset. }
    destruct (mapIndexed_total cellOf cells 0%Z) as [dots Hdots].
    { intros c cell _. destruct (Hcell c cell) as (dot & -> & _).
      discriminate. }
    exists dots. split; [exact Hdots|].
    destruct (mapIndexed_Some _ _ _ _ Hdots) as [Hlen Hnth].
    split; [exact Hlen|]. intros c cell Hc.
    destruct (Hnth c cell Hc) as (dot & Hdot & Hf).
    exists dot. split; [exact Hdot|].
    destruct (Hcell c cell) as (dot' & Hf' & Hspec). congruence. }
  destruct (mapIndexed_total rowOf gridContent 0%Z) as [grid Hgrid].
  { intros r cells _. destruct (Hrow r cells) as (dots & -> & _).
    discriminate. }
  exists grid. split; [exact Hgrid|].
  destruct (mapIndexed_Some _ _ _ _ Hgrid) as [Hlen Hnth].
  split; [exact Hlen|]. intros r cells Hr.
  destruct (Hnth r cells Hr) as (dots & Hdots & Hf).
  exists dots. split; [exact Hdots|].
  destruct (Hrow r cells) as (dots' & Hf' & Hspec).
  assert (dots' = dots) as -> by congruence. exact Hspec.
Qed.

(** X8. With a row offset that is not negative, [createDotGrid] returns a
    grid of the shape of its content: as many rows, each as long as the
    content row, and the dot of the cell at indices [r], [c] has the id
    [createDotId (r + rowOffset) c prefix] and that grid position, holds
    the cell's string as content key if the string is not empty, and is
    collectible exactly then; a [null] or empty cell gives a dot without
    content. *)
Theorem createDotGrid_cells (gridContent : list (list (option string)))
    (options : option DotGridOptions) (now : Z -> Z -> Dot.Date)
    (Hoffset : (0 <= orDefault (o ← options; gridRowOffset o) 0)%Z) :
  let rowOffset := orDefault (o ← options; gridRowOffset o) 0%Z in
  let prefix := o ← options; gridPrefix o in
  exists grid,
    createDotGrid gridContent options now = Some grid
    /\ List.length grid = List.length gridContent
    /\ forall (r : nat) cells, nth_error gridContent r = Some cells ->
       exists dots,
         nth_error grid r = Some dots
         /\ List.length dots = List.length cells
         /\ forall (c : nat) cell, nth_error cells c = Some cell ->
            exists dot, nth_error dots c = Some dot
                        /\ gridCell rowOffset prefix r c cell dot.
Proof. exact (createDotGrid_spec gridContent options now Hoffset). Qed.

Lemma createDotGrid_cells_witness :
  exists grid,
    createDotGrid [[Some "About"; None]; [Some ""; Some "Team"]]
      (Some {| gridRowOffset := Some 5%Z; gridPrefix := Some "overflow";
               gridContentType := Some Dot.project |})
      (fun _ _ => 0%Z) = Some grid
    /\ List.length grid = 2%nat
    /\ forall (r : nat) cells,
         nth_error [[Some "About"; None]; [Some ""; Some "Team"]] r
         = Some cells ->
       exists dots,
         nth_error grid r = Some dots
         /\ List.length dots = List.length cells
         /\ forall (c : nat) cell, nth_error cells c = Some cell ->
            exists dot, nth_error dots c = Some dot
                        /\ gridCell 5 (Some "overflow") r c cell dot.
Proof.
  apply (createDotGrid_cells [[Some "About"; None]; [Some ""; Some "Team"]]
           (Some {| gridRowOffset := Some 5%Z; gridPrefix := Some "overflow";
                    gridContentType := Some Dot.project |})
           (fun _ _ => 0%Z)).
  cbn. lia.
Defined.

(** X9. [createDotGrid] raises as soon as a cell lands on a negative row:
    with a negative row offset and a first row that is not empty, no grid
    is returned. *)
Theorem createDotGrid_negative_offset (cell : option string)
    (cells : list (option string)) (rest : list (list (option string)))
    (options : option DotGridOptions) (now : Z -> Z -> Dot.Date)
    (Hoffset : (orDefault (o ← options; gridRowOffset o) 0 < 0)%Z) :
  createDotGrid ((cell :: cells) :: rest) options now = None.
Proof.
  unfold createDotGrid. cbv zeta. cbn [mapIndexed].
  assert (Hcell :
    (if negb (JS.truthy cell) then
       createEmptyDot (0 + orDefault (o ← options; gridRowOffset o) 0) 0
         (o ← options; gridPrefix o) (now 0 0)
     else
       createGridDot (0 + orDefault (o ← options; gridRowOffset o) 0) 0
         (default "" cell)
         (Some {| optPrefix := o ← options; gridPrefix o;
                  optType := Some (orDefault (o ← options; gridContentType o)
                                             Dot.navigation);
                  optUrl := None |}) (now 0 0)) = None).
  { destruct (negb (JS.truthy cell));
      [unfold createEmptyDot|unfold createGridDot];
      apply createDot_negative_row; cbn; lia. }
  rewrite Hcell. reflexivity.
Qed.

Lemma createDotGrid_negative_offset_witness :
  createDotGrid [[Some "About"]]
    (Some {| gridRowOffset := Some (-1)%Z; gridPrefix := None;
             gridContentType := None |}) (fun _ _ => 0%Z) = None.
Proof.
  apply createDotGrid_negative_offset. cbn. lia.
Defined.

(** ** Looking a dot up by id *)

Lemma createDotId_inj (r c r' c' : Z) (prefix : option string) :
  (0 <= r)%Z -> (0 <= c)%Z -> (0 <= r')%Z -> (0 <= c')%Z ->
  createDotId r c prefix = createDotId r' c' prefix -> r = r' /\ c = c'.
Proof.
  intros Hr Hc Hr' Hc' Heq.
  destruct (split_createDotId r c prefix Hr Hc) as (pre & Hs & Hnil & Hpre).
  destruct (split_createDotId r' c' prefix Hr' Hc')
    as (pre' & Hs' & Hnil' & Hpre').
  assert (Hsame : pre' = pre).
  { destruct (JS.truthy prefix) eqn:Ht.
    - destruct prefix as [[|ch p]|]; try discriminate Ht.
      rewrite (Hpre _ eq_refl), (Hpre' _ eq_refl) by discriminate.
      reflexivity.
    - now rewrite Hnil, Hnil'. }
  subst pre'. rewrite Heq, Hs' in Hs. apply List.app_inv_head in Hs.
  assert (Hrow : JS.numberToString (Some r') = JS.numberToString (Some r))
    by congruence.
  assert (Hcol : JS.numberToString (Some c') = JS.numberToString (Some c))
    by congruence.
  pose proof (parseInt_numberToString r Hr) as Pr.
  pose proof (parseInt_numberToString c Hc) as Pc.
  rewrite <- Hrow, parseInt_numberToString in Pr by assumption.
  rewrite <- Hcol, parseInt_numberToString in Pc by assumption.
  split; congruence.
Qed.

Lemma findDotInRow_Some (row : list Dot.DotEntity) (id : string)
    (dot : Dot.DotEntity) :
  findDotInRow row id = Some dot -> In dot row /\ Dot.id dot = id.
Proof.
  induction row as [|d row IH]; cbn [findDotInRow]; [discriminate|].
  destruct (String.eqb_spec (Dot.id d) id) as [Hid|Hid].
  - intros [= <-]. split; [now left|exact Hid].
  - intros Hfind. destruct (IH Hfind). split; [now right|assumption].
Qed.

Lemma findDotInRow_None (row : list Dot.DotEntity) (id : string) :
  findDotInRow row id = None <->
  forall dot, In dot row -> Dot.id dot <> id.
Proof.
  induction row as [|d row IH]; cbn [findDotInRow].
  - split; [intros _ dot []|reflexivity].
  - destruct (String.eqb_spec (Dot.id d) id) as [Hid|Hid].
    + split; [discriminate|]. intros Hall. exfalso.
      apply (Hall d); [now left|exact Hid].
    + rewrite IH. split.
      * intros Hall dot [<-|Hin]; auto.
      * intros Hall dot Hin. apply Hall. now right.
Qed.

Lemma findDotInRow_nth (row : list Dot.DotEntity) (c : nat)
    (dot : Dot.DotEntity) :
  nth_error row c = Some dot ->
  (forall c' dot', (c' < c)%nat -> nth_error row c' = Some dot' ->
     Dot.id dot' <> Dot.id dot) ->
  findDotInRow row (Dot.id dot) = Some dot.
Proof.
  revert c. induction row as [|d row IH]; intros [|c]; cbn [nth_error];
    try discriminate.
  - intros [= ->] _. cbn [findDotInRow]. now rewrite String.eqb_refl.
  - intros Hc Hfirst. cbn [findDotInRow].
    destruct (String.eqb_spec (Dot.id d) (Dot.id dot)) as [Hid|Hid].
    + exfalso. apply (Hfirst 0%nat d); [lia|reflexivity|exact Hid].
    + apply (IH c Hc). intros c' dot' Hc' Hnth.
      apply (Hfirst (S c') dot'); [lia|exact Hnth].
Qed.

Lemma findDotById_nth (grid : list (list Dot.DotEntity)) (r c : nat)
    (dots : list Dot.DotEntity) (dot : Dot.DotEntity) :
  nth_error grid r = Some dots ->
  nth_error dots c = Some dot ->
  (forall r' c' dots' dot',
     nth_error grid r' = Some dots' -> nth_error dots' c' = Some dot' ->
     Dot.id dot' = Dot.id dot -> r' = r /\ c' = c) ->
  findDotById grid (Dot.id dot) = Some dot.
Proof.
  revert r. induction grid as [|row grid IH]; intros [|r]; cbn [nth_error];
    try discriminate.
  - intros [= ->] Hc Huniq. cbn [findDotById].
    rewrite (findDotInRow_nth dots c dot Hc); [reflexivity|].
    intros c' dot' Hc' Hnth Hid.
    destruct (Huniq 0%nat c' dots dot' eq_refl Hnth Hid). lia.
  - intros Hr Hc Huniq. cbn [findDotById].
    destruct (findDotInRow row (Dot.id dot)) as [d|] eqn:Hrow.
    + exfalso. apply findDotInRow_Some in Hrow as [Hin Hid].
      apply In_nth_error in Hin as [c' Hc'].
      destruct (Huniq 0%nat c' row d eq_refl Hc' Hid). lia.
    + apply (IH r Hr Hc). intros r' c' dots' dot' Hr' Hc' Hid.
      destruct (Huniq (S r') c' dots' dot' Hr' Hc' Hid). split; lia.
Qed.

(** X10. [findDotById] returns the first dot of the grid, in the order of
    [flattenDotGrid], that has the id, and [null] exactly when no dot of
    the grid has it. *)
Theorem findDotById_first (grid : list (list Dot.DotEntity)) (id : string) :
  findDotById grid id
  = List.find (fun dot => String.eqb (Dot.id dot) id) (flattenDotGrid grid)
  /\ (findDotById grid id = None <->
      forall dot, In dot (flattenDotGrid grid) -> Dot.id dot <> id)
  /\ forall dot, findDotById grid id = Some dot ->
       In dot (flattenDotGrid grid) /\ Dot.id dot = id.
Proof.
  assert (Hrow : forall row rest,
    List.find (fun dot => String.eqb (Dot.id dot) id) (row ++ rest)%list
    = match findDotInRow row id with
      | Some dot => Some dot
      | None => List.find (fun dot => String.eqb (Dot.id dot) id) rest
      end).
  { intros row rest. induction row as [|d row IH]; [reflexivity|].
    cbn [List.app List.find findDotInRow].
    now destruct (String.eqb (Dot.id d) id). }
  assert (Hfind : findDotById grid id
    = List.find (fun dot => String.eqb (Dot.id dot) id)
        (flattenDotGrid grid)).
  { unfold flattenDotGrid. induction grid as [|row grid IH]; [reflexivity|].
    cbn [findDotById concat]. now rewrite Hrow, IH. }
  split; [exact Hfind|]. rewrite Hfind. split.
  - split.
    + intros Hnone dot Hin Hid.
      apply (List.find_none _ _ Hnone) in Hin.
      rewrite Hid, String.eqb_refl in Hin. discriminate.
    + intros Hall.
      destruct (List.find _ (flattenDotGrid grid)) as [dot|] eqn:E;
        [|reflexivity].
      apply List.find_some in E as [Hin Hid].
      apply String.eqb_eq in Hid. now apply Hall in Hin.
  - intros dot E. apply List.find_some in E as [Hin Hid].
    apply String.eqb_eq in Hid. now split.
Qed.

(** X11. Looking up, in a grid [createDotGrid] made with a row offset that
    is not negative, the id [createDotId (r + rowOffset) c prefix] of a
    cell of the content gives back the dot created for that cell, whose
    grid position is that row and column. *)
Theorem findDotById_createDotGrid
    (gridContent : list (list (option string)))
    (options : option DotGridOptions) (now : Z -> Z -> Dot.Date)
    (grid : list (list Dot.DotEntity)) (r c : nat)
    (cells : list (option string)) (cell : option string)
    (Hoffset : (0 <= orDefault (o ← options; gridRowOffset o) 0)%Z)
    (Hgrid : createDotGrid gridContent options now = Some grid)
    (Hrow : nth_error gridContent r = Some cells)
    (Hcol : nth_error cells c = Some cell) :
  let rowOffset := orDefault (o ← options; gridRowOffset o) 0%Z in
  let prefix := o ← options; gridPrefix o in
  exists dots dot,
    nth_error grid r = Some dots
    /\ nth_error dots c = Some dot
    /\ findDotById grid
         (createDotId (Z.of_nat r + rowOffset) (Z.of_nat c) prefix)
       = Some dot
    /\ Dot.gridPosition dot
       = {| Vector2D.row := (Z.of_nat r + rowOffset)%Z;
            Vector2D.col := Z.of_nat c |}.
Proof.
  cbv zeta.
  destruct (createDotGrid_spec gridContent options now Hoffset)
    as (grid' & Hgrid' & Hlen & Hcells).
  assert (grid' = grid) as -> by congruence.
  destruct (Hcells r cells Hrow) as (dots & Hdots & Hlen' & Hdot).
  destruct (Hdot c cell Hcol) as (dot & Hnth & Hid & Hpos & _).
  exists dots, dot. split; [exact Hdots|]. split; [exact Hnth|].
  split; [|exact Hpos]. rewrite <- Hid.
  apply (findDotById_nth grid r c dots dot Hdots Hnth).
  intros r' c' dots' dot' Hr' Hc' Hsame.
  assert (Hcells' : exists cells', nth_error gridContent r' = Some cells').
  { destruct (nth_error gridContent r') as [cells'|] eqn:E; [eauto|].
    apply nth_error_None in E. rewrite <- Hlen in E.
    apply nth_error_None in E. congruence. }
  destruct Hcells' as [cells' Hrow'].
  destruct (Hcells r' cells' Hrow') as (dots'' & Hdots'' & Hlen'' & Hdot'').
  assert (dots'' = dots') as -> by congruence.
  assert (Hcell' : exists cell', nth_error cells' c' = Some cell').
  { destruct (nth_error cells' c') as [cell'|] eqn:E; [eauto|].
    apply nth_error_None in E. rewrite <- Hlen'' in E.
    apply nth_error_None in E. congruence. }
  destruct Hcell' as [cell' Hcol'].
  destruct (Hdot'' c' cell' Hcol') as (dot'' & Hnth'' & Hid'' & _).
  assert (dot'' = dot') as -> by congruence.
  rewrite Hid, Hid'' in Hsame.
  apply createDotId_inj in Hsame; lia.
Qed.

Lemma findDotById_createDotGrid_witness :
  exists dots dot,
    nth_error
      (default [] (mainDots [[Some "About"; None]; [Some "Team"; None]]
                            (fun _ _ => 0%Z))) 1 = Some dots
    /\ nth_error dots 0 = Some dot
    /\ findDotById
         (default [] (mainDots [[Some "About"; None]; [Some "Team"; None]]
                               (fun _ _ => 0%Z)))
         (createDotId (Z.of_nat 1 + 2) (Z.of_nat 0) None) = Some dot
    /\ Dot.gridPosition dot
       = {| Vector2D.row := (Z.of_nat 1 + 2)%Z; Vector2D.col := Z.of_nat 0 |}.
Proof.
  apply (findDotById_createDotGrid
           [[Some "About"; None]; [Some "Team"; None]]
           (Some {| gridRowOffset := Some 2%Z; gridPrefix := None;
                    gridContentType := Some Dot.project |})
           (fun _ _ => 0%Z) _ 1 0 [Some "Team"; None] (Some "Team")).
  - cbn. lia.
  - reflexivity.
  - reflexivity.
  - reflexivity.
Defined.

(** Every dot of a grid made by [createDotGrid] is the dot of a cell of
    the content. *)
Lemma createDotGrid_In (gridContent : list (list (option string)))
    (options : option DotGridOptions) (now : Z -> Z -> Dot.Date)
    (grid : list (list Dot.DotEntity)) (dot : Dot.DotEntity) :
  (0 <= orDefault (o ← options; gridRowOffset o) 0)%Z ->
  createDotGrid gridContent options now = Some grid ->
  In dot (flattenDotGrid grid) ->
  exists (r c : nat) cells cell,
    nth_error gridContent r = Some cells
    /\ nth_error cells c = Some cell
    /\ gridCell (orDefault (o ← options; gridRowOffset o) 0%Z)
                (o ← options; gridPrefix o) r c cell dot.
Proof.
  intros Hoffset Hgrid Hin.
  destruct (createDotGrid_spec gridContent options now Hoffset)
    as (grid' & Hgrid' & Hlen & Hcells).
  assert (grid' = grid) as -> by congruence.
  unfold flattenDotGrid in Hin. apply in_concat in Hin as (dots & Hdots & Hdot).
  apply In_nth_error in Hdots as [r Hr].
  apply In_nth_error in Hdot as [c Hc].
  destruct (nth_error gridContent r) as [cells|] eqn:Hrow.
  2:{ apply nth_error_None in Hrow. rewrite <- Hlen in Hrow.
      apply nth_error_None in Hrow. congruence. }
  destruct (Hcells r cells Hrow) as (dots' & Hdots' & Hlen' & Hcell).
  assert (dots' = dots) as -> by congruence.
  destruct (nth_error cells c) as [cell|] eqn:Hcol.
  2:{ apply nth_error_None in Hcol. rewrite <- Hlen' in Hcol.
      apply nth_error_None in Hcol. congruence. }
  destruct (Hcell c cell Hcol) as (dot' & Hnth & Hspec).
  assert (dot' = dot) as -> by congruence.
  now exists r, c, cells, cell.
Qed.

(** X7. The dot the [open-grid-card] listener selects is never a dot that
    holds the key. The listener writes the id of the loop indices of
    [data.mainContent], while [mainDots] gives the dot of that cell the
    id of two rows below: after the event [selectedContent] is the key,
    but no entity of [mainDots] whose content key is the key is the
    clicked dot. *)
Theorem handleOpenGridCard_misses_holder
    (mainContent : list (list (option string))) (key : string) (st : Hook)
    (now : Z -> Z -> Dot.Date) (grid : list (list Dot.DotEntity))
    (dot : Dot.DotEntity) (innerWidth : option Z)
    (Hkey : key <> "") (Hsubscribe : key <> "Subscribe")
    (Hgrid : mainDots mainContent now = Some grid)
    (Hdot : In dot (flattenDotGrid grid))
    (Hholds : option_map Dot.key (Dot.content dot) = Some key) :
  let st' := handleOpenGridCard mainContent (Some key) st in
  selectedContent (state st') = Some key
  /\ isClickedDot (getDotDisplayState (state st') innerWidth (Dot.id dot))
     = false.
Proof.
  cbv zeta. unfold mainDots in Hgrid.
  assert (Hoffset : (0 <= orDefault
            (o ← Some {| gridRowOffset := Some 2%Z; gridPrefix := None;
                         gridContentType := Some Dot.project |};
             gridRowOffset o) 0)%Z) by (cbn; lia).
  destruct (createDotGrid_In _ _ _ _ _ Hoffset Hgrid Hdot)
    as (r' & c' & cells' & cell' & Hrow' & Hcol' & Hid & _ & Hcontent & _).
  change (Dot.id dot = createDotId (Z.of_nat r' + 2) (Z.of_nat c') None)
    in Hid.
  rewrite createDotId_unprefixed in Hid by reflexivity.
  rewrite Hholds in Hcontent.
  assert (Hcell : cell' = Some key)
    by (destruct (JS.truthy cell'); congruence).
  subst cell'.
  unfold handleOpenGridCard.
  assert (Htruthy : JS.truthy (Some key) = true)
    by (destruct key; [contradiction|reflexivity]).
  rewrite Htruthy. cbn [negb].
  assert (Hsub : isDot (Some key) "Subscribe" = false).
  { destruct (isDot (Some key) "Subscribe") eqn:E; [|reflexivity].
    apply isDot_true in E. congruence. }
  rewrite Hsub. change (default "" (Some key)) with key.
  destruct (findInGrid key 0 mainContent) as [[row col]|] eqn:Hfind.
  - destruct (findInGrid_Some _ _ _ _ _ Hfind)
      as (r & c & -> & -> & (_ & Hbefore)).
    split; [reflexivity|].
    unfold getDotDisplayState. cbn [isClickedDot]. hook_eval.
    destruct (isDot (Some (dotId (0 + Z.of_nat r) (Z.of_nat c))) (Dot.id dot))
      eqn:E; [|reflexivity].
    exfalso. apply isDot_true in E. injection E as E. rewrite Hid in E.
    apply dotId_inj in E; try lia. destruct E as [Er _].
    apply (Hbefore r' cells'); [lia|exact Hrow'|].
    eapply nth_error_In, Hcol'.
  - exfalso. apply (proj1 (findInGrid_None _ _ _) Hfind cells').
    + eapply nth_error_In, Hrow'.
    + eapply nth_error_In, Hcol'.
Qed.

Lemma handleOpenGridCard_misses_holder_witness :
  exists dot : Dot.DotEntity,
    Dot.id dot = "2-0"
    /\ let st' := handleOpenGridCard [[Some "About"]] (Some "About")
                    (mount DEFAULT_CONFIG [] None) in
       selectedContent (state st') = Some "About"
       /\ isClickedDot (getDotDisplayState (state st') None (Dot.id dot))
          = false.
Proof.
  destruct (mainDots [[Some "About"]] (fun _ _ => 0%Z)) as [grid|] eqn:Hgrid;
    [|discriminate Hgrid].
  vm_compute in Hgrid. injection Hgrid as Hgrid.
  match type of Hgrid with [[?d]] = _ => exists d end.
  split; [reflexivity|].
  apply (handleOpenGridCard_misses_holder [[Some "About"]] "About"
           (mount DEFAULT_CONFIG [] None) (fun _ _ => 0%Z) grid);
    try discriminate.
  - rewrite <- Hgrid. vm_compute. reflexivity.
  - rewrite <- Hgrid. now left.
  - reflexivity.
Defined.

(** ** The artist grid *)

Lemma createArtistDot_Some (row col : Z) (artist : Artist) (now : Dot.Date) :
  (0 <= row)%Z ->
  exists dot,
    createArtistDot row col artist now = Some dot
    /\ Dot.id dot = slug artist
    /\ Dot.gridPosition dot = {| Vector2D.row := row; Vector2D.col := col |}
    /\ option_map Dot.key (Dot.content dot) = Some (slug artist)
    /\ option_map Dot.label (Dot.content dot) = Some (artistName artist).
Proof.
  intros Hrow. unfold createArtistDot.
  destruct (isSpecialLink artist);
    match goal with |- context [createDot ?input now] =>
      destruct (createDot_Some input now)
        as (dot & -> & Hid & Hpos & Hcontent & _)
    end; try (cbn; lia);
    exists dot; rewrite Hid, Hpos, Hcontent; now repeat split.
Qed.

Lemma length_concat_uniform {A : Type} (cols : Z) (rows : list (list A)) :
  Forall (fun row => Z.of_nat (List.length row) = cols) rows ->
  Z.of_nat (List.length (concat rows))
  = (Z.of_nat (List.length rows) * cols)%Z.
Proof.
  induction 1 as [|row rows Hrow _ IH]; [reflexivity|].
  cbn [concat List.length]. rewrite List.length_app. lia.
Qed.

Lemma chunked_length (cols : Z) (k : nat)
    (acc : list (list Dot.DotEntity) * list Dot.DotEntity) :
  chunked cols k acc ->
  Z.of_nat k
  = (Z.of_nat (List.length (fst acc)) * cols
     + Z.of_nat (List.length (snd acc)))%Z.
Proof.
  intros (Hlen & Hrows & _). unfold dotsOf in Hlen.
  rewrite List.length_app in Hlen.
  pose proof (length_concat_uniform cols _ Hrows). lia.
Qed.

(** One turn of the loop keeps the rows chunked and appends the dot of
    the artist at position [(k / cols, k mod cols)]. *)
Lemma artistGridStep_chunked (cols : Z) (now : Z -> Dot.Date) (k : nat)
    (acc : list (list Dot.DotEntity) * list Dot.DotEntity)
    (artist : Artist) :
  (0 < cols)%Z -> chunked cols k acc ->
  exists acc' dot,
    artistGridStep cols now acc artist (Z.of_nat k) = Some acc'
    /\ createArtistDot (Z.of_nat k / cols) (Z.of_nat k mod cols) artist
         (now (Z.of_nat k)) = Some dot
    /\ dotsOf acc' = (dotsOf acc ++ [dot])%list
    /\ chunked cols (S k) acc'.
Proof.
  intros Hcols Hacc. pose proof (chunked_length _ _ _ Hacc) as Hk.
  destruct Hacc as (Hlen & Hrows & Hcur & Hzero & Hpos).
  destruct acc as [rows cur]. cbn [fst snd] in *.
  unfold artistGridStep. destruct (Z.eqb_spec cols 0); [lia|].
  rewrite Z.rem_mod_nonneg by lia.
  destruct (createArtistDot_Some (Z.of_nat k / cols) (Z.of_nat k mod cols)
              artist (now (Z.of_nat k)))
    as (dot & Hdot & _); [apply Z.div_pos; lia|].
  rewrite Hdot.
  destruct (Z.eqb_spec (Z.of_nat k mod cols) 0) as [Hmod|Hmod];
    destruct (Z.eqb_spec (Z.of_nat k) 0) as [Hk0|Hk0];
    cbn [andb negb fst snd].
  - (* the first dot *)
    assert (k = 0%nat) as -> by lia. rewrite (Hzero eq_refl) in *.
    unfold dotsOf in *. cbn [fst snd concat List.app] in *.
    destruct cur; [|discriminate Hlen].
    eexists. exists dot. split; [reflexivity|]. split; [reflexivity|].
    split; [reflexivity|]. unfold chunked, dotsOf. cbn.
    repeat split; try lia; try discriminate; try constructor.
  - (* a new row: the current one is full *)
    assert (Hfull : Z.of_nat (List.length cur) = cols).
    { assert (Hcurpos : (0 < List.length cur)%nat) by (apply Hpos; lia).
      assert (Hm : (Z.of_nat (List.length cur) mod cols = 0)%Z).
      { rewrite Hk, Z.add_comm, Z.mod_add in Hmod by lia. exact Hmod. }
      destruct (Z.eq_dec (Z.of_nat (List.length cur)) cols); [assumption|].
      rewrite Z.mod_small in Hm by lia. lia. }
    eexists. exists dot. split; [reflexivity|]. split; [reflexivity|].
    unfold chunked, dotsOf in *. cbn [fst snd] in *.
    rewrite List.concat_app. cbn [concat]. rewrite List.app_nil_r.
    split; [reflexivity|].
    rewrite !List.length_app in *. cbn [List.length].
    repeat split; try lia; try discriminate.
    apply Forall_app. split; [exact Hrows|]. now constructor.
  - (* k = 0 with a non-zero remainder: impossible *)
    rewrite Hk0 in Hmod. now rewrite Z.mod_0_l in Hmod by lia.
  - (* the current row goes on *)
    assert (Hroom : (Z.of_nat (List.length cur) < cols)%Z).
    { destruct (Z.eq_dec (Z.of_nat (List.length cur)) cols) as [Heq|];
        [|lia].
      exfalso. apply Hmod. rewrite Hk, Heq.
      replace (Z.of_nat (List.length rows) * cols + cols)%Z
        with ((Z.of_nat (List.length rows) + 1) * cols)%Z by lia.
      apply Z.mod_mul. lia. }
    eexists. exists dot. split; [reflexivity|]. split; [reflexivity|].
    unfold chunked, dotsOf in *. cbn [fst snd] in *.
    split; [now rewrite List.app_assoc|].
    rewrite !List.length_app in *. cbn [List.length].
    repeat split; try lia; try assumption; try discriminate.
Qed.

Lemma artistGridLoop_chunked (cols : Z) (now : Z -> Dot.Date)
    (artists : list Artist) (k : nat)
    (acc : list (list Dot.DotEntity) * list Dot.DotEntity) :
  (0 < cols)%Z -> chunked cols k acc ->
  exists acc' dots,
    artistGridLoop cols now acc (Z.of_nat k) artists = Some acc'
    /\ dotsOf acc' = (dotsOf acc ++ dots)%list
    /\ chunked cols (k + List.length artists) acc'
    /\ forall (i : nat) artist, nth_error artists i = Some artist ->
         exists dot,
           nth_error dots i = Some dot
           /\ createArtistDot (Z.of_nat (k + i) / cols)
                (Z.of_nat (k + i) mod cols) artist (now (Z.of_nat (k + i)))
              = Some dot.
Proof.
  intros Hcols. revert k acc.
  induction artists as [|artist artists IH]; intros k acc Hacc.
  - exists acc, []. cbn [artistGridLoop List.length].
    rewrite List.app_nil_r, Nat.add_0_r.
    split; [reflexivity|]. split; [reflexivity|]. split; [exact Hacc|].
    intros [|i] a; discriminate.
  - cbn [artistGridLoop].
    destruct (artistGridStep_chunked cols now k acc artist Hcols Hacc)
      as (acc1 & dot & -> & Hdot & Hdots1 & Hacc1).
    replace (Z.of_nat k + 1)%Z with (Z.of_nat (S k)) by lia.
    destruct (IH (S k) acc1 Hacc1) as (acc' & dots & -> & Hdots & Hacc' & Hnth).
    exists acc', (dot :: dots). split; [reflexivity|].
    split; [now rewrite Hdots, Hdots1, <- List.app_assoc|].
    split.
    { cbn [List.length].
      now replace (k + S (List.length artists))%nat
        with (S k + List.length artists)%nat by lia. }
    intros [|i] a; cbn [nth_error].
    + intros [= <-]. exists dot. rewrite Nat.add_0_r. now split.
    + intros Hi. destruct (Hnth i a Hi) as (d & Hd & Hcreate).
      exists d. split; [exact Hd|].
      now replace (k + S i)%nat with (S k + i)%nat by lia.
Qed.

(** In rows of [cols] elements followed by a last row, the element of
    rank [i] is at row [i / cols], column [i mod cols]. *)
Lemma nth_error_chunked {A : Type} (cols : Z) (rows : list (list A))
    (cur : list A) (i : nat) (x : A) :
  (0 < cols)%Z ->
  Forall (fun row => Z.of_nat (List.length row) = cols) rows ->
  (Z.of_nat (List.length cur) <= cols)%Z ->
  nth_error (concat rows ++ cur)%list i = Some x ->
  exists row,
    nth_error (rows ++ [cur])%list (Z.to_nat (Z.of_nat i / cols)) = Some row
    /\ nth_error row (Z.to_nat (Z.of_nat i mod cols)) = Some x.
Proof.
  intros Hcols Hrows Hcur. revert i.
  induction Hrows as [|row rows Hrow _ IH]; intros i Hi.
  - cbn [concat List.app] in *.
    assert (Hlt : (i < List.length cur)%nat)
      by (apply nth_error_Some; congruence).
    rewrite Z.div_small, Z.mod_small by lia.
    exists cur. rewrite Nat2Z.id. now split.
  - cbn [concat] in Hi. rewrite <- List.app_assoc in Hi.
    destruct (Nat.lt_ge_cases i (List.length row)) as [Hlt|Hge].
    + rewrite nth_error_app1 in Hi by exact Hlt.
      rewrite Z.div_small, Z.mod_small by lia.
      exists row. rewrite Nat2Z.id. now split.
    + rewrite nth_error_app2 in Hi by exact Hge.
      destruct (IH _ Hi) as (row' & Hrow' & Hx).
      exists row'.
      assert (Hsplit : Z.of_nat i
                       = (Z.of_nat (i - List.length row) + 1 * cols)%Z)
        by lia.
      rewrite Hsplit, Z.div_add, Z.mod_add by lia.
      split; [|exact Hx].
      replace (Z.to_nat (Z.of_nat (i - List.length row) / cols + 1))
        with (S (Z.to_nat (Z.of_nat (i - List.length row) / cols))).
      * exact Hrow'.
      * assert (0 <= Z.of_nat (i - List.length row) / cols)%Z
          by (apply Z.div_pos; lia).
        lia.
Qed.

Lemma createArtistGrid_spec (artists : list Artist) (cols : Z)
    (now : Z -> Dot.Date) :
  (0 < cols)%Z ->
  exists grid,
    createArtistGrid artists cols now = Some grid
    /\ map Dot.id (flattenDotGrid grid) = map slug artists
    /\ (forall (r : nat) row, nth_error grid r = Some row ->
          (0 < List.length row)%nat
          /\ (Z.of_nat (List.length row) <= cols)%Z
          /\ ((S r < List.length grid)%nat ->
              Z.of_nat (List.length row) = cols))
    /\ forall (k : nat) artist, nth_error artists k = Some artist ->
         exists row dot,
           nth_error grid (Z.to_nat (Z.of_nat k / cols)) = Some row
           /\ nth_error row (Z.to_nat (Z.of_nat k mod cols)) = Some dot
           /\ Dot.id dot = slug artist
           /\ nth_error (flattenDotGrid grid) k = Some dot
           /\ createArtistDot (Z.of_nat k / cols) (Z.of_nat k mod cols)
                artist (now (Z.of_nat k)) = Some dot
           /\ Dot.gridPosition dot
              = {| Vector2D.row := (Z.of_nat k / cols)%Z;
                   Vector2D.col := (Z.of_nat k mod cols)%Z |}.
Proof.
  intros Hcols. unfold createArtistGrid.
  assert (Hinit : chunked cols 0 ([], [])).
  { unfold chunked, dotsOf. cbn. repeat split; try lia; try constructor. }
  destruct (artistGridLoop_chunked cols now artists 0 ([], []) Hcols Hinit)
    as ([rows cur] & dots & Hloop & Hdots & Hacc & Hnth).
  change (Z.of_nat 0) with 0%Z in Hloop. rewrite Hloop.
  unfold dotsOf in Hdots. cbn [fst snd concat List.app] in Hdots.
  destruct Hacc as (Hlen & Hrows & Hcur & Hzero & Hpos).
  cbn [fst snd Nat.add] in *.
  assert (Hds : forall (k : nat) artist, nth_error artists k = Some artist ->
            exists dot, nth_error dots k = Some dot
              /\ Dot.id dot = slug artist
              /\ createArtistDot (Z.of_nat k / cols) (Z.of_nat k mod cols)
                   artist (now (Z.of_nat k)) = Some dot
              /\ Dot.gridPosition dot
                 = {| Vector2D.row := (Z.of_nat k / cols)%Z;
                      Vector2D.col := (Z.of_nat k mod cols)%Z |}).
  { intros k artist Hk. destruct (Hnth k artist Hk) as (dot & Hd & Hcreate).
    cbn [Nat.add] in Hcreate.
    destruct (createArtistDot_Some (Z.of_nat k / cols) (Z.of_nat k mod cols)
                artist (now (Z.of_nat k)))
      as (dot' & Hcreate' & Hid & Hgp & _); [apply Z.div_pos; lia|].
    assert (dot' = dot) as -> by congruence. now exists dot. }
  assert (Hids : map Dot.id dots = map slug artists).
  { unfold dotsOf in Hlen. cbn [fst snd] in Hlen. rewrite Hdots in Hlen.
    apply nth_error_ext. intros k. rewrite !nth_error_map.
    destruct (nth_error artists k) as [artist|] eqn:Hk.
    - destruct (Hds k artist Hk) as (dot & Hd & Hid & _).
      rewrite Hd. cbn [option_map]. now rewrite Hid.
    - apply nth_error_None in Hk.
      assert (Hnone : nth_error dots k = None)
        by (apply nth_error_None; lia).
      now rewrite Hnone. }
  destruct (Z.ltb_spec 0 (JS.arrayLengthOf cur)) as [Hnonempty|Hempty].
  - exists (rows ++ [cur])%list. split; [reflexivity|].
    split.
    { unfold flattenDotGrid. rewrite List.concat_app. cbn [concat].
      now rewrite List.app_nil_r, Hdots. }
    split.
    { intros r row Hr. rewrite List.length_app. cbn [List.length].
      destruct (Nat.lt_ge_cases r (List.length rows)) as [Hlt|Hge].
      - rewrite nth_error_app1 in Hr by exact Hlt.
        apply nth_error_In in Hr.
        rewrite List.Forall_forall in Hrows. apply Hrows in Hr. lia.
      - rewrite nth_error_app2 in Hr by exact Hge.
        destruct (r - List.length rows)%nat as [|r'] eqn:Hr';
          cbn [nth_error] in Hr.
        + injection Hr as <-. unfold JS.arrayLengthOf in Hnonempty.
          repeat split; lia.
        + now destruct r'. }
    intros k artist Hk.
    destruct (Hds k artist Hk) as (dot & Hd & Hid & Hcreate & Hgp).
    rewrite <- Hdots in Hd.
    destruct (nth_error_chunked cols rows cur k dot Hcols Hrows Hcur Hd)
      as (row & Hrow & Hcol).
    exists row, dot. repeat split; try assumption.
    unfold flattenDotGrid. rewrite List.concat_app. cbn [concat].
    now rewrite List.app_nil_r.
  - assert (cur = []) as ->.
    { unfold JS.arrayLengthOf in Hempty. destruct cur; [reflexivity|].
      cbn [List.length] in Hempty. lia. }
    assert (List.length artists = 0%nat) as Hn.
    { destruct (List.length artists) eqn:E; [reflexivity|].
      assert (Hp := Hpos ltac:(lia)). cbn in Hp. lia. }
    rewrite (Hzero Hn) in *. exists []. split; [reflexivity|].
    split; [destruct artists; [reflexivity|discriminate]|].
    split; [intros [|r] row; discriminate|].
    intros k artist Hk. destruct artists; [|discriminate].
    destruct k; discriminate.
Qed.

(** X12. For a positive number of columns [createArtistGrid] cuts the
    artists into rows of [cols] dots, in order: the ids of the flattened
    grid are the artists' slugs, no row is empty, every row but the last
    has [cols] dots and the last at most [cols], and the dot of the
    artist of rank [k] is at row [k / cols], column [k mod cols] of the
    grid, which is also its grid position. *)
Theorem createArtistGrid_chunks (artists : list Artist) (cols : Z)
    (now : Z -> Dot.Date) (Hcols : (0 < cols)%Z) :
  exists grid,
    createArtistGrid artists cols now = Some grid
    /\ map Dot.id (flattenDotGrid grid) = map slug artists
    /\ (forall (r : nat) row, nth_error grid r = Some row ->
          (0 < List.length row)%nat
          /\ (Z.of_nat (List.length row) <= cols)%Z
          /\ ((S r < List.length grid)%nat ->
              Z.of_nat (List.length row) = cols))
    /\ forall (k : nat) artist, nth_error artists k = Some artist ->
         exists row dot,
           nth_error grid (Z.to_nat (Z.of_nat k / cols)) = Some row
           /\ nth_error row (Z.to_nat (Z.of_nat k mod cols)) = Some dot
           /\ Dot.id dot = slug artist
           /\ nth_error (flattenDotGrid grid) k = Some dot
           /\ createArtistDot (Z.of_nat k / cols) (Z.of_nat k mod cols)
                artist (now (Z.of_nat k)) = Some dot
           /\ Dot.gridPosition dot
              = {| Vector2D.row := (Z.of_nat k / cols)%Z;
                   Vector2D.col := (Z.of_nat k mod cols)%Z |}.
Proof. exact (createArtistGrid_spec artists cols now Hcols). Qed.

Lemma createArtistGrid_chunks_witness :
  let artist := fun name =>
    {| artistName := name; slug := name; isSpecialLink := false;
       linkType := None; url := None |} in
  exists grid,
    createArtistGrid [artist "a"; artist "b"; artist "c"] 2 (fun _ => 0%Z)
    = Some grid
    /\ map Dot.id (flattenDotGrid grid)
       = map slug [artist "a"; artist "b"; artist "c"]
    /\ (forall (r : nat) row, nth_error grid r = Some row ->
          (0 < List.length row)%nat
          /\ (Z.of_nat (List.length row) <= 2)%Z
          /\ ((S r < List.length grid)%nat ->
              Z.of_nat (List.length row) = 2%Z))
    /\ forall (k : nat) a,
         nth_error [artist "a"; artist "b"; artist "c"] k = Some a ->
         exists row dot,
           nth_error grid (Z.to_nat (Z.of_nat k / 2)) = Some row
           /\ nth_error row (Z.to_nat (Z.of_nat k mod 2)) = Some dot
           /\ Dot.id dot = slug a
           /\ nth_error (flattenDotGrid grid) k = Some dot
           /\ createArtistDot (Z.of_nat k / 2) (Z.of_nat k mod 2) a 0
              = Some dot
           /\ Dot.gridPosition dot
              = {| Vector2D.row := (Z.of_nat k / 2)%Z;
                   Vector2D.col := (Z.of_nat k mod 2)%Z |}.
Proof.
  intros artist. apply createArtistGrid_chunks. lia.
Defined.




(** X14. With a positive number of columns [artistDots] holds at most ten
    dots whatever the number of artists: the first nine artists in order,
    under their slugs, then the Subscribe tile, a special dot that links
    to [/subscribe]. *)
Theorem artistDots_subscribe_last (config : GridConfig)
    (artists : list ArtistData) (now : Z -> Dot.Date)
    (Hcols : (0 < cols config)%Z) :
  let n := Nat.min 9 (List.length artists) in
  exists grid last,
    artistDots config artists now = Some grid
    /\ map Dot.id (flattenDotGrid grid)
       = (map UseDotGrid.slug (firstn 9 artists) ++ ["Subscribe"])%list
    /\ List.length (flattenDotGrid grid) = S n
    /\ nth_error (flattenDotGrid grid) n = Some last
    /\ Dot.id last = "Subscribe"
    /\ option_map Dot.type (Dot.content last) = Some Dot.special
    /\ (c ← Dot.content last; Dot.url c) = Some "/subscribe".
Proof.
  intros n. unfold artistDots.
  set (allArtists := (firstn 9 artists ++ [subscribeDot])%list).
  destruct (createArtistGrid_spec (map toFactoryArtist allArtists)
              (cols config) now Hcols) as (grid & Hgrid & Hids & _ & Hnth).
  assert (Hn : List.length (firstn 9 artists) = n)
    by apply List.length_firstn.
  assert (Hlast : nth_error (map toFactoryArtist allArtists) n
                  = Some (toFactoryArtist subscribeDot)).
  { unfold allArtists. rewrite nth_error_map, nth_error_app2 by lia.
    now rewrite Hn, Nat.sub_diag. }
  assert (Hslugs : map slug (map toFactoryArtist allArtists)
                   = (map UseDotGrid.slug (firstn 9 artists)
                      ++ ["Subscribe"])%list).
  { unfold allArtists. rewrite List.map_map, List.map_app. reflexivity. }
  destruct (Hnth n _ Hlast) as (row & last & _ & _ & _ & Hflat & Hcreate & _).
  exists grid, last. split; [exact Hgrid|]. split; [now rewrite Hids|].
  split.
  { rewrite <- (List.length_map Dot.id), Hids, Hslugs, List.length_app.
    rewrite List.length_map. cbn [List.length]. lia. }
  split; [exact Hflat|].
  unfold createArtistDot, toFactoryArtist, subscribeDot in Hcreate.
  cbn [isSpecialLink UseDotGrid.isSpecialLink] in Hcreate.
  match type of Hcreate with createDot ?input ?t = _ =>
    destruct (createDot_Some input t)
      as (dot & Hdot & Hid & _ & Hcontent & _)
  end; [cbn; apply Z.div_pos; lia|].
  assert (dot = last) as -> by congruence.
  rewrite Hid, Hcontent. now repeat split.
Qed.

Lemma artistDots_subscribe_last_witness :
  let n := Nat.min 9 (List.length (@nil ArtistData)) in
  exists grid last,
    artistDots DEFAULT_CONFIG [] (fun _ => 0%Z) = Some grid
    /\ map Dot.id (flattenDotGrid grid)
       = (map UseDotGrid.slug (firstn 9 []) ++ ["Subscribe"])%list
    /\ List.length (flattenDotGrid grid) = S n
    /\ nth_error (flattenDotGrid grid) n = Some last
    /\ Dot.id last = "Subscribe"
    /\ option_map Dot.type (Dot.content last) = Some Dot.special
    /\ (c ← Dot.content last; Dot.url c) = Some "/subscribe".
Proof.
  apply (artistDots_subscribe_last DEFAULT_CONFIG [] (fun _ => 0%Z)).
  reflexivity.
Defined.

(** X15. The route pushed by a click on an ordinary artist dot is the url
    [createArtistDot] stores in the content of that artist's entity:
    both are [/events/ancient-technology/] followed by the slug of the
    artist name. *)
Theorem artistDot_url_is_click_route (row col : Z) (artist : ArtistData)
    (now : Dot.Date) (dot : Dot.DotEntity) (dotId : string) (st : Hook)
    (Hordinary : UseDotGrid.isSpecialLink artist = false)
    (Hdot : createArtistDot row col (toFactoryArtist artist) now = Some dot) :
  exists route,
    (c ← Dot.content dot; Dot.url c) = Some route
    /\ navigations (env (handleArtistDotClick dotId artist st))
       = (navigations (env st) ++ [RouterPush route])%list.
Proof.
  exists ("/events/ancient-technology/"
          ++ artistSlug (UseDotGrid.artistName artist)).
  split.
  - unfold createArtistDot, toFactoryArtist in Hdot.
    cbn [isSpecialLink artistName slug] in Hdot. rewrite Hordinary in Hdot.
    unfold createDot in Hdot. cbv zeta in Hdot.
    destruct (getPositionColor _ _ _); [|discriminate Hdot].
    destruct (getGlowColor _); [|discriminate Hdot].
    injection Hdot as <-. reflexivity.
  - destruct (clearAllAnimations_navigations st) as (Hnav & _).
    unfold handleArtistDotClick. rewrite Hordinary.
    unfold navigate, setSelectedDot, setSelectedContent, withEnv, withState.
    cbn [state env navigations]. now rewrite Hnav.
Qed.

Lemma artistDot_url_is_click_route_witness :
  let artist :=
    {| UseDotGrid.artistName := "Jane D'Oh!!"; UseDotGrid.slug := "jane";
       UseDotGrid.isSpecialLink := false; UseDotGrid.linkType := None;
       UseDotGrid.url := None |} in
  exists dot route,
    createArtistDot 0 1 (toFactoryArtist artist) 0 = Some dot
    /\ (c ← Dot.content dot; Dot.url c) = Some route
    /\ navigations (env (handleArtistDotClick "jane" artist
                           (mount DEFAULT_CONFIG [] None)))
       = (navigations (env (mount DEFAULT_CONFIG [] None))
          ++ [RouterPush route])%list.
Proof.
  intros artist.
  destruct (createArtistDot 0 1 (toFactoryArtist artist) 0) as [dot|] eqn:Hdot;
    [|discriminate Hdot].
  destruct (artistDot_url_is_click_route 0 1 artist 0%Z dot "jane"
              (mount DEFAULT_CONFIG [] None) eq_refl Hdot)
    as (route & Hurl & Hnav).
  exists dot, route. split; [reflexivity|]. now split.
Defined.

(** ** Timers of the states a mounted grid can reach *)

Ltac inv_eval :=
  lazy beta iota zeta delta
    [consistent handlesFresh
     handleDotClick handleArtistDotClick handleClose handleBackgroundClick
     handleGridMouseLeave clearAllAnimations resetInactivityTimer
     runRippleAnimation rippleStep randomStep rippling
     incrAnimationCount usedDotsAdd
     disarm clearTimeout clearInterval clearTimer setTimeout setInterval
     arm navigate skip
     setHoveredDot setSelectedDot setSelectedContent setRippleDot
     setRandomDot setGridMousePosition setIsContentExpanded
     setInactivityTimer setRippleIntervalRef setRandomIntervalRef
     setIsAnimatingRef setUsedDotsRef setAnimationCountRef setTimers
     withState withRefs withEnv
     state refs env
     hoveredDot selectedDot selectedContent rippleDot randomDot
     gridMousePosition isContentExpanded
     inactivityTimer rippleIntervalRef randomIntervalRef isAnimatingRef
     usedDotsRef animationCountRef
     timers nextHandle navigations fst snd] in *.

Lemma NoDup_handles_filter (f : timer -> bool) (ts : list timer) :
  List.NoDup (map handle ts) -> List.NoDup (map handle (List.filter f ts)).
Proof.
  induction ts as [|t ts IH]; cbn [map List.filter]; [trivial|].
  intros Hnd. inversion Hnd as [|h hs Hnotin Hnd']; subst.
  destruct (f t); [|now apply IH].
  cbn [map]. constructor; [|now apply IH].
  intros Hin. apply Hnotin. apply in_map_iff in Hin as (t' & Heq & Hin).
  apply List.filter_In in Hin as [Hin _]. apply in_map_iff. now exists t'.
Qed.

Lemma NoDup_handles_arm (ts : list timer) (nh : positive) (t : timer) :
  List.NoDup (map handle ts) ->
  Forall (fun t' => (handle t' < nh)%positive) ts ->
  handle t = nh ->
  List.NoDup (map handle (ts ++ [t])).
Proof.
  intros Hnd Hfresh Ht. rewrite List.map_app. cbn [map].
  apply List.NoDup_app; [exact Hnd| |].
  - constructor; [intros []|constructor].
  - intros h Hin [<-|[]]. apply in_map_iff in Hin as (t' & Heq & Hin).
    rewrite List.Forall_forall in Hfresh. apply Hfresh in Hin. lia.
Qed.

Lemma fresh_filter (f : timer -> bool) (ts : list timer) (nh : positive) :
  Forall (fun t => (handle t < nh)%positive) ts ->
  Forall (fun t => (handle t < nh)%positive) (List.filter f ts).
Proof.
  rewrite !List.Forall_forall. intros H t Hin.
  apply List.filter_In in Hin as [Hin _]. now apply H.
Qed.

Lemma fresh_arm (ts : list timer) (nh : positive) (t : timer) :
  Forall (fun t' => (handle t' < nh)%positive) ts ->
  handle t = nh ->
  Forall (fun t' => (handle t' < Pos.succ nh)%positive) (ts ++ [t]).
Proof.
  intros Hfresh Ht. apply Forall_app. split.
  - eapply List.Forall_impl; [|exact Hfresh]. cbn. intros. lia.
  - constructor; [lia|constructor].
Qed.

(** Timers that stay armed keep their description when the refs and the
    flags change in a way that suits each of them. *)
Lemma timerOk_filter (keep : timer -> bool)
    (i rp rd i' rp' rd' : option positive) (an sel an' sel' : bool)
    (ts : list timer) :
  Forall (timerOk i rp rd an sel) ts ->
  (forall t, timerOk i rp rd an sel t -> keep t = true ->
             timerOk i' rp' rd' an' sel' t) ->
  Forall (timerOk i' rp' rd' an' sel') (List.filter keep ts).
Proof.
  rewrite !List.Forall_forall. intros Hok Hkeep t Hin.
  apply List.filter_In in Hin as [Hin Hk]. apply Hkeep; [|exact Hk].
  now apply Hok.
Qed.

Lemma timerOk_all (i rp rd i' rp' rd' : option positive)
    (an sel an' sel' : bool) (ts : list timer) :
  Forall (timerOk i rp rd an sel) ts ->
  (forall t, timerOk i rp rd an sel t -> timerOk i' rp' rd' an' sel' t) ->
  Forall (timerOk i' rp' rd' an' sel') ts.
Proof. intros Hok Himp. eapply List.Forall_impl; [exact Himp|exact Hok]. Qed.

(** The fields the invariant reads. *)
Lemma consistent_frame (st st' : Hook) :
  inactivityTimer (refs st') = inactivityTimer (refs st) ->
  rippleIntervalRef (refs st') = rippleIntervalRef (refs st) ->
  randomIntervalRef (refs st') = randomIntervalRef (refs st) ->
  isAnimatingRef (refs st') = isAnimatingRef (refs st) ->
  selectedDot (state st') = selectedDot (state st) ->
  rippleDot (state st') = rippleDot (state st) ->
  timers (env st') = timers (env st) ->
  nextHandle (env st') = nextHandle (env st) ->
  consistent st -> consistent st'.
Proof.
  unfold consistent, handlesFresh.
  intros -> -> -> -> -> -> -> ->. trivial.
Qed.

Ltac frame st :=
  apply (consistent_frame st); [reflexivity..|].

Lemma clearTimer_consistent (h : positive) (st : Hook) :
  consistent st -> consistent (clearTimer h st).
Proof.
  destruct st as [s [it rr rd an used cnt] [ts nh nav]]. inv_eval.
  intros (Hnd & Hfresh & Hrefs & Hok & Hidle & Hone & Hdot & Hsel).
  split; [now apply NoDup_handles_filter|].
  split; [now apply fresh_filter|].
  split; [exact Hrefs|].
  split; [eapply timerOk_filter; [exact Hok|]; auto|].
  exact (conj Hidle (conj Hone (conj Hdot Hsel))).
Qed.

Lemma clearAllAnimations_timers (st : Hook) :
  timers (env (clearAllAnimations st))
  = List.filter (fun t =>
      negb (bool_decide (Some (handle t) = inactivityTimer (refs st)))
      && negb (bool_decide (Some (handle t) = rippleIntervalRef (refs st)))
      && negb (bool_decide (Some (handle t) = randomIntervalRef (refs st))))
      (timers (env st)).
Proof.
  destruct st as [s [it rr rd an used cnt] [ts nh nav]].
  assert (Hnone : forall h : positive,
             negb (bool_decide (Some h = @None positive)) = true).
  { intros h. now rewrite bool_decide_eq_false_2. }
  destruct it as [hi|], rr as [hr|], rd as [hd|]; hook_eval;
    rewrite ?filter_filter_bool; try apply filter_ext_bool; try intros t;
    rewrite ?handle_neq_decide, ?Hnone, ?andb_true_r, ?andb_true_l;
    try reflexivity.
  all: try (now destruct (bool_decide _), (bool_decide _), (bool_decide _)).
  all: try (now destruct (bool_decide _), (bool_decide _)).
  symmetry. apply forallb_filter_id, forallb_forall. intros t _.
  cbv beta. rewrite !andb_true_iff.
  repeat split; apply negb_true_iff, bool_decide_eq_false_2; discriminate.
Qed.

(** After [clearAllAnimations] on a consistent state nothing is left but
    the 100 ms timeouts of the random steps, and all of them are. *)
Lemma clearAllAnimations_quiet (st : Hook) :
  consistent st ->
  let st' := clearAllAnimations st in
  consistent st'
  /\ timers (env st') = List.filter isRandomPick (timers (env st)).
Proof.
  intros (Hnd & Hfresh & Hrefs & Hok & Hidle & Hone & Hdot & Hsel). cbv zeta.
  destruct (clearAllAnimations_refs st) as (Hi & Hrp & Hrd & Han & _).
  destruct (clearAllAnimations_state st) as (_ & Hs & _ & _ & Hrdot & _).
  destruct (clearAllAnimations_navigations st) as (_ & Hnh).
  cbv zeta in *.
  assert (Htimers : timers (env (clearAllAnimations st))
                    = List.filter isRandomPick (timers (env st))).
  { rewrite clearAllAnimations_timers. apply filter_ext_in.
    rewrite List.Forall_forall in Hok. intros t Hin. specialize (Hok t Hin).
    unfold timerOk, isRandomPick in *.
    destruct (action t);
      repeat match goal with H : _ /\ _ |- _ => destruct H end.
    - rewrite (bool_decide_eq_true_2 (Some (handle t) = _)) by congruence.
      reflexivity.
    - rewrite (bool_decide_eq_true_2
                 (Some (handle t) = rippleIntervalRef (refs st)))
        by congruence.
      now rewrite andb_false_r.
    - rewrite (bool_decide_eq_true_2
                 (Some (handle t) = randomIntervalRef (refs st)))
        by congruence.
      now rewrite andb_false_r.
    - rewrite !bool_decide_eq_false_2 by congruence.
      match goal with H : repeats t = false |- _ => now rewrite H end. }
  split; [|exact Htimers].
  unfold consistent, handlesFresh.
  rewrite Hi, Hrp, Hrd, Han, Hs, Hrdot, Hnh, Htimers.
  split; [now apply NoDup_handles_filter|].
  split; [now apply fresh_filter|].
  split; [intros h [Hh|[Hh|[Hh|[]]]]; discriminate|].
  split.
  { eapply timerOk_filter; [exact Hok|].
    intros t Ht Hkeep. unfold isRandomPick, timerOk in *.
    destruct (action t); try discriminate.
    apply negb_true_iff in Hkeep. repeat split; try assumption; discriminate. }
  repeat split; try reflexivity. now left.
Qed.

Lemma setSelectedDot_consistent (v : option string) (st : Hook) :
  consistent st ->
  (JS.truthy v = true ->
   isAnimatingRef (refs st) = false
   /\ Forall (fun t => isInactivity t = false) (timers (env st))) ->
  consistent (setSelectedDot v st).
Proof.
  destruct st as [s [it rr rd an used cnt] [ts nh nav]]. inv_eval.
  intros (Hnd & Hfresh & Hrefs & Hok & Hidle & Hone & Hdot & Hsel) Hv.
  split; [exact Hnd|]. split; [exact Hfresh|]. split; [exact Hrefs|].
  split.
  { destruct (JS.truthy v) eqn:Ev.
    - destruct (Hv eq_refl) as [Han Hnone].
      rewrite List.Forall_forall in *. intros t Hin.
      specialize (Hok t Hin). specialize (Hnone t Hin).
      unfold timerOk, isInactivity in *.
      destruct (action t); try discriminate; assumption.
    - eapply timerOk_all; [exact Hok|]. intros t Ht.
      unfold timerOk in *. destruct (action t); try assumption.
      tauto. }
  split; [exact Hidle|]. split; [exact Hone|]. split; [exact Hdot|].
  intros Ht. now apply Hv.
Qed.

Lemma filter_isRandomPick_no_inactivity (ts : list timer) :
  Forall (fun t => isInactivity t = false) (List.filter isRandomPick ts).
Proof.
  apply List.Forall_forall. intros t Hin.
  apply List.filter_In in Hin as [_ Hpick].
  unfold isRandomPick, isInactivity in *. now destruct (action t).
Qed.

Lemma select_after_clear (v : option string) (st : Hook) :
  consistent st -> consistent (setSelectedDot v (clearAllAnimations st)).
Proof.
  intros Hst. destruct (clearAllAnimations_quiet st Hst) as [Hquiet Htimers].
  cbv zeta in *. apply setSelectedDot_consistent; [exact Hquiet|].
  intros _. split.
  - now destruct (clearAllAnimations_refs st) as (_ & _ & _ & Han & _).
  - rewrite Htimers. apply filter_isRandomPick_no_inactivity.
Qed.

Lemma handleDotClick_consistent (dotId contentKey : string) (st : Hook) :
  consistent st -> consistent (handleDotClick dotId contentKey st).
Proof.
  intros Hst. unfold handleDotClick.
  frame (setSelectedDot (Some dotId) (clearAllAnimations st)).
  now apply select_after_clear.
Qed.

Lemma handleArtistDotClick_consistent (dotId : string) (artist : ArtistData)
    (st : Hook) :
  consistent st -> consistent (handleArtistDotClick dotId artist st).
Proof.
  intros Hst. unfold handleArtistDotClick.
  destruct (clearAllAnimations_quiet st Hst) as [Hquiet _]. cbv zeta in *.
  destruct (UseDotGrid.isSpecialLink artist).
  - destruct (isDot (UseDotGrid.linkType artist) "subscribe");
      [|destruct (isDot (UseDotGrid.linkType artist) "instagram"
                  && JS.truthy (UseDotGrid.url artist))];
      frame (clearAllAnimations st); exact Hquiet.
  - frame (setSelectedDot (Some dotId) (clearAllAnimations st)).
    now apply select_after_clear.
Qed.

(** [resetInactivityTimer], called while no dot is selected. *)
Lemma resetInactivityTimer_consistent (config : GridConfig)
    (sel : option string) (st : Hook) :
  consistent st ->
  JS.truthy (selectedDot (state st)) = false ->
  consistent (resetInactivityTimer config sel st).
Proof.
  destruct st as [s [it rr rd an used cnt] [ts nh nav]].
  intros (Hnd & Hfresh & Hrefs & Hok & Hidle & Hone & Hdot & Hsel) Hnosel.
  assert (Hcleared : forall keep : timer -> bool,
    (forall t, keep t = true -> Some (handle t) <> it) ->
    Forall (fun t => isInactivity t = false) (List.filter keep ts)).
  { intros keep Hkeep. apply List.Forall_forall. intros t Hin.
    apply List.filter_In in Hin as [Hin Hk].
    inv_eval. rewrite List.Forall_forall in Hok. specialize (Hok t Hin).
    unfold timerOk, isInactivity in *. destruct (action t); try reflexivity.
    destruct Hok as [Hh _]. apply Hkeep in Hk. congruence. }
  unfold resetInactivityTimer. inv_eval.
  destruct it as [h|]; inv_eval.
  - destruct (negb an && negb (JS.truthy sel)) eqn:Harm; inv_eval.
    + apply andb_true_iff in Harm as [Han Hs].
      apply negb_true_iff in Han, Hs. subst an.
      split.
      { apply NoDup_handles_arm with nh;
          [now apply NoDup_handles_filter|now apply fresh_filter|reflexivity]. }
      split; [apply fresh_arm; [now apply fresh_filter|reflexivity]|].
      split.
      { intros h' [Hh|[Hh|[Hh|[]]]].
        - injection Hh as <-. lia.
        - assert (h' < nh)%positive by (apply Hrefs; right; now left). lia.
        - assert (h' < nh)%positive
            by (apply Hrefs; right; right; now left). lia. }
      split.
      { apply Forall_app. split.
        - assert (Hnone := Hcleared
            (fun t => negb (Pos.eqb (handle t) h))).
          rewrite List.Forall_forall in *. intros t Hin.
          assert (Hno : isInactivity t = false).
          { apply Hnone; [|exact Hin]. intros t' Hk [= Heq].
            rewrite Heq, Pos.eqb_refl in Hk. discriminate. }
          apply List.filter_In in Hin as [Hin _].
          specialize (Hok t Hin). specialize (Hfresh t Hin). cbv beta in Hfresh.
          unfold timerOk, isInactivity in *.
          destruct (action t); try discriminate; try assumption.
          destruct Hok as (Hrep & Hi & Hrest).
          split; [exact Hrep|]. split; [|exact Hrest].
          intros [= ->]. lia.
        - constructor; [|constructor]. unfold timerOk. cbn.
          repeat split; try reflexivity; assumption. }
      exact (conj Hidle (conj Hone (conj Hdot Hsel))).
    + split; [now apply NoDup_handles_filter|].
      split; [now apply fresh_filter|].
      split; [exact Hrefs|].
      split; [eapply timerOk_filter; [exact Hok|]; auto|].
      exact (conj Hidle (conj Hone (conj Hdot Hsel))).
  - destruct (negb an && negb (JS.truthy sel)) eqn:Harm; inv_eval.
    + apply andb_true_iff in Harm as [Han Hs].
      apply negb_true_iff in Han, Hs. subst an.
      split; [now apply NoDup_handles_arm with nh|].
      split; [now apply fresh_arm|].
      split.
      { intros h' [Hh|[Hh|[Hh|[]]]].
        - injection Hh as <-. lia.
        - assert (h' < nh)%positive by (apply Hrefs; right; now left). lia.
        - assert (h' < nh)%positive
            by (apply Hrefs; right; right; now left). lia. }
      split.
      { apply Forall_app. split.
        - rewrite List.Forall_forall in *. intros t Hin.
          specialize (Hok t Hin). specialize (Hfresh t Hin). cbv beta in Hfresh.
          unfold timerOk in *.
          destruct (action t); try assumption.
          + destruct Hok as [Hh _]. discriminate.
          + destruct Hok as (Hrep & Hi & Hrest).
            split; [exact Hrep|]. split; [|exact Hrest].
            intros [= ->]. lia.
        - constructor; [|constructor]. unfold timerOk. cbn.
          repeat split; try reflexivity; assumption. }
      exact (conj Hidle (conj Hone (conj Hdot Hsel))).
    + now repeat (split; [assumption|]).
Qed.

Lemma handleClose_consistent (config : GridConfig) (render : State)
    (st : Hook) :
  consistent st -> consistent (handleClose config render st).
Proof.
  intros Hst. unfold handleClose.
  apply resetInactivityTimer_consistent; [|reflexivity].
  frame (setSelectedDot None st).
  apply setSelectedDot_consistent; [exact Hst|discriminate].
Qed.

Lemma handleBackgroundClick_consistent (config : GridConfig)
    (render : State) (st : Hook) :
  consistent st -> consistent (handleBackgroundClick config render st).
Proof.
  intros Hst. unfold handleBackgroundClick.
  destruct (JS.truthy (selectedContent render)); [|exact Hst].
  now apply (handleClose_consistent config render).
Qed.

(** A call of [getRandomUnusedDot] only writes [usedDotsRef]. *)
Lemma getRandomUnusedDot_frame (config : GridConfig) (fuel : nat) (r : Q)
    (st st' : Hook) (pick : option string) :
  getRandomUnusedDot config fuel r st = Some (pick, st') ->
  state st' = state st /\ env st' = env st
  /\ inactivityTimer (refs st') = inactivityTimer (refs st)
  /\ rippleIntervalRef (refs st') = rippleIntervalRef (refs st)
  /\ randomIntervalRef (refs st') = randomIntervalRef (refs st)
  /\ isAnimatingRef (refs st') = isAnimatingRef (refs st)
  /\ animationCountRef (refs st') = animationCountRef (refs st).
Proof.
  revert st. induction fuel as [|fuel IH]; intros st; [discriminate|].
  cbn [getRandomUnusedDot].
  destruct (JS.arrayLength (unusedDotIds config (usedDotsRef (refs st))) =? 0)%Z.
  - intros H. apply IH in H. exact H.
  - intros [= _ <-].
    destruct (JS.index _ _); now repeat split.
Qed.

Lemma refs_fresh_succ (it rr rd : option positive) (nh : positive) :
  (forall h, In (Some h) [it; rr; rd] -> (h < nh)%positive) ->
  forall h, In (Some h) [it; rr; rd] -> (h < Pos.succ nh)%positive.
Proof. intros H h Hin. specialize (H h Hin). lia. Qed.

(** Timers armed before [nh] was allocated keep their description when
    an idle animation starts and its ref takes the handle [nh]. *)
Lemma timerOk_start (it rr rd rr' rd' : option positive) (sel : bool)
    (nh : positive) (ts : list timer) :
  Forall (fun t => (handle t < nh)%positive) ts ->
  Forall (fun t => isInactivity t = false) ts ->
  Forall (timerOk it rr rd false sel) ts ->
  (rr' = rr \/ rr' = Some nh) -> (rd' = rd \/ rd' = Some nh) ->
  Forall (timerOk it rr' rd' true sel) ts.
Proof.
  rewrite !List.Forall_forall. intros Hfresh Hnone Hok Hrr Hrd t Hin.
  specialize (Hfresh t Hin). specialize (Hnone t Hin). specialize (Hok t Hin).
  cbv beta in Hfresh. unfold timerOk, isInactivity in *.
  destruct (action t); try discriminate.
  - destruct Hok as (_ & _ & [=]).
  - destruct Hok as (_ & _ & [=]).
  - destruct Hok as (Hrep & Hi & Hr & Hd).
    repeat split; try assumption.
    + destruct Hrr as [->| ->]; [assumption|]. intros [= ->]. lia.
    + destruct Hrd as [->| ->]; [assumption|]. intros [= ->]. lia.
Qed.

Lemma runRippleAnimation_consistent (config : GridConfig)
    (sel : option string) (st : Hook) :
  consistent st ->
  Forall (fun t => isInactivity t = false) (timers (env st)) ->
  JS.truthy (selectedDot (state st)) = false ->
  consistent (runRippleAnimation config sel st).
Proof.
  destruct st as [s [it rr rd an used cnt] [ts nh nav]].
  intros Hst Hnone Hnosel. unfold runRippleAnimation.
  destruct (isAnimatingRef _ || JS.truthy sel) eqn:Hbusy; [exact Hst|].
  apply orb_false_iff in Hbusy as [Han _].
  inv_eval. subst an.
  destruct Hst as (Hnd & Hfresh & Hrefs & Hok & Hidle & Hone & Hdot & Hsel).
  destruct (Hidle eq_refl) as [-> ->].
  split; [now apply NoDup_handles_arm with nh|].
  split; [now apply fresh_arm|].
  split.
  { intros h [Hh|[Hh|[Hh|[]]]]; try discriminate.
    - assert (h < nh)%positive by (apply Hrefs; now left). lia.
    - injection Hh as <-. lia. }
  split.
  { apply Forall_app. split.
    - rewrite Hnosel in *.
      apply (timerOk_start it None None (Some nh) None false nh ts);
        auto.
    - constructor; [|constructor]. unfold timerOk. cbn. now repeat split. }
  split; [discriminate|]. split; [now right|]. split; [discriminate|].
  rewrite Hnosel. discriminate.
Qed.

Lemma runRandomDotAnimation_consistent (config : GridConfig) (fuel : nat)
    (r : Q) (sel : option string) (st st' : Hook) :
  consistent st ->
  Forall (fun t => isInactivity t = false) (timers (env st)) ->
  JS.truthy (selectedDot (state st)) = false ->
  runRandomDotAnimation config fuel r sel st = Some st' ->
  consistent st'.
Proof.
  destruct st as [s [it rr rd an used cnt] [ts nh nav]].
  intros Hst Hnone Hnosel. unfold runRandomDotAnimation.
  destruct (isAnimatingRef _ || JS.truthy sel) eqn:Hbusy;
    [now intros [= <-]|].
  apply orb_false_iff in Hbusy as [Han _].
  cbv zeta.
  destruct (getRandomUnusedDot config fuel r _) as [[nextDot st2]|] eqn:Hpick;
    [|discriminate].
  cbn [mbind option_bind]. intros [= <-].
  apply getRandomUnusedDot_frame in Hpick
    as (Hs & He & Hi & Hrr & Hrd & Ha & _).
  inv_eval. subst an.
  destruct Hst as (Hnd & Hfresh & Hrefs & Hok & Hidle & Hone & Hdot & Hsel).
  destruct (Hidle eq_refl) as [-> ->].
  unfold consistent, handlesFresh. inv_eval.
  rewrite Hs, He, Hi, Hrr, Ha. inv_eval.
  split; [now apply NoDup_handles_arm with nh|].
  split; [now apply fresh_arm|].
  split.
  { intros h [Hh|[Hh|[Hh|[]]]]; try discriminate.
    - assert (h < nh)%positive by (apply Hrefs; now left). lia.
    - injection Hh as <-. lia. }
  split.
  { apply Forall_app. split.
    - rewrite Hnosel in *.
      apply (timerOk_start it None None None (Some nh) false nh ts);
        auto.
    - constructor; [|constructor]. unfold timerOk. cbn. now repeat split. }
  split; [discriminate|]. split; [now left|]. split; [intros _; now apply Hdot|].
  rewrite Hnosel. discriminate.
Qed.

Lemma truthy_append (a : string) (c : ascii) (b : string) :
  JS.truthy (Some (a ++ String c b)) = true.
Proof. destruct a; reflexivity. Qed.

Lemma truthy_append_hyphen (a b : string) :
  JS.truthy (Some (a ++ "-" ++ b)) = true.
Proof. destruct a; reflexivity. Qed.

(** The ripple walk ends on [null] and on nothing else that is falsy. *)
Lemma getNextRipplePosition_falsy (config : GridConfig)
    (current : option string) :
  JS.truthy (getNextRipplePosition config current) = false ->
  getNextRipplePosition config current = None.
Proof.
  unfold getNextRipplePosition.
  destruct (negb (JS.truthy current)); [discriminate|].
  cbv zeta.
  destruct (JS.strictEq _ _); [destruct (JS.strictEq _ _)|];
    intros Ht; try reflexivity;
    rewrite ?truthy_append, ?truthy_append_hyphen in Ht; discriminate.
Qed.

Lemma rippleStep_consistent (config : GridConfig) (st : Hook) (h : positive) :
  consistent st ->
  rippleIntervalRef (refs st) = Some h ->
  consistent (rippleStep config st).
Proof.
  destruct st as [s [it rr rd an used cnt] [ts nh nav]].
  intros (Hnd & Hfresh & Hrefs & Hok & Hidle & Hone & Hdot & Hsel) Href.
  unfold rippleStep. cbv zeta.
  pose proof (getNextRipplePosition_falsy config
                (rippleDot (state {| state := s;
                   refs := {| inactivityTimer := it; rippleIntervalRef := rr;
                              randomIntervalRef := rd; isAnimatingRef := an;
                              usedDotsRef := used; animationCountRef := cnt |};
                   env := {| timers := ts; nextHandle := nh;
                             navigations := nav |} |}))) as Hfalsy.
  set (next := getNextRipplePosition config _) in *.
  inv_eval. subst rr.
  destruct Hone as [[=]| ->].
  destruct (negb (JS.truthy next)) eqn:Hnext; inv_eval.
  - (* past the last cell: the interval is cleared *)
    apply negb_true_iff in Hnext. rewrite (Hfalsy Hnext).
    split; [now apply NoDup_handles_filter|].
    split; [now apply fresh_filter|].
    split.
    { intros h' [Hh|[Hh|[Hh|[]]]]; try discriminate.
      apply Hrefs. now left. }
    split.
    { eapply timerOk_filter; [exact Hok|].
      intros t Ht Hkeep. apply negb_true_iff in Hkeep.
      unfold timerOk in *. destruct (action t).
      - destruct Ht as (? & ? & ? & ? & ?). now repeat split.
      - destruct Ht as ([= Heq] & _). rewrite Heq, Pos.eqb_refl in Hkeep.
        discriminate.
      - destruct Ht as ([=] & _).
      - destruct Ht as (? & ? & ? & ?). now repeat split. }
    split; [now split|]. split; [now left|]. split; [reflexivity|].
    reflexivity.
  - split; [exact Hnd|]. split; [exact Hfresh|]. split; [exact Hrefs|].
    split; [exact Hok|]. split; [exact Hidle|]. split; [now right|].
    split; [discriminate|exact Hsel].
Qed.

Lemma randomStep_consistent (config : GridConfig) (st : Hook) (h : positive) :
  consistent st ->
  randomIntervalRef (refs st) = Some h ->
  consistent (randomStep config st).
Proof.
  destruct st as [s [it rr rd an used cnt] [ts nh nav]].
  intros (Hnd & Hfresh & Hrefs & Hok & Hidle & Hone & Hdot & Hsel) Href.
  unfold randomStep. inv_eval. subst rd.
  destruct Hone as [-> |[=]].
  destruct (cnt >=? randomCount config)%Z; inv_eval.
  - (* the count is reached: the interval is cleared *)
    split; [now apply NoDup_handles_filter|].
    split; [now apply fresh_filter|].
    split.
    { intros h' [Hh|[Hh|[Hh|[]]]]; try discriminate.
      apply Hrefs. now left. }
    split.
    { eapply timerOk_filter; [exact Hok|].
      intros t Ht Hkeep. apply negb_true_iff in Hkeep.
      unfold timerOk in *. destruct (action t).
      - destruct Ht as (? & ? & ? & ? & ?). now repeat split.
      - destruct Ht as ([=] & _).
      - destruct Ht as ([= Heq] & _). rewrite Heq, Pos.eqb_refl in Hkeep.
        discriminate.
      - destruct Ht as (? & ? & ? & ?). now repeat split. }
    split; [now split|]. split; [now left|]. split; [exact Hdot|].
    reflexivity.
  - (* one more pick: the 100 ms timeout is armed *)
    split; [now apply NoDup_handles_arm with nh|].
    split; [now apply fresh_arm|].
    split; [now apply refs_fresh_succ|].
    split.
    { apply Forall_app. split; [exact Hok|].
      constructor; [|constructor]. unfold timerOk. cbn.
      split; [reflexivity|].
      repeat split; intros Heq;
        match type of Heq with
        | ?x = Some nh =>
            assert (nh < nh)%positive
              by (apply Hrefs; rewrite Heq; cbn; tauto); lia
        end. }
    exact (conj Hidle (conj (or_introl eq_refl) (conj Hdot Hsel))).
Qed.

Lemma randomPick_consistent (config : GridConfig) (fuel : nat) (r : Q)
    (st st' : Hook) :
  consistent st -> randomPick config fuel r st = Some st' -> consistent st'.
Proof.
  intros Hst. unfold randomPick.
  destruct (getRandomUnusedDot config fuel r st) as [[next st1]|] eqn:Hpick;
    [|discriminate].
  cbn [mbind option_bind]. intros [= <-].
  apply getRandomUnusedDot_frame in Hpick
    as (Hs & He & Hi & Hrr & Hrd & Ha & _).
  apply (consistent_frame st); try assumption;
    inv_eval; try (now rewrite Hs); now rewrite He.
Qed.

(** A timer that fires leaves the grid consistent. *)
Lemma fire_consistent (config : GridConfig) (fuel : nat) (h : positive)
    (r r' : Q) (st st' : Hook) :
  consistent st -> fire config fuel h r r' st = Some st' -> consistent st'.
Proof.
  intros Hst. unfold fire.
  destruct (find (fun t => Pos.eqb (handle t) h) (timers (env st)))
    as [t|] eqn:Hfind; [|now intros [= <-]].
  apply find_some in Hfind as [Hin Hh]. apply Pos.eqb_eq in Hh.
  pose proof Hst as (_ & _ & _ & Hok & _ & _ & _ & _).
  rewrite List.Forall_forall in Hok. specialize (Hok t Hin).
  unfold timerOk in Hok. unfold runCallback.
  destruct (action t) as [sel| | |] eqn:Hact.
  - destruct Hok as (Hi & -> & Hsel & Han & Hnosel).
    assert (Hcleared : Forall (fun t' => isInactivity t' = false)
                         (timers (env (clearTimer h st)))).
    { destruct Hst as (_ & _ & _ & Hall & _).
      destruct st as [s [it rr rd an used cnt] [ts nh nav]]. inv_eval.
      apply List.Forall_forall. intros t' Hin'.
      apply List.filter_In in Hin' as [Hin' Hkeep].
      apply negb_true_iff in Hkeep.
      rewrite List.Forall_forall in Hall. specialize (Hall t' Hin').
      unfold timerOk, isInactivity in *.
      destruct (action t'); try reflexivity.
      destruct Hall as (Hi' & _).
      assert (handle t' = h) by congruence.
      subst h. rewrite H, Pos.eqb_refl in Hkeep. discriminate. }
    assert (Hnosel' : JS.truthy (selectedDot (state (clearTimer h st))) = false)
      by exact Hnosel.
    pose proof (clearTimer_consistent h st Hst) as Hst1.
    unfold inactivityElapsed. destruct (Qlt_le_dec r (1 # 2)).
    + intros [= <-]. now apply runRippleAnimation_consistent.
    + now apply runRandomDotAnimation_consistent.
  - destruct Hok as (Href & -> & _). intros [= <-].
    now apply rippleStep_consistent with (handle t).
  - destruct Hok as (Href & -> & _). intros [= <-].
    now apply randomStep_consistent with (handle t).
  - destruct Hok as (-> & _).
    apply randomPick_consistent. now apply clearTimer_consistent.
Qed.

Lemma setHoveredDot_consistent (v : option string) (st : Hook) :
  consistent st -> consistent (setHoveredDot v st).
Proof. intros Hst. now frame st. Qed.

Lemma step_consistent (config : GridConfig) (fuel : nat) (e : event)
    (st st' : Hook) :
  consistent st -> step config fuel e st = Some st' -> consistent st'.
Proof.
  intros Hst. destruct e; cbn [step]; try intros [= <-].
  - now apply handleDotClick_consistent.
  - now apply handleArtistDotClick_consistent.
  - now apply handleBackgroundClick_consistent.
  - now apply handleClose_consistent.
  - now apply setHoveredDot_consistent.
  - unfold handleGridMouseLeave. now frame st.
  - now apply clearAllAnimations_quiet.
  - now apply fire_consistent.
Qed.

(** [resetInactivityTimer] whatever the [selectedDot] of its closure,
    provided it is falsy only when no dot is selected. *)
Lemma resetInactivityTimer_closure (config : GridConfig)
    (sel : option string) (st : Hook) :
  consistent st ->
  (JS.truthy sel = false -> JS.truthy (selectedDot (state st)) = false) ->
  consistent (resetInactivityTimer config sel st).
Proof.
  intros Hst Hsel. destruct (JS.truthy sel) eqn:Es.
  - rewrite resetInactivityTimer_selected by exact Es.
    destruct (inactivityTimer (refs st)); [|exact Hst].
    now apply clearTimer_consistent.
  - apply resetInactivityTimer_consistent; [exact Hst|now apply Hsel].
Qed.

Lemma mount_consistent (config : GridConfig) (artists : list ArtistData)
    (initialSlug : option string) :
  consistent (mount config artists initialSlug).
Proof.
  unfold mount. cbv zeta.
  set (st0 := {| state := initialState artists initialSlug;
                 refs := initialRefs; env := idleBrowser |}).
  assert (Hst0 : consistent st0).
  { unfold consistent, handlesFresh. cbn.
    repeat split; try constructor; try reflexivity; try (now left).
    intros h [Hh|[Hh|[Hh|[]]]]; discriminate. }
  assert (Hst1 : consistent
            (resetInactivityTimer config (selectedDot (state st0)) st0))
    by (apply resetInactivityTimer_closure; [exact Hst0|trivial]).
  destruct (isDot initialSlug "subscribe") eqn:Hsub; [|exact Hst1].
  apply isDot_true in Hsub. subst initialSlug.
  frame (setSelectedDot (Some "subscribe")
           (resetInactivityTimer config (selectedDot (state st0)) st0)).
  apply setSelectedDot_consistent; [exact Hst1|].
  intros _. split; [reflexivity|constructor].
Qed.

Lemma run_consistent (config : GridConfig) (fuel : nat) (es : list event)
    (st st' : Hook) :
  consistent st -> run config fuel es st = Some st' -> consistent st'.
Proof.
  revert st. induction es as [|e es IH]; intros st Hst; cbn [run].
  - now intros [= <-].
  - destruct (step config fuel e st) as [st1|] eqn:Hstep; [|discriminate].
    cbn [mbind option_bind]. apply IH.
    now apply (step_consistent config fuel e st).
Qed.

Lemma reachable_consistent (config : GridConfig) (st : Hook) :
  reachable config st -> consistent st.
Proof.
  intros (artists & initialSlug & fuel & es & Hrun).
  eapply run_consistent; [apply mount_consistent|exact Hrun].
Qed.


(** X17. While a dot is selected no idle animation runs and none can
    start: in every state a mounted grid reaches through clicks, closes,
    hovers, unmount and timers, if [selectedDot] is set then
    [isAnimatingRef] is false, [rippleDot] is null and no inactivity
    timeout, ripple interval or random interval is armed. The only timers
    that can be armed are the 100 ms timeouts of the random steps, which
    are in no ref. *)
Theorem selected_dot_stops_idle_animation (config : GridConfig) (st : Hook)
    (Hreach : reachable config st)
    (Hselected : JS.truthy (selectedDot (state st)) = true) :
  isAnimatingRef (refs st) = false
  /\ rippleIntervalRef (refs st) = None
  /\ randomIntervalRef (refs st) = None
  /\ rippleDot (state st) = None
  /\ Forall (fun t => isRandomPick t = true) (timers (env st)).
Proof.
  destruct (reachable_consistent config st Hreach)
    as (_ & _ & _ & Hok & Hidle & _ & Hdot & Hsel).
  specialize (Hsel Hselected). destruct (Hidle Hsel) as [Hrr Hrd].
  split; [exact Hsel|]. split; [exact Hrr|]. split; [exact Hrd|].
  split; [now apply Hdot|].
  eapply List.Forall_impl; [|exact Hok].
  intros t Ht. unfold timerOk, isRandomPick in *.
  rewrite Hsel, Hselected in Ht.
  destruct (action t).
  - destruct Ht as (_ & _ & _ & _ & [=]).
  - destruct Ht as (_ & _ & [=]).
  - destruct Ht as (_ & _ & [=]).
  - destruct Ht as (-> & _). reflexivity.
Qed.

Lemma selected_dot_stops_idle_animation_witness :
  exists st : Hook,
    run DEFAULT_CONFIG 2
      [TimerFires 1 (1 # 4) 0; TimerFires 2 0 0; DotClick "2-1" "About"]
      (mount DEFAULT_CONFIG [] None) = Some st
    /\ isAnimatingRef (refs st) = false
    /\ rippleIntervalRef (refs st) = None
    /\ randomIntervalRef (refs st) = None
    /\ rippleDot (state st) = None
    /\ Forall (fun t => isRandomPick t = true) (timers (env st)).
Proof.
  destruct (run DEFAULT_CONFIG 2
              [TimerFires 1 (1 # 4) 0; TimerFires 2 0 0;
               DotClick "2-1" "About"]
              (mount DEFAULT_CONFIG [] None)) as [st|] eqn:Hrun;
    [|vm_compute in Hrun; discriminate Hrun].
  exists st. split; [reflexivity|].
  apply (selected_dot_stops_idle_animation DEFAULT_CONFIG st).
  - now exists [], None, 2%nat,
      [TimerFires 1 (1 # 4) 0; TimerFires 2 0 0; DotClick "2-1" "About"].
  - vm_compute in Hrun. injection Hrun as <-. reflexivity.
Defined.



(** X19. [clearAllAnimations], called by a click on a dot and by the
    unmount of the grid, disarms exactly the timers the three refs hold:
    in every state a mounted grid reaches, the timers armed after the
    call are the 100 ms timeouts of the random steps that were armed
    before it, all of them and nothing else. They fire later, on a grid
    that may be unmounted or have a card open. *)
Theorem clearAllAnimations_leaves_random_picks (config : GridConfig)
    (st : Hook) (Hreach : reachable config st) :
  timers (env (clearAllAnimations st))
  = List.filter isRandomPick (timers (env st))
  /\ (forall dotId contentKey,
        timers (env (handleDotClick dotId contentKey st))
        = List.filter isRandomPick (timers (env st)))
  /\ step config 0 Unmount st = Some (clearAllAnimations st).
Proof.
  destruct (clearAllAnimations_quiet st (reachable_consistent config st Hreach))
    as [_ Htimers].
  split; [exact Htimers|]. split; [|reflexivity].
  intros dotId contentKey. exact Htimers.
Qed.

Lemma clearAllAnimations_leaves_random_picks_witness :
  exists st : Hook,
    run DEFAULT_CONFIG 2 [TimerFires 1 (3 # 4) 0; TimerFires 2 0 0]
      (mount DEFAULT_CONFIG [] None) = Some st
    /\ map action (timers (env st)) = [RandomStep; RandomPick]
    /\ timers (env (clearAllAnimations st))
       = List.filter isRandomPick (timers (env st)).
Proof.
  destruct (run DEFAULT_CONFIG 2 [TimerFires 1 (3 # 4) 0; TimerFires 2 0 0]
              (mount DEFAULT_CONFIG [] None)) as [st|] eqn:Hrun;
    [|vm_compute in Hrun; discriminate Hrun].
  exists st. split; [reflexivity|]. split.
  - vm_compute in Hrun. injection Hrun as <-. reflexivity.
  - apply (clearAllAnimations_leaves_random_picks DEFAULT_CONFIG st).
    now exists [], None, 2%nat, [TimerFires 1 (3 # 4) 0; TimerFires 2 0 0].
Defined.

(** ** What re-arms the inactivity watch *)

Lemma in_filter_weaken (f : timer -> bool) (ts : list timer) (t : timer) :
  In t (List.filter f ts) -> In t ts.
Proof. intros H. now apply List.filter_In in H. Qed.

Lemma in_armed (ts : list timer) (t new : timer) :
  In t (ts ++ [new]) -> isInactivity t = true -> isInactivity new = false ->
  In t ts.
Proof.
  intros Hin Ht Hnew. apply in_app_or in Hin as [Hin|[<-|[]]];
    [exact Hin|congruence].
Qed.

(** When a timer fires, whichever it is, an inactivity timeout armed
    afterwards was armed before. *)
Lemma fire_arms_no_inactivity (config : GridConfig)
    (fuel : nat) (h : positive) (r r' : Q) (st st' : Hook)
    (Hfire : fire config fuel h r r' st = Some st') :
  forall t, In t (timers (env st')) -> isInactivity t = true ->
            In t (timers (env st)).
Proof.
  unfold fire in Hfire.
  destruct (find (fun t => Pos.eqb (handle t) h) (timers (env st)))
    as [fired|]; [|now injection Hfire as <-].
  set (st1 := if repeats fired then st else clearTimer h st) in *.
  assert (Hst1 : forall t, In t (timers (env st1)) -> In t (timers (env st))).
  { subst st1. destruct (repeats fired); [trivial|].
    destruct st as [s rf [ts nh nav]]. inv_eval.
    intros t. apply in_filter_weaken. }
  intros t Hin Ht. apply Hst1. clear Hst1. revert Hin.
  unfold runCallback in Hfire.
  destruct (action fired) as [sel| | |].
  - unfold inactivityElapsed in Hfire.
    destruct (Qlt_le_dec r (1 # 2)).
    + injection Hfire as <-. unfold runRippleAnimation.
      destruct (isAnimatingRef (refs st1) || JS.truthy sel); [trivial|].
      destruct st1 as [s rf [ts nh nav]]. inv_eval.
      intros Hin. now apply in_armed in Hin.
    + unfold runRandomDotAnimation in Hfire.
      destruct (isAnimatingRef (refs st1) || JS.truthy sel);
        [now injection Hfire as <-|].
      cbv zeta in Hfire.
      destruct (getRandomUnusedDot config fuel r' _)
        as [[nextDot st2]|] eqn:Hpick; [|discriminate Hfire].
      cbn [mbind option_bind] in Hfire. injection Hfire as <-.
      apply getRandomUnusedDot_frame in Hpick as (_ & He & _).
      inv_eval. rewrite He.
      destruct st1 as [s rf [ts nh nav]]. inv_eval.
      intros Hin. now apply in_armed in Hin.
  - injection Hfire as <-. unfold rippleStep. cbv zeta.
    destruct (negb (JS.truthy _)); [|trivial].
    destruct st1 as [s [it [hr|] rd an used cnt] [ts nh nav]]; inv_eval;
      [apply in_filter_weaken|trivial].
  - injection Hfire as <-. unfold randomStep.
    destruct (animationCountRef (refs st1) >=? randomCount config)%Z.
    + destruct st1 as [s [it rr [hd|] an used cnt] [ts nh nav]]; inv_eval;
        [apply in_filter_weaken|trivial].
    + destruct st1 as [s rf [ts nh nav]]. inv_eval.
      intros Hin. now apply in_armed in Hin.
  - unfold randomPick in Hfire.
    destruct (getRandomUnusedDot config fuel r st1)
      as [[next st2]|] eqn:Hpick; [|discriminate Hfire].
    cbn [mbind option_bind] in Hfire. injection Hfire as <-.
    apply getRandomUnusedDot_frame in Hpick as (_ & He & _).
    inv_eval. now rewrite He.
Qed.

(** X20. Only closing arms the inactivity watch again. For every event
    but [handleClose] and [handleBackgroundClick] (a click on a dot or on
    an artist, a hover, the unmount, a timer that fires, whichever it
    is) an inactivity timeout armed after the event was armed before it:
    the ripple and the random animation end without calling
    [resetInactivityTimer]. *)
Theorem inactivity_rearmed_only_by_close (config : GridConfig) (fuel : nat)
    (e : event) (st st' : Hook)
    (Hclose : e <> Close) (Hbackground : e <> BackgroundClick)
    (Hstep : step config fuel e st = Some st') :
  forall t, In t (timers (env st')) -> isInactivity t = true ->
            In t (timers (env st)).
Proof.
  assert (Hclear : forall t, In t (timers (env (clearAllAnimations st))) ->
                             In t (timers (env st))).
  { intros t. rewrite clearAllAnimations_timers. apply in_filter_weaken. }
  destruct e; cbn [step] in Hstep; try contradiction;
    try (injection Hstep as <-).
  - intros t Hin _. now apply Hclear.
  - intros t Hin _. apply Hclear. revert Hin. unfold handleArtistDotClick.
    destruct (UseDotGrid.isSpecialLink artist);
      [destruct (isDot (UseDotGrid.linkType artist) "subscribe");
       [|destruct (isDot (UseDotGrid.linkType artist) "instagram"
                   && JS.truthy (UseDotGrid.url artist))]|];
      trivial.
  - trivial.
  - trivial.
  - intros t Hin _. now apply Hclear.
  - now apply (fire_arms_no_inactivity config fuel h r r').
Qed.

Lemma inactivity_rearmed_only_by_close_witness :
  exists st' : Hook,
    step DEFAULT_CONFIG 2 (TimerFires 1 (1 # 4) 0)
      (mount DEFAULT_CONFIG [] None) = Some st'
    /\ map action (timers (env st')) = [RippleStep]
    /\ forall t, In t (timers (env st')) -> isInactivity t = true ->
                 In t (timers (env (mount DEFAULT_CONFIG [] None))).
Proof.
  destruct (step DEFAULT_CONFIG 2 (TimerFires 1 (1 # 4) 0)
              (mount DEFAULT_CONFIG [] None))
    as [st'|] eqn:Hstep; [|vm_compute in Hstep; discriminate Hstep].
  exists st'. split; [reflexivity|]. split.
  - vm_compute in Hstep. injection Hstep as <-. reflexivity.
  - apply (inactivity_rearmed_only_by_close DEFAULT_CONFIG 2
             (TimerFires 1 (1 # 4) 0) (mount DEFAULT_CONFIG [] None) st');
      [discriminate|discriminate|exact Hstep].
Defined.
